(** * Rent Roll Extraktor v2.1: a shallow embedding and its specification

    This development embeds [rent_roll_extraktor_v2_1_FINAL.py], and the
    helpers of the API server [app.py] that work on its results, in Rocq and
    checks the statements of the design document against them.

    Modelling conventions.

    - Python [str] values are UTF-8 byte strings ([string]).  Substring
      search, [startswith] and [replace] agree on bytes and on code points
      because UTF-8 is self-synchronising; a slice that drops one non-ASCII
      code point drops all of its bytes.
    - The character classes [\d], [\s], [\w], [str.lower], [str.strip] and
      [re.IGNORECASE] are modelled on the ASCII range.  A non-ASCII
      character is never a digit nor white space and is left alone by
      [lower]; it counts as a word character unless it is one of the symbols
      of the program's own tables (€ £ ¥ ₹ – − ≥ ≤), every other non-ASCII
      character of those tables being a letter or a superscript digit.
      Python folds the case of letters beyond ASCII as well (Ä to ä, the
      Kelvin sign to k, the long s to S), so [lower] and the
      case-insensitive patterns are Python's on texts whose characters
      beyond ASCII are in lower case or have no case, and [upper] is
      Python's on ASCII letters: the theorems on letter case are stated for
      such texts ([is_ascii], [plain_text], [plain_name]).
    - Python [float] values are exact rationals ([Q], kept reduced); the
      rounding of [float()] to binary64 is outside the model.
    - A Python call that may raise returns a [pyres]; [try]/[except] is a
      match on the raised exception. *)

From stdpp Require Import gmap strings list.
From Stdlib Require Import QArith Qabs Ascii DecimalString.
Close Scope Q_scope.

(** ** Exceptions *)

Inductive exn : Type :=
  | ValueError
  | TypeError
  | IndexError
  | KeyError (key : string)
  | ReadError (msg : string).

Inductive pyres (A : Type) : Type :=
  | Ok (a : A)
  | Raise (e : exn).
Arguments Ok {A} a.
Arguments Raise {A} e.

#[global] Instance pyres_ret : MRet pyres := λ A a, Ok a.

#[global] Instance pyres_bind : MBind pyres := λ A B k m,
  match m with
  | Ok a => k a
  | Raise e => Raise e
  end.

(** The message [str(e)] of a caught exception. *)
Definition exn_message (e : exn) : string :=
  match e with
  | ValueError => "ValueError"
  | TypeError => "TypeError"
  | IndexError => "single positional indexer is out-of-bounds"
  | KeyError key => "'" +:+ key +:+ "'"
  | ReadError msg => msg
  end.

(** ** Characters *)

Module Char.

Definition code (c : ascii) : N := N_of_ascii c.

Definition between (lo hi : N) (c : ascii) : bool :=
  (lo <=? code c)%N && (code c <=? hi)%N.

(** [\d] *)
Definition is_digit (c : ascii) : bool := between 48 57 c.

Definition is_upper (c : ascii) : bool := between 65 90 c.

Definition is_lower (c : ascii) : bool := between 97 122 c.

(** [\s] and the characters removed by [str.strip()]:
    TAB, LF, VT, FF, CR, FS, GS, RS, US and the space. *)
Definition is_space (c : ascii) : bool := between 9 13 c || between 28 32 c.

(** [\w] *)
Definition is_word (c : ascii) : bool :=
  is_digit c || is_upper c || is_lower c || (code c =? 95)%N
  || (128 <=? code c)%N.

Definition lower (c : ascii) : ascii :=
  if is_upper c then ascii_of_N (code c + 32) else c.

Definition upper (c : ascii) : ascii :=
  if is_lower c then ascii_of_N (code c - 32) else c.

Definition digit_value (c : ascii) : Z := Z.of_N (code c) - 48.

End Char.

(** ** Strings: the [str] methods used by the program *)

Definition is_empty (s : string) : bool :=
  match s with
  | EmptyString => true
  | String _ _ => false
  end.

Fixpoint str_all (p : ascii → bool) (s : string) : bool :=
  match s with
  | EmptyString => true
  | String c s' => p c && str_all p s'
  end.

Fixpoint str_filter (p : ascii → bool) (s : string) : string :=
  match s with
  | EmptyString => EmptyString
  | String c s' => if p c then String c (str_filter p s') else str_filter p s'
  end.

Fixpoint str_map (f : ascii → ascii) (s : string) : string :=
  match s with
  | EmptyString => EmptyString
  | String c s' => String (f c) (str_map f s')
  end.

Fixpoint str_drop (n : nat) (s : string) : string :=
  match n, s with
  | O, _ => s
  | S _, EmptyString => EmptyString
  | S n', String _ s' => str_drop n' s'
  end.

Fixpoint str_take (n : nat) (s : string) : string :=
  match n, s with
  | O, _ => EmptyString
  | S _, EmptyString => EmptyString
  | S n', String c s' => String c (str_take n' s')
  end.

(** [s.lower()] and [s.upper()], on ASCII letters *)
Definition lower (s : string) : string := str_map Char.lower s.
Definition upper (s : string) : string := str_map Char.upper s.

(** [s.lstrip()], [s.rstrip()], [s.strip()] *)
Fixpoint lstrip (s : string) : string :=
  match s with
  | EmptyString => EmptyString
  | String c s' => if Char.is_space c then lstrip s' else s
  end.

Fixpoint rstrip (s : string) : string :=
  match s with
  | EmptyString => EmptyString
  | String c s' =>
      let r := rstrip s' in
      if Char.is_space c && is_empty r then EmptyString else String c r
  end.

Definition strip (s : string) : string := rstrip (lstrip s).

(** [s.startswith(p)] *)
Fixpoint startswith (p s : string) : bool :=
  match p, s with
  | EmptyString, _ => true
  | String _ _, EmptyString => false
  | String a p', String b s' => Ascii.eqb a b && startswith p' s'
  end.

(** [p in s] *)
Fixpoint contains (p s : string) : bool :=
  startswith p s ||
  match s with
  | EmptyString => false
  | String _ s' => contains p s'
  end.

(** [c in s] for a single character *)
Fixpoint has_char (c : ascii) (s : string) : bool :=
  match s with
  | EmptyString => false
  | String x s' => Ascii.eqb x c || has_char c s'
  end.

(** [s.replace(c, new)] for a single-character [c] *)
Fixpoint replace_char (c : ascii) (new : string) (s : string) : string :=
  match s with
  | EmptyString => EmptyString
  | String x s' =>
      if Ascii.eqb x c then new +:+ replace_char c new s'
      else String x (replace_char c new s')
  end.

(** [s.split(c)] for a single-character separator: never the empty list *)
Fixpoint split_char (c : ascii) (s : string) : list string :=
  match s with
  | EmptyString => [EmptyString]
  | String x s' =>
      if Ascii.eqb x c then EmptyString :: split_char c s'
      else match split_char c s' with
           | p :: ps => String x p :: ps
           | [] => [String x EmptyString]
           end
  end.

(** [s.rfind(c)]: the index of the last occurrence, [-1] when there is none *)
Fixpoint rfind_from (c : ascii) (i : Z) (last : Z) (s : string) : Z :=
  match s with
  | EmptyString => last
  | String x s' => rfind_from c (i + 1) (if Ascii.eqb x c then i else last) s'
  end.

Definition rfind (c : ascii) (s : string) : Z := rfind_from c 0 (-1) s.

(** [s == t] *)
Definition str_eqb (s t : string) : bool := String.eqb s t.

(** [s in candidates] for a tuple or list of strings *)
Definition str_in (s : string) (candidates : list string) : bool :=
  existsb (str_eqb s) candidates.

(** ** Numbers *)

(** [str(n)] for an [int] *)
Definition int_str (z : Z) : string := NilZero.string_of_int (Z.to_int z).

(** The value of a run of decimal digits. *)
Fixpoint digits_value (acc : Z) (s : string) : Z :=
  match s with
  | EmptyString => acc
  | String c s' => digits_value (10 * acc + Char.digit_value c) s'
  end.

(** [float(s)] on the strings that reach it: digits with at most one dot and
    at least one digit ("12", "12.", ".5", "12.5"); anything else raises
    [ValueError].  The argument is always drawn from the digits and the dot
    (see [float_argument_alphabet] below), so signs, exponents, underscores
    and surrounding white space never occur. *)
Definition decimal_value (int_part frac_part : string) : pyres Q :=
  if str_all Char.is_digit int_part && str_all Char.is_digit frac_part
     && negb (is_empty (int_part +:+ frac_part))
  then Ok (Qred (Qmake (digits_value 0 (int_part +:+ frac_part))
                       (Z.to_pos (10 ^ Z.of_nat (String.length frac_part)))))
  else Raise ValueError.

Definition py_float (s : string) : pyres Q :=
  match split_char "." s with
  | [a] => decimal_value a ""
  | [a; b] => decimal_value a b
  | _ => Raise ValueError
  end.

(** [-abs(result) if is_negative else result] *)
Definition apply_sign (is_negative : bool) (result : Q) : Q :=
  if is_negative then Qopp (Qabs result) else result.

(** ** NumberUnitParser: regular expressions *)

(** [parentheses_negative = ^\s*\(([^)]+)\)\s*$], used with [match]; the
    result is group 1. *)
Fixpoint take_until (c : ascii) (s : string) : string :=
  match s with
  | EmptyString => EmptyString
  | String x s' => if Ascii.eqb x c then EmptyString else String x (take_until c s')
  end.

Definition parentheses_negative (s : string) : option string :=
  match lstrip s with
  | String "(" rest =>
      let inner := take_until ")" rest in
      match str_drop (String.length inner) rest with
      | String ")" tail =>
          if negb (is_empty inner) && str_all Char.is_space tail
          then Some inner else None
      | _ => None
      end
  | _ => None
  end.

(** [re.findall(r"[\d.,']", s)] joined back into one string *)
Definition is_numeric_char (c : ascii) : bool :=
  Char.is_digit c || Ascii.eqb c "." || Ascii.eqb c "," || Ascii.eqb c "'".

Definition numeric_chars (s : string) : string := str_filter is_numeric_char s.

(** ** NumberUnitParser._parse_numeric_string *)

(** The body of the [try] block: the locale decision, then [float]. *)
Definition locale_normalise (num_str : string) (has_comma has_dot : bool) : string :=
  if has_comma && has_dot then
    let last_comma := rfind "," num_str in
    let last_dot := rfind "." num_str in
    if (last_dot <? last_comma)%Z
    then replace_char "," "." (replace_char "." "" num_str)
    else replace_char "," "" num_str
  else if has_comma && negb has_dot then
    let parts := split_char "," num_str in
    if (length parts =? 2) && (String.length (nth 1 parts "") =? 3)
    then replace_char "," "" num_str
    else if (length parts =? 2) && (String.length (nth 1 parts "") <=? 2)
    then replace_char "," "." num_str
    else replace_char "," "" num_str
  else if has_dot && negb has_comma then
    let parts := split_char "." num_str in
    if (length parts =? 2) && (String.length (nth 1 parts "") =? 3)
    then replace_char "." "" num_str
    else num_str
  else num_str.

(** Sign detection: enclosing parentheses, a leading hyphen-minus, or a
    leading U+2212 (three bytes in UTF-8, one code point for [cleaned[1:]]). *)
Definition split_sign (cleaned : string) : bool * string :=
  match parentheses_negative cleaned with
  | Some inner => (true, inner)
  | None =>
      if startswith "-" cleaned then (true, str_drop 1 cleaned)
      else if startswith "−" cleaned then (true, str_drop 3 cleaned)
      else (false, cleaned)
  end.

Definition _parse_numeric_string (text : string) : pyres (option Q) :=
  if is_empty text then Ok None
  else
    let cleaned := strip text in
    let '(is_negative, cleaned) := split_sign cleaned in
    let num_str := numeric_chars cleaned in
    if is_empty num_str then Ok None
    else
      let has_comma := has_char "," num_str in
      let has_dot := has_char "." num_str in
      let has_apostrophe := has_char "'" num_str in
      let num_str := if has_apostrophe then replace_char "'" "" num_str else num_str in
      let has_comma := if has_apostrophe then has_char "," num_str else has_comma in
      let has_dot := if has_apostrophe then has_char "." num_str else has_dot in
      match
        result ← py_float (locale_normalise num_str has_comma has_dot);
        Ok (Some (apply_sign is_negative result))
      with
      | Ok r => Ok r
      | Raise ValueError => Ok None
      | Raise TypeError => Ok None
      | Raise e => Raise e
      end.

(** ** The locale rules as the design document words them

    Written from the description of the numeric-string resolution, to be
    compared with [_parse_numeric_string]: separators are counted, the
    separator occurring last is found by a scan, and "followed by n digits"
    counts the digits that follow the separator.

    The document's dot rule, "a dot followed by exactly 3 digits is
    grouping", does not say how many dots there are.
    [spec_locale_as_written] takes it at its word; [spec_locale] is the
    rule with the proviso the program makes, a single dot. *)

Fixpoint count_char (c : ascii) (s : string) : nat :=
  match s with
  | EmptyString => 0
  | String x s' => (if Ascii.eqb x c then 1 else 0) + count_char c s'
  end.

(** The text after the first occurrence of [c]. *)
Fixpoint after_first (c : ascii) (s : string) : string :=
  match s with
  | EmptyString => EmptyString
  | String x s' => if Ascii.eqb x c then s' else after_first c s'
  end.

Fixpoint before_first (c : ascii) (s : string) : string :=
  match s with
  | EmptyString => EmptyString
  | String x s' => if Ascii.eqb x c then EmptyString else String x (before_first c s')
  end.

(** How many digits follow the first occurrence of [c]. *)
Fixpoint digit_run (s : string) : nat :=
  match s with
  | EmptyString => 0
  | String x s' => if Char.is_digit x then S (digit_run s') else 0
  end.

Definition digits_after (c : ascii) (s : string) : nat := digit_run (after_first c s).

(** Which of comma and dot occurs last. *)
Fixpoint last_separator (s : string) : option ascii :=
  match s with
  | EmptyString => None
  | String x s' =>
      match last_separator s' with
      | Some c => Some c
      | None => if Ascii.eqb x "," || Ascii.eqb x "." then Some x else None
      end
  end.

Definition comma_is_last (s : string) : bool :=
  match last_separator s with
  | Some c => Ascii.eqb c ","
  | None => false
  end.

Definition strip_grouping (c : ascii) (s : string) : string := replace_char c "" s.
Definition as_decimal_point (c : ascii) (s : string) : string := replace_char c "." s.

Definition spec_locale (t : string) : string :=
  let commas := count_char "," t in
  let dots := count_char "." t in
  if (0 <? commas) && (0 <? dots) then
    if comma_is_last t
    then as_decimal_point "," (strip_grouping "." t)
    else strip_grouping "," t
  else if 0 <? commas then
    if (commas =? 1) && (digits_after "," t =? 3) then strip_grouping "," t
    else if (commas =? 1) && (1 <=? digits_after "," t) && (digits_after "," t <=? 2)
    then as_decimal_point "," t
    else strip_grouping "," t
  else if 0 <? dots then
    if (dots =? 1) && (digits_after "." t =? 3) then strip_grouping "." t
    else t
  else t.




Definition spec_numeric_value (text : string) : option Q :=
  if is_empty text then None
  else
    let '(negative, body) := split_sign (strip text) in
    let digits := numeric_chars body in
    if is_empty digits then None
    else
      match py_float (spec_locale (strip_grouping "'" digits)) with
      | Ok q => Some (apply_sign negative q)
      | Raise _ => None
      end.

(** ** Regular-expression search and substitution on literal tokens *)

(** A search result used as a condition: [if pattern.search(s):] *)
Definition found {A : Type} (m : option A) : bool :=
  match m with
  | Some _ => true
  | None => false
  end.

(** The first alternative of [tokens] that matches at the start of [s]. *)
Fixpoint first_match (tokens : list string) (s : string) : option string :=
  match tokens with
  | [] => None
  | t :: ts => if startswith t s then Some t else first_match ts s
  end.

(** [re.search] for an alternation of literals: the leftmost match. *)
Fixpoint search_tokens (tokens : list string) (s : string) : option string :=
  match first_match tokens s with
  | Some t => Some t
  | None =>
      match s with
      | EmptyString => None
      | String _ s' => search_tokens tokens s'
      end
  end.

(** [re.sub(pattern, '', s)] for an alternation of non-empty literals;
    [skip] counts the characters of the current match still to be dropped. *)
Fixpoint sub_tokens_from (tokens : list string) (skip : nat) (s : string) : string :=
  match s with
  | EmptyString => EmptyString
  | String c s' =>
      match skip with
      | S k => sub_tokens_from tokens k s'
      | O =>
          match first_match tokens s with
          | Some t => sub_tokens_from tokens (String.length t - 1) s'
          | None => String c (sub_tokens_from tokens 0 s')
          end
      end
  end.

Definition sub_tokens (tokens : list string) (s : string) : string :=
  sub_tokens_from tokens 0 s.

(** Non-ASCII characters that are not word characters: the symbols that
    occur in the program's own tables.  Every other non-ASCII character is
    taken to be a letter. *)
Definition symbol_chars : list string := ["€"; "£"; "¥"; "₹"; "–"; "−"; "≥"; "≤"].

(** Whether the character starting [s] is a word character ([\w]); [s] starts
    at a character boundary. *)
Definition head_is_word (s : string) : bool :=
  match s with
  | EmptyString => false
  | String c _ => if found (first_match symbol_chars s) then false else Char.is_word c
  end.

(** One byte forward in a scan: [in_symbol] counts the bytes still to come of
    the symbol being crossed.  The result tells whether the byte belongs to a
    word character, and the count for the next byte. *)
Definition step_word (in_symbol : nat) (s : string) : bool * nat :=
  match in_symbol with
  | S k => (false, k)
  | O =>
      match first_match symbol_chars s with
      | Some sym => (false, String.length sym - 1)
      | None => (head_is_word s, 0)
      end
  end.

Fixpoint last_is_word (s : string) : bool :=
  match s with
  | EmptyString => false
  | String c EmptyString => Char.is_word c
  | String _ s' => last_is_word s'
  end.

(** [\bkey\b] at the start of [s] for an ASCII [key], [prev_word] telling
    whether the character before is a word character; [\b] holds where
    exactly one side is a word character.  With [re.IGNORECASE] when [ci],
    on ASCII letters. *)
Definition word_token_at (ci : bool) (prev_word : bool) (key s : string) : bool :=
  xorb prev_word (head_is_word s)
  && (if ci then startswith (lower key) (lower s) else startswith key s)
  && xorb (last_is_word key) (head_is_word (str_drop (String.length key) s)).

Fixpoint first_word_match (ci : bool) (keys : list string) (prev_word : bool)
    (s : string) : option string :=
  match keys with
  | [] => None
  | k :: ks =>
      if word_token_at ci prev_word k s then Some (str_take (String.length k) s)
      else first_word_match ci ks prev_word s
  end.

(** A match can only start at a character boundary. *)
Definition word_match_here (ci : bool) (keys : list string) (in_symbol : nat)
    (prev_word : bool) (s : string) : option string :=
  match in_symbol with
  | O => first_word_match ci keys prev_word s
  | S _ => None
  end.

Fixpoint search_words_from (ci : bool) (keys : list string) (in_symbol : nat)
    (prev_word : bool) (s : string) : option string :=
  match word_match_here ci keys in_symbol prev_word s with
  | Some m => Some m
  | None =>
      match s with
      | EmptyString => None
      | String _ s' =>
          let '(w, k) := step_word in_symbol s in
          search_words_from ci keys k w s'
      end
  end.

(** [re.search(r'\b(k1|k2|...)\b', s)]: group 1 of the leftmost match *)
Definition search_words (ci : bool) (keys : list string) (s : string) : option string :=
  search_words_from ci keys 0 false s.

Fixpoint sub_words_from (ci : bool) (keys : list string) (skip : nat)
    (in_symbol : nat) (prev_word : bool) (s : string) : string :=
  match s with
  | EmptyString => EmptyString
  | String c s' =>
      let '(w, k) := step_word in_symbol s in
      match skip with
      | S n => sub_words_from ci keys n k w s'
      | O =>
          match word_match_here ci keys in_symbol prev_word s with
          | Some m => sub_words_from ci keys (String.length m - 1) k w s'
          | None => String c (sub_words_from ci keys 0 k w s')
          end
      end
  end.

(** [re.sub(r'\b(k1|k2|...)\b', '', s)] *)
Definition sub_words (ci : bool) (keys : list string) (s : string) : string :=
  sub_words_from ci keys 0 0 false s.

(** ** NumberUnitParser: tables and compiled patterns *)

Definition CURRENCY_SYMBOLS : list (string * string) :=
  [("€", "EUR"); ("$", "USD"); ("£", "GBP");
   ("zł", "PLN"); ("kr", "SEK"); ("₹", "INR"); ("¥", "JPY");
   ("元", "CNY")].

Definition AREA_UNITS : list (string * string) :=
  [("m²", "m²"); ("m2", "m²"); ("sqm", "m²"); ("qm", "m²");
   ("sqft", "sqft"); ("sf", "sqft"); ("ft²", "sqft"); ("ft2", "sqft");
   ("square feet", "sqft"); ("square metres", "m²"); ("square meters", "m²")].

Definition APPROX_PREFIXES : list string :=
  ["approx."; "ca."; "~"; "circa"; "ungefähr"; "environ"; "about"; "roughly"].

Definition OPERATORS : list string := [">="; "<="; ">"; "<"; "="; "≥"; "≤"].

(** [d.get(key, default)] on a table kept in insertion order *)
Fixpoint dict_get (key : string) (d : list (string * string)) : option string :=
  match d with
  | [] => None
  | (k, v) :: d' => if str_eqb k key then Some v else dict_get key d'
  end.

(** [currency_symbol_pattern = ([€$£¥₹元])] *)
Definition currency_symbol_class : list string := ["€"; "$"; "£"; "¥"; "₹"; "元"].

(** [currency_code_pattern = \b(EUR|USD|...)\b], case-insensitive *)
Definition currency_codes : list string :=
  ["EUR"; "USD"; "GBP"; "CHF"; "PLN"; "SEK"; "DKK"; "NOK"; "CZK"; "HUF";
   "CAD"; "AUD"; "INR"; "JPY"; "CNY"; "NZD"].

Definition currency_symbol_search (s : string) : option string :=
  search_tokens currency_symbol_class s.

Definition currency_code_search (s : string) : option string :=
  search_words true currency_codes s.

(** [percent_pattern = (\d+(?:[.,]\d+)?)\s*%].  Every quantifier is greedy
    and giving back a digit or a space never helps, so a match at a position
    is decided without backtracking; the result is group 1. *)
Definition percent_match_at (s : string) : option string :=
  let n := digit_run s in
  if n =? 0 then None
  else
    let m :=
      match str_drop n s with
      | String c rest =>
          if (Ascii.eqb c "." || Ascii.eqb c ",") && (0 <? digit_run rest)
          then n + 1 + digit_run rest else n
      | EmptyString => n
      end in
    match lstrip (str_drop m s) with
    | String "%" _ => Some (str_take m s)
    | _ => None
    end.

Fixpoint percent_search (s : string) : option string :=
  match percent_match_at s with
  | Some g => Some g
  | None =>
      match s with
      | EmptyString => None
      | String _ s' => percent_search s'
      end
  end.

(** [area_pattern =
     (m²|m2|sqm|qm|sqft|sf|ft²|ft2|square\s*(?:feet|metres?|meters?))],
    case-insensitive on ASCII letters. *)
Definition area_literals : list string :=
  ["m²"; "m2"; "sqm"; "qm"; "sqft"; "sf"; "ft²"; "ft2"].

Definition area_square_at (s : string) : option nat :=
  if startswith "square" (lower s) then
    let rest := str_drop 6 s in
    let spaces := String.length rest - String.length (lstrip rest) in
    let word := lower (lstrip rest) in
    if startswith "feet" word then Some (6 + spaces + 4)
    else if startswith "metre" word
    then Some (6 + spaces + (if startswith "metres" word then 6 else 5))
    else if startswith "meter" word
    then Some (6 + spaces + (if startswith "meters" word then 6 else 5))
    else None
  else None.

(** The text matched at the start of [s], if any. *)
Definition area_match_at (s : string) : option string :=
  match first_match area_literals (lower s) with
  | Some t => Some (str_take (String.length t) s)
  | None => n ← area_square_at s; Some (str_take n s)
  end.

Fixpoint area_search (s : string) : option string :=
  match area_match_at s with
  | Some g => Some g
  | None =>
      match s with
      | EmptyString => None
      | String _ s' => area_search s'
      end
  end.

Fixpoint area_sub_from (skip : nat) (s : string) : string :=
  match s with
  | EmptyString => EmptyString
  | String c s' =>
      match skip with
      | S k => area_sub_from k s'
      | O =>
          match area_match_at s with
          | Some g => area_sub_from (String.length g - 1) s'
          | None => String c (area_sub_from 0 s')
          end
      end
  end.

Definition area_sub (s : string) : string := area_sub_from 0 s.

(** ** NumberUnitParser *)

Record NumberWithUnit : Type := mkNumberWithUnit {
  value : option Q;
  unit : option string;
  original_text : string
}.

(** A spreadsheet cell as pandas hands it over.  [CText] stands for a [str]
    and for every other object that is neither missing nor a Python [int] or
    [float] (a [bool], a numpy integer, a [Timestamp]), given by its
    [str()]. *)
Inductive cell : Type :=
  | CNull                 (* None or a float NaN *)
  | CNaT                  (* pandas' missing timestamp *)
  | CInt (z : Z)
  | CFloat (q : Q)
  | CText (s : string).

(** [pd.isna] *)
Definition isna (c : cell) : bool :=
  match c with
  | CNull | CNaT => true
  | _ => false
  end.

(** [str(x)] for a [float] in fixed notation: the decimal expansion with at
    least one fractional digit. *)
Definition digit_char (d : Z) : ascii := ascii_of_N (Z.to_N (48 + d)).

Fixpoint frac_digits (fuel : nat) (r den : Z) : string :=
  match fuel with
  | O => EmptyString
  | S fuel' =>
      if (r =? 0)%Z then EmptyString
      else String (digit_char (10 * r / den))
                  (frac_digits fuel' ((10 * r) mod den) den)
  end.

Definition float_str (q : Q) : string :=
  let den := Zpos (Qden q) in
  let a := Z.abs (Qnum q) in
  let frac := frac_digits 20 (a mod den) den in
  (if (Qnum q <? 0)%Z then "-" else "")
  +:+ int_str (a / den) +:+ "." +:+ (if is_empty frac then "0" else frac).

(** [str(value)] *)
Definition cell_str (c : cell) : string :=
  match c with
  | CNull => "nan"
  | CNaT => "NaT"
  | CInt z => int_str z
  | CFloat q => float_str q
  | CText s => s
  end.

(** [_clean_prefixes]: each loop stops at its first hit. *)
Fixpoint strip_first_prefix (ci : bool) (prefixes : list string) (cleaned : string) : string :=
  match prefixes with
  | [] => cleaned
  | p :: ps =>
      if (if ci then startswith (lower p) (lower cleaned) else startswith p cleaned)
      then strip (str_drop (String.length p) cleaned)
      else strip_first_prefix ci ps cleaned
  end.

Definition _clean_prefixes (text : string) : string :=
  let cleaned := strip text in
  let cleaned := strip_first_prefix true APPROX_PREFIXES cleaned in
  strip_first_prefix false OPERATORS cleaned.

Definition _parse_percentage (text : string) : pyres NumberWithUnit :=
  let cleaned := _clean_prefixes text in
  match percent_search cleaned with
  | Some num_str =>
      number ← _parse_numeric_string num_str;
      Ok (mkNumberWithUnit number (Some "%") text)
  | None =>
      number ← _parse_numeric_string (replace_char "%" "" cleaned);
      Ok (mkNumberWithUnit number (Some "%") text)
  end.

Definition _parse_currency (text : string) : pyres NumberWithUnit :=
  let cleaned := _clean_prefixes text in
  let currency : option string := None in
  let '(currency, cleaned) :=
    match currency_symbol_search cleaned with
    | Some symbol =>
        (Some (default symbol (dict_get symbol CURRENCY_SYMBOLS)),
         sub_tokens currency_symbol_class cleaned)
    | None => (currency, cleaned)
    end in
  let '(currency, cleaned) :=
    match currency_code_search cleaned with
    | Some code => (Some (upper code), sub_words true currency_codes cleaned)
    | None => (currency, cleaned)
    end in
  number ← _parse_numeric_string cleaned;
  Ok (mkNumberWithUnit number currency text).

Definition _parse_area (text : string) : pyres NumberWithUnit :=
  let cleaned := _clean_prefixes text in
  let '(unit, cleaned) :=
    match area_search cleaned with
    | Some g =>
        let unit_raw := strip (lower g) in
        (Some (default unit_raw (dict_get unit_raw AREA_UNITS)), area_sub cleaned)
    | None => (None, cleaned)
    end in
  number ← _parse_numeric_string cleaned;
  Ok (mkNumberWithUnit number unit text).

(** [{**time_units, **magnitude_units}] in insertion order *)
Definition other_units : list (string * string) :=
  [("jahre", "Jahre"); ("year", "years"); ("years", "years"); ("yr", "years");
   ("monate", "Monate"); ("month", "months"); ("months", "months"); ("mo", "months");
   ("tage", "Tage"); ("day", "days"); ("days", "days");
   ("wochen", "Wochen"); ("week", "weeks"); ("weeks", "weeks");
   ("mio", "mio"); ("million", "mio"); ("mrd", "mrd"); ("billion", "billion");
   ("tsd", "tsd"); ("thousand", "thousand"); ("k", "k")].

Fixpoint first_unit_found (units : list (string * string)) (text_lower : string)
    : option string :=
  match units with
  | [] => None
  | (key, val) :: units' =>
      if found (search_words false [key] text_lower) then Some val
      else first_unit_found units' text_lower
  end.

Definition _extract_other_unit (text : string) : option string :=
  first_unit_found other_units (lower text).

Definition _parse_with_unit (text : string) (unit : string) : pyres NumberWithUnit :=
  let cleaned := _clean_prefixes text in
  let cleaned := sub_words true [lower unit] cleaned in
  let cleaned := sub_words true [unit] cleaned in
  number ← _parse_numeric_string cleaned;
  Ok (mkNumberWithUnit number (Some unit) text).

Definition null_markers : list string :=
  [""; "-"; "–"; "n/a"; "na"; "null"; "none"; "00:00:00"].

Definition has_currency (cleaned : string) : bool :=
  found (currency_symbol_search cleaned) || found (currency_code_search cleaned).

Definition parse_text (original : string) : pyres NumberWithUnit :=
  if is_empty original || str_in (lower original) null_markers
  then Ok (mkNumberWithUnit None None original)
  else
    let cleaned := _clean_prefixes original in
    if has_char "%" cleaned then _parse_percentage original
    else if has_currency cleaned then _parse_currency original
    else if found (area_search cleaned) then _parse_area original
    else
      match _extract_other_unit cleaned with
      | Some other_unit =>
          if is_empty other_unit
          then number ← _parse_numeric_string cleaned;
               Ok (mkNumberWithUnit number None original)
          else _parse_with_unit original other_unit
      | None =>
          number ← _parse_numeric_string cleaned;
          Ok (mkNumberWithUnit number None original)
      end.

(** [NumberUnitParser.parse]; the context hint is accepted and never read. *)
Definition parse (value : cell) : pyres NumberWithUnit :=
  match value with
  | CNull => Ok (mkNumberWithUnit None None "")
  | CInt z => Ok (mkNumberWithUnit (Some (inject_Z z)) None (cell_str value))
  | CFloat q => Ok (mkNumberWithUnit (Some q) None (cell_str value))
  | CNaT | CText _ => parse_text (strip (cell_str value))
  end.

(** ** HeaderMapper *)

(** [len(s)]: the number of code points, that is of bytes that are not UTF-8
    continuation bytes. *)
Definition py_len (s : string) : nat :=
  String.length (str_filter (λ c, negb (Char.between 128 191 c)) s).

Definition DEFAULT_SYNONYMS : list (string * list string) :=
  [ ("unit_id",
      ["unit id"; "unit-id"; "unit number"; "einheit"; "einheit nr"; "unit no";
       "mieteinheit"; "numéro d'unité"; "numero unità"; "eenheidnummer"]);
    ("tenant_name",
      ["tenant"; "tenant name"; "mieter"; "mietername"; "locataire";
       "nom du locataire"; "inquilino"; "huurder"; "najemca"; "hyresgäst";
       "customer"; "kunde"; "client"]);
    ("area_sqm",
      ["area sqm"; "area (sqm)"; "fläche m²"; "fläche (m²)"; "sqm"; "m²"; "m2";
       "superficie (m²)"; "oppervlakte (m²)"; "powierzchnia (m²)"]);
    ("area_sqft",
      ["area sqft"; "area (sqft)"; "sqft"; "sq ft"; "square feet"; "sf"]);
    ("monthly_rent",
      ["monthly rent"; "rent"; "miete"; "monatliche miete"; "monatsmiete";
       "loyer mensuel"; "affitto mensile"; "maandelijkse huur"; "czynsz miesięczny";
       "nkm"; "nkm ist-miete"; "netto kaltmiete"; "cold rent"]);
    ("annual_rent",
      ["annual rent"; "yearly rent"; "jahresmiete"; "loyer annuel";
       "affitto annuale"; "jaarlijkse huur"; "roczny czynsz"]);
    ("lease_start",
      ["lease start"; "lease start date"; "start date"; "mietbeginn";
       "vertragsbeginn"; "début du bail"; "inizio locazione"; "startdatum"]);
    ("lease_end",
      ["lease end"; "lease end date"; "end date"; "mietende"; "vertragsende";
       "laufzeitende"; "fin du bail"; "fine locazione"; "einddatum"]);
    ("status",
      ["status"; "occupancy"; "belegung"; "état"; "stato"; "bezettingsstatus"]);
    ("currency", ["currency"; "währung"; "devise"; "valuta"; "moneda"]);
    ("lease_type",
      ["lease type"; "vertragsart"; "mietvertragsart"; "type de bail"]);
    ("usage_type", ["usage type"; "nutzungsart"; "type d'utilisation"; "uso"]);
    ("occupancy_rate",
      ["occupancy rate"; "belegungsquote"; "taux d'occupation"]);
    ("service_charge",
      ["service charge"; "nebenkosten"; "betriebskosten"; "nk";
       "charges"; "oneri accessori"; "servicekosten"]);
    ("parking_spaces",
      ["parking"; "parking spaces"; "parkplätze"; "stellplätze";
       "places de parking"; "posti auto"; "parkeerplaatsen"]);
    ("sap_object_number",
      ["sap objektnummer"; "sap-objektnummer"; "sap object number"; "sap object";
       "sap-objektnr"; "sap objektnr"; "sap id"; "sap-object"; "sap objekt id";
       "sap-objekt"]);
    ("composite_unit_id",
      ["mo/bk/wirtschaftseinheit/mo-nr"; "mo/bk/wirtschaftseinheit/mo";
       "mo/bk/wi/mo-nr"; "mo-bk-wirtschaftseinheit-mo-nr";
       "mo / bk / wirtschaftseinheit / mo-nr"; "composite unit id";
       "composite unit"; "mo bk wirtschaftseinheit mo nr"]);
    ("mo_number",
      ["mo nummer"; "mo-nummer"; "mo nr"; "mo-nr"; "mo number"; "mo no";
       "mietobjekt nummer"; "mietobjekt-nr"; "mietobjekt-nr."]);
    ("business_unit",
      ["wirtschaftseinheit"; "business unit"; "wirtschafts einheit";
       "wi einheit"; "we"; "we einheit"]);
    ("business_unit_code",
      ["kürzel der wirtschaftseinheit"; "wirtschaftseinheit kürzel"; "we kürzel";
       "unit code"; "einheitskürzel"; "c"; "we code"]);
    ("bookkeeping_area",
      ["bk"; "buchungskreis"; "booking area"; "buchungsbereich"]);
    ("contractual_partner",
      ["vertragspartner"; "vrtragspartner"; "contractual partner"; "contract partner"]);
    ("contract_id",
      ["contract id"; "stammvertrag-id"; "vertragsnummer"; "vertrags-nr";
       "vertragsnr"; "vertrags nr"; "contract number"; "contract no."; "u"]) ].

(** [re.sub(r'\s+', ' ', h)] *)
Fixpoint collapse_spaces (in_run : bool) (s : string) : string :=
  match s with
  | EmptyString => EmptyString
  | String c s' =>
      if Char.is_space c
      then if in_run then collapse_spaces true s'
           else String " " (collapse_spaces true s')
      else String c (collapse_spaces false s')
  end.

(** [re.sub(r'[^\w\s]', ' ', h)]: every character that is neither a word
    character nor white space becomes one space. *)
Fixpoint punctuation_to_space (in_symbol : nat) (s : string) : string :=
  match s with
  | EmptyString => EmptyString
  | String c s' =>
      match in_symbol with
      | S k => punctuation_to_space k s'
      | O =>
          match first_match symbol_chars s with
          | Some sym => String " " (punctuation_to_space (String.length sym - 1) s')
          | None =>
              String (if Char.is_word c || Char.is_space c then c else " "%char)
                     (punctuation_to_space 0 s')
          end
      end
  end.

(** [normalize_header] on a string (its callers pass [str] values only, for
    which [pd.isna] is false). *)
Definition normalize_header (header : string) : string :=
  let h := strip (lower header) in
  let h := punctuation_to_space 0 h in
  let h := collapse_spaces false h in
  strip h.

Fixpoint match_synonyms (canonical : string) (synonyms : list string)
    (normalized : string) : option string :=
  match synonyms with
  | [] => None
  | syn :: rest =>
      if str_eqb (normalize_header syn) normalized then Some canonical
      else if (3 <? py_len syn) && contains (normalize_header syn) normalized
      then Some canonical
      else match_synonyms canonical rest normalized
  end.

Fixpoint map_normalized (table : list (string * list string)) (normalized : string)
    : option string :=
  match table with
  | [] => None
  | (canonical, synonyms) :: table' =>
      match match_synonyms canonical synonyms normalized with
      | Some tag => Some tag
      | None => map_normalized table' normalized
      end
  end.

(** [HeaderMapper.map_header], [synonyms] being [self.synonyms]. *)
Definition map_header (synonyms : list (string * list string)) (raw_header : string)
    : option string :=
  let normalized := normalize_header raw_header in
  if is_empty normalized then None
  else map_normalized synonyms normalized.

(** The lookup the design document describes: every synonym is tried for an
    exact match before any containment match is considered. *)
Fixpoint exact_tag (table : list (string * list string)) (normalized : string)
    : option string :=
  match table with
  | [] => None
  | (canonical, synonyms) :: table' =>
      if existsb (λ syn, str_eqb (normalize_header syn) normalized) synonyms
      then Some canonical
      else exact_tag table' normalized
  end.


(** The synonyms of a table that [map_header] sends to another tag than the
    one they are listed under. *)
Definition misfiled_synonyms (table : list (string * list string))
    : list (string * string * option string) :=
  flat_map (λ '(tag, synonyms),
    flat_map (λ syn,
      match map_header table syn with
      | Some t => if str_eqb t tag then [] else [(tag, syn, Some t)]
      | None => [(tag, syn, None)]
      end) synonyms) table.

(** ** Records *)

(** The scalars a record holds. *)
Inductive pyval : Type :=
  | VNone
  | VStr (s : string)
  | VInt (z : Z)
  | VFloat (q : Q).

(** A record is a Python [dict] from field names to scalars. *)
Abbreviation record := (gmap string pyval).

(** [record.get(key)]: [None] for a missing key *)
Definition rec_get (key : string) (r : record) : pyval := default VNone (r !! key).

(** Truth value of a scalar: [if x:] *)
Definition truthy (v : pyval) : bool :=
  match v with
  | VNone => false
  | VStr s => negb (is_empty s)
  | VInt z => negb (z =? 0)%Z
  | VFloat q => negb (Qeq_bool q 0)
  end.

Definition opt_float (v : option Q) : pyval :=
  match v with
  | Some q => VFloat q
  | None => VNone
  end.

(** A sheet read with [header=None]: rows of cells. *)
Abbreviation grid := (list (list cell)).

(** [row.iloc[i]] *)
Definition iloc (row : list cell) (i : nat) : pyres cell :=
  match row !! i with
  | Some c => Ok c
  | None => Raise IndexError
  end.

(** [str(cell) if not pd.isna(cell) else ''] *)
Definition cell_text (c : cell) : string := if isna c then "" else cell_str c.

(** ** HeaderDetector *)

(** Truth value of [map_header(h)]. *)
Definition recognised (synonyms : list (string * list string)) (h : string) : bool :=
  match map_header synonyms h with
  | Some tag => negb (is_empty tag)
  | None => false
  end.

Section Detector.
Variable synonyms : list (string * list string).

Fixpoint find_header_loop (row_idx : nat) (rows : grid)
    (best : option nat * nat * list string) : option nat * nat * list string :=
  match rows with
  | [] => best
  | row :: rest =>
      let headers := map cell_text row in
      let score := length (filter (λ h, recognised synonyms h = true) headers) in
      let '(best_row, best_score, best_headers) := best in
      find_header_loop (S row_idx) rest
        (if best_score <? score then (Some row_idx, score, headers) else best)
  end.

(** [find_header_row(df, max_rows=30)] *)
Definition find_header_row (df : grid) : option (nat * list string) :=
  let '(best_row, best_score, best_headers) :=
    find_header_loop 0 (take (Nat.min 30 (length df)) df) (None, 0, []) in
  if 2 <=? best_score
  then match best_row with
       | Some row => Some (row, best_headers)
       | None => None
       end
  else None.

Fixpoint combine_headers (prev_row curr_row : list cell) (i : nat) (n : nat)
    : pyres (list string) :=
  match n with
  | O => Ok []
  | S n' =>
      p ← iloc prev_row i;
      c ← iloc curr_row i;
      let prev_val := cell_text p in
      let curr_val := cell_text c in
      let h :=
        if negb (is_empty prev_val) && negb (is_empty curr_val)
        then prev_val +:+ " " +:+ curr_val
        else if negb (is_empty curr_val) then curr_val else prev_val in
      rest ← combine_headers prev_row curr_row (S i) n';
      Ok (h :: rest)
  end.

(** [df.iloc[i]] *)
Definition df_row (df : grid) (i : nat) : pyres (list cell) :=
  match df !! i with
  | Some row => Ok row
  | None => Raise IndexError
  end.

Definition handle_multi_level_headers (df : grid) (header_row : nat)
    : pyres (list string) :=
  match header_row with
  | O => row ← df_row df 0; Ok (map cell_text row)
  | S prev =>
      prev_row ← df_row df prev;
      curr_row ← df_row df header_row;
      combine_headers prev_row curr_row 0 (length curr_row)
  end.

End Detector.

(** ** DataExtractor *)

Definition SUMMARY_KEYWORDS : list string :=
  ["total"; "totals"; "gesamt"; "summe"; "ergebnis";
   "total général"; "totale"; "totaal"; "razem"; "totalt";
   "grand total"; "subtotal"; "zwischensumme";
   "vacant"; "vacancy"; "leerstand"].

Definition text_fields : list string :=
  ["tenant_name"; "unit_id"; "status"; "usage_type"; "lease_type";
   "contract_id"; "contractual_partner"; "sap_object_number"; "composite_unit_id";
   "mo_number"; "business_unit"; "business_unit_code"; "bookkeeping_area"].

Definition meaningful_fields : list string :=
  ["tenant_name"; "unit_id"; "monthly_rent_value"; "annual_rent_value";
   "area_sqm_value"; "area_sqft_value";
   "contractual_partner"; "contract_id"; "sap_object_number";
   "mo_number"; "bookkeeping_area"].

Definition _is_summary_row (first_cell : string) : bool :=
  let cell_lower := strip (lower first_cell) in
  existsb (λ kw, contains kw cell_lower) SUMMARY_KEYWORDS.

(** [x not in [None, '', 0]] *)
Definition not_blank_value (v : pyval) : bool :=
  match v with
  | VNone => false
  | VStr s => negb (is_empty s)
  | VInt z => negb (z =? 0)%Z
  | VFloat q => negb (Qeq_bool q 0)
  end.

Definition _has_meaningful_data (r : record) : bool :=
  existsb (λ f, not_blank_value (rec_get f r)) meaningful_fields.

(** The body of the column loop of [_process_row] for one mapped column. *)
Definition store_parsed (canonical : string) (parsed : NumberWithUnit) (r : record)
    : record :=
  if match unit parsed with Some u => negb (is_empty u) | None => false end
  then
    <[canonical +:+ "_original" := VStr (original_text parsed)]>
      (<[canonical +:+ "_unit" := VStr (default "" (unit parsed))]>
         (<[canonical +:+ "_value" := opt_float (value parsed)]> r))
  else if str_in canonical text_fields
  then <[canonical := VStr (strip (original_text parsed))]> r
  else
    match value parsed with
    | Some q => <[canonical := VFloat q]> r
    | None =>
        if negb (is_empty (original_text parsed))
        then <[canonical := VStr (original_text parsed)]> r
        else r
    end.

(** The column loop of [_process_row].  The type hint looked up for each
    column is passed to [parse], which never reads it, and is left out. *)
Fixpoint process_columns (row : list cell) (mapped_headers : list (option string))
    (col_idx : nat) (r : record) : pyres record :=
  match mapped_headers with
  | [] => Ok r
  | None :: rest => process_columns row rest (S col_idx) r
  | Some canonical :: rest =>
      if length row <=? col_idx then process_columns row rest (S col_idx) r
      else
        value ← iloc row col_idx;
        parsed ← parse value;
        process_columns row rest (S col_idx) (store_parsed canonical parsed r)
  end.

Definition _process_row (row : list cell) (mapped_headers : list (option string))
    : pyres record :=
  process_columns row mapped_headers 0 ∅.

(** [row.isna().all() or all(str(cell).strip() == '' for cell in row
     if not pd.isna(cell))] *)
Definition is_blank_row (row : list cell) : bool :=
  forallb isna row
  || forallb (λ c, is_empty (strip (cell_str c))) (filter (λ c, isna c = false) row).

Section Extractor.
Variable synonyms : list (string * list string).

(** The row loop of [extract_data]: [break] at a summary row, [continue]
    at a blank one. *)
Fixpoint extract_rows (mapped_headers : list (option string)) (row_idx : nat)
    (rows : grid) (records : list record) : pyres (list record) :=
  match rows with
  | [] => Ok records
  | row :: rest =>
      c0 ← iloc row 0;
      if _is_summary_row (cell_text c0) then Ok records
      else if is_blank_row row
      then extract_rows mapped_headers (S row_idx) rest records
      else
        record ← _process_row row mapped_headers;
        if _has_meaningful_data record
        then extract_rows mapped_headers (S row_idx) rest
               (records ++ [<["_source_row" := VInt (Z.of_nat row_idx + 1)]> record])
        else extract_rows mapped_headers (S row_idx) rest records
  end.

Definition extract_data (df : grid) (header_row : nat) (raw_headers : list string)
    : pyres (list record) :=
  let mapped_headers := map (map_header synonyms) raw_headers in
  extract_rows mapped_headers (S header_row) (drop (S header_row) df) [].

End Extractor.

(** ** Dictionary operations on a record that is updated in place

    [_resolve_tenant_and_unit] and [DataValidator.validate] receive records
    that live in the caller's list.  Their bodies are written over the three
    dictionary operations, threading the record, so that what they write is
    visible in the result. *)

Definition RecM (A : Type) : Type := record → pyres A * record.

#[global] Instance recm_ret : MRet RecM := λ A a r, (Ok a, r).

#[global] Instance recm_bind : MBind RecM := λ A B k m r,
  match m r with
  | (Ok a, r') => k a r'
  | (Raise e, r') => (Raise e, r')
  end.

(** [record.get(key)] *)
Definition dget (key : string) : RecM pyval := λ r, (Ok (rec_get key r), r).

(** [record[key]] *)
Definition dindex (key : string) : RecM pyval := λ r,
  match r !! key with
  | Some v => (Ok v, r)
  | None => (Raise (KeyError key), r)
  end.

(** [record[key] = v] *)
Definition dset (key : string) (v : pyval) : RecM () := λ r, (Ok (), <[key := v]> r).

(** [del record[key]] *)
Definition ddel (key : string) : RecM () := λ r,
  match r !! key with
  | Some _ => (Ok (), delete key r)
  | None => (Raise (KeyError key), r)
  end.

Definition raise {A : Type} (e : exn) : RecM A := λ r, (Raise e, r).

(** [try: body except Exception: pass] *)
Definition try_pass (body : RecM ()) : RecM () := λ r,
  match body r with
  | (Ok _, r') => (Ok (), r')
  | (Raise _, r') => (Ok (), r')
  end.

(** ** Identity resolution *)

(** [re.sub(r'[\s\-]', '', s)] and [re.sub(r'\D', '', s)] *)
Definition drop_separators (s : string) : string :=
  str_filter (λ c, negb (Char.is_space c || Ascii.eqb c "-")) s.

Definition digits_only (s : string) : string := str_filter Char.is_digit s.

Definition trunk_prefixes : list string :=
  ["01"; "02"; "03"; "04"; "05"; "06"; "07"; "08"; "09"].

Definition _is_phone_number (text : string) : bool :=
  if is_empty text then false
  else
    let cleaned := drop_separators text in
    if startswith "+" cleaned then 9 <=? String.length (digits_only cleaned)
    else if existsb (λ p, startswith p cleaned) trunk_prefixes
    then 9 <=? String.length (digits_only cleaned)
    else false.

(** [re.sub(r'\.0+$', '', s)].  [\.0+$] matches a dot, one or more zeros,
    then the end of the string or its final line feed, which stays. *)
Fixpoint drop_zeros (s : string) : string :=
  match s with
  | String "0" s' => drop_zeros s'
  | _ => s
  end.

Definition dot_zeros_at (s : string) : option string :=
  match s with
  | String "." rest =>
      let tail := drop_zeros rest in
      if negb (String.length tail =? String.length rest)
         && (is_empty tail || str_eqb tail (String "010" EmptyString))
      then Some tail else None
  | _ => None
  end.

Fixpoint sub_dot_zeros (s : string) : string :=
  match dot_zeros_at s with
  | Some tail => tail
  | None =>
      match s with
      | EmptyString => EmptyString
      | String c s' => String c (sub_dot_zeros s')
      end
  end.

(** [re.fullmatch(r'\d+', s)] *)
Definition fullmatch_digits (s : string) : bool :=
  str_all Char.is_digit s && negb (is_empty s).

(** [int(float(x))]: truncation towards zero *)
Definition int_of_float (q : Q) : Z := Z.quot (Qnum q) (Zpos (Qden q)).

(** [str(int(float(v)))] for a number, [str(v).strip()] for a string *)
Definition id_text (v : pyval) : string :=
  match v with
  | VInt z => int_str z
  | VFloat q => int_str (int_of_float q)
  | VStr s => strip s
  | VNone => "None"
  end.

(** [v != ''] *)
Definition not_empty_str (v : pyval) : bool :=
  match v with
  | VStr s => negb (is_empty s)
  | _ => true
  end.

Definition is_none (v : pyval) : bool :=
  match v with
  | VNone => true
  | _ => false
  end.

Definition when (b : bool) (m : RecM ()) : RecM () := if b then m else mret ().

(** Tenant resolution: the first two blocks of the loop body. *)
Definition resolve_tenant : RecM () :=
  tenant_value ← dget "tenant_name";
  when (negb (is_none tenant_value) && not_empty_str tenant_value)
    (try_pass (
       let num_str := id_text tenant_value in
       let num_str := sub_dot_zeros num_str in
       when (fullmatch_digits num_str)
         (when (negb (_is_phone_number num_str))
            (dset "tenant_id" (VStr num_str);; ddel "tenant_name"))));;
  name ← dget "tenant_name";
  id ← dget "tenant_id";
  when (negb (truthy name) && negb (truthy id))
    (partner ← dget "contractual_partner";
     when (truthy partner) (dset "tenant_name" partner)).

(** [a or b] *)
Definition py_or (a b : pyval) : pyval := if truthy a then a else b.

Fixpoint join_with (sep : string) (parts : list string) : string :=
  match parts with
  | [] => EmptyString
  | [p] => p
  | p :: rest => p +:+ sep +:+ join_with sep rest
  end.

(** Unit identifier resolution. *)
Definition resolve_unit : RecM () :=
  unit_id ← dget "unit_id";
  when (negb (truthy unit_id))
    (composite ← dget "composite_unit_id";
     if truthy composite then dset "unit_id" composite
     else
       sap_obj ← dget "sap_object_number";
       if truthy sap_obj then dset "unit_id" sap_obj
       else
         contract ← dget "contract_id";
         if truthy contract then dset "unit_id" contract
         else
           bk ← dget "bookkeeping_area";
           bu1 ← dget "business_unit";
           bu2 ← dget "business_unit_code";
           let bu := py_or bu1 bu2 in
           mo ← dget "mo_number";
           let parts := map id_text (filter (λ p, truthy p = true) [bk; bu; mo]) in
           when (negb (bool_decide (parts = [])))
             (dset "unit_id" (VStr (join_with "-" parts)))).

(** Asset identifier resolution. *)
Definition resolve_asset : RecM () :=
  sap ← dget "sap_object_number";
  asset ← dget "asset_id";
  when (truthy sap && negb (truthy asset))
    (v ← dindex "sap_object_number"; dset "asset_id" v).

(** The loop body of [_resolve_tenant_and_unit]. *)
Definition resolve_record : RecM () :=
  resolve_tenant;; resolve_unit;; resolve_asset.

(** [_resolve_tenant_and_unit(records)]: every record is updated in place;
    the loop stops at the first record whose body raises. *)
Fixpoint _resolve_tenant_and_unit (records : list record) : pyres () * list record :=
  match records with
  | [] => (Ok (), [])
  | r :: rest =>
      match resolve_record r with
      | (Ok _, r') =>
          let '(res, rest') := _resolve_tenant_and_unit rest in (res, r' :: rest')
      | (Raise e, r') => (Raise e, r' :: rest)
      end
  end.

(** ** Workbooks *)

(** An opened workbook: its sheets in order, each with the outcome of reading
    it ([pd.read_excel(..., header=None)]).  Reading is repeatable, and a
    read with [nrows=30] returns the first thirty rows of the same grid. *)
Abbreviation workbook := (list (string * pyres grid)).

Definition sheet_names (wb : workbook) : list string := map fst wb.

Fixpoint read_sheet (wb : workbook) (name : string) : pyres grid :=
  match wb with
  | [] => Raise (ReadError ("Worksheet named '" +:+ name +:+ "' not found"))
  | (n, g) :: wb' => if str_eqb n name then g else read_sheet wb' name
  end.

Definition read_sheet_head (wb : workbook) (name : string) : pyres grid :=
  g ← read_sheet wb name; Ok (take 30 g).

(** ** SheetSelector *)

Definition SHEET_KEYWORDS : list string :=
  ["rent roll"; "rentroll"; "rent_roll";
   "mieterliste"; "mieter"; "mieterübersicht";
   "tenancy"; "tenant"; "tenants";
   "état locatif"; "locataire";
   "elenco locatari"; "inquilini";
   "huurderslijst"; "huurders";
   "lista najemców"; "najemcy";
   "hyresgäster"; "hyresförteckning";
   "stacking plan"; "schedule"].

Definition SKIP_KEYWORDS : list string :=
  ["summary"; "total"; "totals"; "zusammenfassung"; "übersicht";
   "notes"; "notizen"; "hinweise"; "instructions"; "anleitung";
   "index"; "inhaltsverzeichnis"; "cover"; "deckblatt";
   "template"; "vorlage"; "example"; "beispiel"].

Definition should_skip_sheet (sheet_name : string) : bool :=
  let name_lower := strip (lower sheet_name) in
  existsb (λ kw, contains kw name_lower) SKIP_KEYWORDS.

Definition is_likely_rent_roll (sheet_name : string) : bool :=
  let name_lower := strip (lower sheet_name) in
  existsb (λ kw, contains kw name_lower) SHEET_KEYWORDS.

Section Reader.
Variable synonyms : list (string * list string).

(** [_count_header_matches]: here a missing cell is stringified as it is. *)
Definition _count_header_matches (df : grid) : nat :=
  length (filter (λ c, recognised synonyms (cell_str c) = true)
            (concat (take (Nat.min 30 (length df)) df))).

Fixpoint select_best_loop (wb : workbook) (names : list string)
    (best_sheet : option string) (best_score : Z) : option string :=
  match names with
  | [] => best_sheet
  | sheet_name :: rest =>
      if should_skip_sheet sheet_name
      then select_best_loop wb rest best_sheet best_score
      else
        let score := if is_likely_rent_roll sheet_name then 10%Z else 0%Z in
        let score :=
          match read_sheet_head wb sheet_name with
          | Ok df => (score + Z.of_nat (_count_header_matches df))%Z
          | Raise _ => score
          end in
        if (best_score <? score)%Z
        then select_best_loop wb rest (Some sheet_name) score
        else select_best_loop wb rest best_sheet best_score
  end.

(** [select_best_sheet]; [sheet_names[0]] raises on a workbook without
    sheets. *)
Definition select_best_sheet (wb : workbook) : pyres string :=
  match sheet_names wb with
  | [only] => Ok only
  | names =>
      match select_best_loop wb names None (-1) with
      | Some best => if negb (is_empty best) then Ok best else
                       match names with first :: _ => Ok first | [] => Raise IndexError end
      | None => match names with first :: _ => Ok first | [] => Raise IndexError end
      end
  end.

Definition has_header_cells (wb : workbook) (sheet_name : string) : bool :=
  match read_sheet_head wb sheet_name with
  | Ok df => 0 <? _count_header_matches df
  | Raise _ => false
  end.

Definition get_all_data_sheets (wb : workbook) : list string :=
  let data_sheets :=
    filter (λ s, should_skip_sheet s = false ∧ has_header_cells wb s = true)
           (sheet_names wb) in
  let data_sheets :=
    match data_sheets with
    | [] => filter (λ s, should_skip_sheet s = false) (sheet_names wb)
    | _ => data_sheets
    end in
  match data_sheets with
  | [] => take 1 (sheet_names wb)
  | _ => data_sheets
  end.

(** ** RentRollExcelReader.read_excel *)

Record ExtractionResult : Type := mkExtractionResult {
  success : bool;
  data : list record;
  message : string;
  warnings : list string;
  sheets_processed : nat;
  total_rows_extracted : nat
}.

(** The [try] body of the sheet loop up to the extracted records; [None]
    stands for the [continue] taken when no header row is found. *)
Definition extract_sheet (wb : workbook) (sheet_name : string)
    : pyres (option (list record)) :=
  df ← read_sheet wb sheet_name;
  match find_header_row synonyms df with
  | None => Ok None
  | Some (header_row, raw_headers) =>
      raw_headers ←
        (if 0 <? header_row
         then handle_multi_level_headers df header_row
         else Ok raw_headers);
      records ← extract_data synonyms df header_row raw_headers;
      Ok (Some records)
  end.

(** The provenance stamps written on each record of a sheet. *)
Definition stamp (file_name sheet_name timestamp : string) (r : record) : record :=
  <["_extraction_timestamp" := VStr timestamp]>
    (<["_source_sheet" := VStr sheet_name]>
       (<["_source_file" := VStr file_name]> r)).

(** The sheet loop.  [clock n] is what the [n]-th call of
    [datetime.now().isoformat()] returns; it is called once per sheet that
    gets as far as stamping, so the count of such sheets indexes it. *)
Fixpoint process_sheets (wb : workbook) (file_name : string) (clock : nat → string)
    (sheets : list string)
    (all_records : list record) (warnings : list string) (sheets_processed : nat)
    : list record * list string * nat :=
  match sheets with
  | [] => (all_records, warnings, sheets_processed)
  | sheet_name :: rest =>
      match extract_sheet wb sheet_name with
      | Ok None =>
          process_sheets wb file_name clock rest all_records
            (warnings ++ ["Sheet '" +:+ sheet_name +:+ "': Could not detect header row"])
            sheets_processed
      | Ok (Some records) =>
          let records := map (stamp file_name sheet_name (clock sheets_processed)) records in
          process_sheets wb file_name clock rest (all_records ++ records)
            warnings (S sheets_processed)
      | Raise e =>
          process_sheets wb file_name clock rest all_records
            (warnings ++ ["Sheet '" +:+ sheet_name +:+ "': Error - " +:+ exn_message e])
            sheets_processed
      end
  end.

(** [read_excel(filepath, process_all_sheets)].  [opened] is the outcome of
    [pd.ExcelFile(filepath)].  The [metadata] dictionary (file path, sheet
    names, detected language) is left out: computing it reads sheets inside
    [try]/[except: pass] and cannot change the fields kept here. *)
Definition sheets_to_process (wb : workbook) (process_all_sheets : bool)
    : pyres (list string) :=
  if process_all_sheets then Ok (get_all_data_sheets wb)
  else best ← select_best_sheet wb;
       Ok (if negb (is_empty best) then [best] else []).

Definition read_excel (opened : pyres workbook) (file_name : string)
    (clock : nat → string) (process_all_sheets : bool) : pyres ExtractionResult :=
  match opened with
  | Raise e =>
      Ok (mkExtractionResult false []
            ("Failed to open Excel file: " +:+ exn_message e) [exn_message e] 0 0)
  | Ok wb =>
      sheets ← sheets_to_process wb process_all_sheets;
      match sheets with
      | [] =>
          Ok (mkExtractionResult false [] "No suitable sheets found in Excel file"
                ["Could not identify any rent roll sheets"] 0 0)
      | _ =>
          let '(all_records, warnings, sheets_processed) :=
            process_sheets wb file_name clock sheets [] [] 0 in
          let '(res, all_records) := _resolve_tenant_and_unit all_records in
          _ ← res;
          Ok (mkExtractionResult
                (0 <? length all_records)
                all_records
                ("Extracted " +:+ int_str (Z.of_nat (length all_records))
                 +:+ " records from " +:+ int_str (Z.of_nat sheets_processed)
                 +:+ " sheet(s)")
                warnings
                sheets_processed
                (length all_records))
      end
  end.

End Reader.

(** ** DataValidator *)

Record ValidationError : Type := mkValidationError {
  severity : string;
  row_index : nat;
  field : string;
  ve_message : string;
  ve_value : pyval
}.

(** [str(v)] inside an f-string *)
Definition pyval_str (v : pyval) : string :=
  match v with
  | VNone => "None"
  | VStr s => s
  | VInt z => int_str z
  | VFloat q => float_str q
  end.

(** [v < 0] and [v > 1e9]; ordering a string or None against a number raises
    [TypeError]. *)
Definition lt_zero (v : pyval) : RecM bool :=
  match v with
  | VInt z => mret (z <? 0)%Z
  | VFloat q => mret (negb (Qle_bool 0 q))
  | _ => raise TypeError
  end.

Definition gt_billion (v : pyval) : RecM bool :=
  match v with
  | VInt z => mret (1000000000 <? z)%Z
  | VFloat q => mret (negb (Qle_bool q (inject_Z 1000000000)))
  | _ => raise TypeError
  end.

Definition magnitude_fields : list string :=
  ["monthly_rent_value"; "annual_rent_value"; "area_sqm_value"; "area_sqft_value"].

Fixpoint check_magnitudes (idx : nat) (fields : list string)
    (errors : list ValidationError) : RecM (list ValidationError) :=
  match fields with
  | [] => mret errors
  | field :: rest =>
      val ← dget field;
      if truthy val then
        big ← gt_billion val;
        check_magnitudes idx rest
          (if big : bool
           then errors ++ [mkValidationError "warning" idx field
                             ("Unusually large value detected: " +:+ pyval_str val) val]
           else errors)
      else check_magnitudes idx rest errors
  end.

(** The loop body of [validate] for the record at index [idx]. *)
Definition validate_record (idx : nat) (errors : list ValidationError)
    : RecM (list ValidationError) :=
  name ← dget "tenant_name";
  tid ← dget "tenant_id";
  uid ← dget "unit_id";
  cid ← dget "contract_id";
  aid ← dget "asset_id";
  let errors :=
    if (negb (truthy name) && negb (truthy tid)) && negb (truthy uid)
       && negb (truthy cid) && negb (truthy aid)
    then errors ++ [mkValidationError "warning" idx "tenant/unit identifiers"
           "Missing tenant and unit identifiers (tenant_name, tenant_id, unit_id, contract_id, asset_id)"
           VNone]
    else errors in
  rent_value ← dget "monthly_rent_value";
  errors ←
    (if negb (is_none rent_value) then
       negative ← lt_zero rent_value;
       mret (if negative : bool
             then errors ++ [mkValidationError "warning" idx "monthly_rent_value"
                               "Negative rent value detected" rent_value]
             else errors)
     else mret errors);
  check_magnitudes idx magnitude_fields errors.

(** [validate(records)]: the findings, or the exception that ended the loop,
    together with the records as the call leaves them. *)
Fixpoint validate_from (idx : nat) (records : list record)
    (errors : list ValidationError) : pyres (list ValidationError) * list record :=
  match records with
  | [] => (Ok errors, [])
  | r :: rest =>
      match validate_record idx errors r with
      | (Ok errors', r') =>
          let '(res, rest') := validate_from (S idx) rest errors' in (res, r' :: rest')
      | (Raise e, r') => (Raise e, r' :: rest)
      end
  end.

Definition validate (records : list record) : pyres (list ValidationError) * list record :=
  validate_from 0 records [].

(** ** Vocabulary of the statements *)

(** What is left of a numeral once the apostrophes are gone. *)
Definition is_plain_char (c : ascii) : bool :=
  Char.is_digit c || Ascii.eqb c "." || Ascii.eqb c ",".

(** [run_parser_tests]: the expected value and unit of each test case. *)
Definition parses_to (text : string) (v : option Q) (u : option string) : bool :=
  match parse (CText text) with
  | Ok r =>
      bool_decide (unit r = u) &&
      match value r, v with
      | Some a, Some b => Qeq_bool a b
      | None, None => true
      | _, _ => false
      end
  | Raise _ => false
  end.

(** ** Texts and word boundaries

    The embedding folds case and classifies characters on the ASCII range.
    On a text whose characters beyond ASCII are the symbols of the parser's
    own tables this is what Python does: none of them has another case,
    none is a digit or white space, and which of them are word characters
    is as [symbol_chars] has it. *)
Definition is_ascii (s : string) : bool :=
  str_all (λ c, (Char.code c <? 128)%N) s.

Definition parser_symbols : list string :=
  ["€"; "£"; "¥"; "₹"; "元"; "²"; "–"; "−"; "≥"; "≤"].

Definition plain_text (s : string) : bool := is_ascii (sub_tokens parser_symbols s).

(** A sheet name made of ASCII characters and the letter ü, the one
    character beyond ASCII in the sheet keywords; [str.lower] leaves it as
    it is. *)
Definition plain_name (s : string) : bool := is_ascii (sub_tokens ["ü"] s).



(** The last character of a string. *)
Fixpoint last_char (s : string) : option ascii :=
  match s with
  | EmptyString => None
  | String c EmptyString => Some c
  | String _ s' => last_char s'
  end.











(** A computation that leaves the record as it found it. *)
Definition read_only {A : Type} (m : RecM A) : Prop := ∀ r, (m r).2 = r.

(** A row whose first cell marks the end of the data. *)
Definition summary_marker (row : list cell) : bool :=
  match row with
  | c0 :: _ => _is_summary_row (cell_text c0)
  | [] => false
  end.

(** The records a data row at index [row_idx] adds: none when it is blank or
    carries no meaningful field, else its record stamped with the 1-indexed
    row. *)
Definition row_contribution (mapped_headers : list (option string)) (row_idx : nat)
    (row : list cell) : list record :=
  if is_blank_row row then []
  else
    match _process_row row mapped_headers with
    | Ok r =>
        if _has_meaningful_data r
        then [<["_source_row" := VInt (Z.of_nat row_idx + 1)]> r]
        else []
    | Raise _ => []
    end.

Fixpoint rows_contribution (mapped_headers : list (option string)) (row_idx : nat)
    (rows : grid) : list record :=
  match rows with
  | [] => []
  | row :: rest =>
      row_contribution mapped_headers row_idx row
      ++ rows_contribution mapped_headers (S row_idx) rest
  end.

Section SheetOutcome.
Variable synonyms : list (string * list string).
Variable wb : workbook.

(** A chosen sheet fails when its header row is not found or when reading
    or extracting it raises. *)
Definition sheet_fails (sheet_name : string) : bool :=
  match extract_sheet synonyms wb sheet_name with
  | Ok (Some _) => false
  | _ => true
  end.

(** The warning a chosen sheet leaves, if any. *)
Definition sheet_warning (sheet_name : string) : option string :=
  match extract_sheet synonyms wb sheet_name with
  | Ok (Some _) => None
  | Ok None =>
      Some ("Sheet '" +:+ sheet_name +:+ "': " +:+ "Could not detect header row")
  | Raise e =>
      Some ("Sheet '" +:+ sheet_name +:+ "': " +:+ "Error - " +:+ exn_message e)
  end.

(** The records extracted from a chosen sheet; none when it fails. *)
Definition sheet_records (sheet_name : string) : list record :=
  match extract_sheet synonyms wb sheet_name with
  | Ok (Some records) => records
  | _ => []
  end.

(** The stamped records of the chosen sheets in order, [n] sheets having
    been stamped before. *)
Fixpoint stamped_records (file_name : string) (clock : nat → string) (n : nat)
    (sheets : list string) : list record :=
  match sheets with
  | [] => []
  | s :: rest =>
      map (stamp file_name s (clock n)) (sheet_records s)
      ++ stamped_records file_name clock (if sheet_fails s then n else S n) rest
  end.

End SheetOutcome.

(** ** Vocabulary of the further properties *)

(** The numerals that [percent_pattern] captures: digits, optionally
    followed by one separator and more digits. *)
Inductive percent_numeral : string → Prop :=
  | percent_whole (d : string) :
      str_all Char.is_digit d = true → d ≠ "" → percent_numeral d
  | percent_fraction (d1 d2 : string) (sep : ascii) :
      str_all Char.is_digit d1 = true → d1 ≠ "" →
      str_all Char.is_digit d2 = true → d2 ≠ "" →
      sep = "."%char ∨ sep = ","%char →
      percent_numeral (d1 +:+ String sep d2).


(** Whether a synonym accounts for a normalised header: it equals it, or it
    is longer than three characters and occurs in it. *)
Definition synonym_hits (syn normalized : string) : bool :=
  str_eqb (normalize_header syn) normalized
  || ((3 <? py_len syn) && contains (normalize_header syn) normalized).

(** How many cells of a row map to a canonical tag. *)
Definition header_score (synonyms : list (string * list string)) (row : list cell) : nat :=
  length (filter (λ h, recognised synonyms h = true) (map cell_text row)).

(** A keyword that [strip] cannot cut into: not empty, no white space at
    either end. *)
Fixpoint last_char_ok (s : string) : bool :=
  match s with
  | EmptyString => false
  | String c EmptyString => negb (Char.is_space c)
  | String _ s' => last_char_ok s'
  end.

Definition solid_keyword (kw : string) : bool :=
  match kw with
  | EmptyString => false
  | String c _ => negb (Char.is_space c) && last_char_ok kw
  end.

(** The header of one column when the row above the header row is merged
    into it. *)
Definition merge_header_cells (prev curr : cell) : string :=
  let prev_val := cell_text prev in
  let curr_val := cell_text curr in
  if negb (is_empty prev_val) && negb (is_empty curr_val)
  then prev_val +:+ " " +:+ curr_val
  else if negb (is_empty curr_val) then curr_val else prev_val.

(** The keys identity resolution may write. *)
Definition identity_keys : list string :=
  ["tenant_name"; "tenant_id"; "unit_id"; "asset_id"].

(** The unit identifier by priority: the first non-empty of the record's own
    [unit_id], [composite_unit_id], [sap_object_number] and [contract_id];
    failing these, the non-empty ones of bookkeeping area, business unit (or
    its code) and MO number joined by hyphens; failing these too, what the
    record had. *)
Definition unit_id_by_priority (r : record) : pyval :=
  match List.find truthy
          [rec_get "unit_id" r; rec_get "composite_unit_id" r;
           rec_get "sap_object_number" r; rec_get "contract_id" r] with
  | Some v => v
  | None =>
      let bu := py_or (rec_get "business_unit" r) (rec_get "business_unit_code" r) in
      match filter (λ p, truthy p = true)
              [rec_get "bookkeeping_area" r; bu; rec_get "mo_number" r] with
      | [] => rec_get "unit_id" r
      | parts => VStr (join_with "-" (map id_text parts))
      end
  end.

(** The unit [parse] finds in a cell, if any. *)
Definition detected_unit (c : cell) : option string :=
  match parse c with
  | Ok p =>
      match unit p with
      | Some u => if is_empty u then None else Some u
      | None => None
      end
  | Raise _ => None
  end.

(** The shape of an entry a mapped column leaves in a record: the column's
    tag with a text or a number, or one of the three keys of a value with a
    unit. *)
Definition column_entry (tag key : string) (v : pyval) : Prop :=
  (key = tag ∧ ((∃ s, v = VStr s) ∨ (∃ q, v = VFloat q)))
  ∨ (key = tag +:+ "_value" ∧ (v = VNone ∨ ∃ q, v = VFloat q))
  ∨ (key = tag +:+ "_unit" ∧ ∃ u, v = VStr u ∧ u ≠ "")
  ∨ (key = tag +:+ "_original" ∧ ∃ s, v = VStr s).

(** The score [select_best_sheet] gives a sheet: ten for a rent-roll
    keyword in its name, plus the recognised header cells among its first
    thirty rows when it can be read. *)
Definition sheet_score (synonyms : list (string * list string)) (wb : workbook)
    (sheet_name : string) : Z :=
  ((if is_likely_rent_roll sheet_name then 10 else 0)
   + match read_sheet_head wb sheet_name with
     | Ok df => Z.of_nat (_count_header_matches synonyms df)
     | Raise _ => 0
     end)%Z.

(** A header in normal form: lower-case words, made of letters, digits and
    underscores, separated by single spaces. *)
Definition word_char (c : ascii) : bool := Char.is_word c && negb (Char.is_upper c).

(** Words and single spaces; [prev_space] says that a space came just
    before.  [loose_spaced] allows a space at the end, [single_spaced] does
    not. *)
Fixpoint loose_spaced (prev_space : bool) (s : string) : bool :=
  match s with
  | EmptyString => true
  | String c s' =>
      if Ascii.eqb c " " then negb prev_space && loose_spaced true s'
      else word_char c && loose_spaced false s'
  end.

Fixpoint single_spaced (prev_space : bool) (s : string) : bool :=
  match s with
  | EmptyString => negb prev_space
  | String c s' =>
      if Ascii.eqb c " " then negb prev_space && single_spaced true s'
      else word_char c && single_spaced false s'
  end.

Definition normal_header (s : string) : bool :=
  is_empty s || single_spaced true s.

(** ** The validator seen from its callers *)

(** Values the validator can order against a number: [rent_value < 0] is
    evaluated for every value but None; [val > 1e9] for every value that
    counts as true. *)
Definition orderable (v : pyval) : bool :=
  match v with
  | VStr _ => false
  | _ => true
  end.

Definition orderable_if_true (v : pyval) : bool :=
  match v with
  | VStr s => is_empty s
  | _ => true
  end.

Definition record_checkable (r : record) : bool :=
  orderable (rec_get "monthly_rent_value" r)
  && forallb (λ f, orderable_if_true (rec_get f r)) magnitude_fields.

(** [validate_data] of the API server, from the records of the request
    on: the findings split by severity and the summary counts. *)
Record ValidationReport : Type := mkValidationReport {
  valid : bool;
  report_errors : list ValidationError;
  report_warnings : list ValidationError;
  total_records : nat;
  error_count : nat;
  warning_count : nat
}.

Definition validate_data (records : list record) : pyres ValidationReport :=
  errors ← (validate records).1;
  let error_list := filter (λ e, severity e = "error") errors in
  let warning_list := filter (λ e, severity e = "warning") errors in
  Ok (mkValidationReport
        (length error_list =? 0)
        error_list
        warning_list
        (length records)
        (length error_list)
        (length warning_list)).

(** A finding about the record at index [idx]. *)
Definition finding_of (idx : nat) (e : ValidationError) : Prop :=
  severity e = "warning" ∧ row_index e = idx.

(** ** The upload filter of the API server *)

(** The text after the last [c] of [s], if [c] occurs. *)
Fixpoint after_last (c : ascii) (s : string) : option string :=
  match s with
  | EmptyString => None
  | String x s' =>
      match after_last c s' with
      | Some t => Some t
      | None => if Ascii.eqb x c then Some s' else None
      end
  end.

(** [s.rsplit(c, 1)[1]] *)
Definition rsplit_last (c : ascii) (s : string) : pyres string :=
  match after_last c s with
  | Some t => Ok t
  | None => Raise IndexError
  end.

(** [allowed_file(filename, allowed_extensions)] *)
Definition allowed_file (filename : string) (allowed_extensions : gset string)
    : pyres bool :=
  if is_empty filename then Ok false
  else if has_char "." filename
  then extension ← rsplit_last "." filename;
       Ok (bool_decide (lower extension ∈ allowed_extensions))
  else Ok false.

(** A record whose magnitude fields the validator can order: each is
    missing, None or a float. *)
Definition magnitudes_orderable (r : record) : Prop :=
  ∀ key, key ∈ magnitude_fields →
    r !! key = None ∨ r !! key = Some VNone ∨ ∃ q, r !! key = Some (VFloat q).

(** ** HeaderMapper.detect_language *)

Definition de_words : list string :=
  ["mieter"; "fläche"; "miete"; "vertrag"; "einheit"; "nutzung"].
Definition fr_words : list string :=
  ["locataire"; "loyer"; "bail"; "surface"; "unité"].
Definition it_words : list string :=
  ["inquilino"; "affitto"; "locazione"; "superficie"].
Definition nl_words : list string :=
  ["huurder"; "huur"; "oppervlakte"; "eenheid"].
Definition pl_words : list string :=
  ["najemca"; "czynsz"; "powierzchnia"; "umowa"].

(** [lang_scores], a dictionary whose insertion order [max] follows. *)
Definition initial_lang_scores : list (string * nat) :=
  [("en", 0); ("de", 0); ("fr", 0); ("it", 0); ("nl", 0); ("pl", 0); ("sv", 0)].

(** [lang_scores[lang] += 1] *)
Definition bump (lang : string) (scores : list (string * nat)) : list (string * nat) :=
  map (λ '(l, v), if str_eqb l lang then (l, S v) else (l, v)) scores.

(** [for word in words: if word in h_lower: lang_scores[lang] += 1] *)
Fixpoint count_words (lang : string) (words : list string) (h_lower : string)
    (scores : list (string * nat)) : list (string * nat) :=
  match words with
  | [] => scores
  | word :: rest =>
      count_words lang rest h_lower
        (if contains word h_lower then bump lang scores else scores)
  end.

Definition score_header (scores : list (string * nat)) (header : string)
    : list (string * nat) :=
  let h_lower := lower header in
  let scores := count_words "de" de_words h_lower scores in
  let scores := count_words "fr" fr_words h_lower scores in
  let scores := count_words "it" it_words h_lower scores in
  let scores := count_words "nl" nl_words h_lower scores in
  count_words "pl" pl_words h_lower scores.

(** [max(lang_scores, key=lang_scores.get)]: the first key with the highest
    score.  The dictionary always holds its seven keys, so [max] never sees
    an empty one. *)
Definition max_key (scores : list (string * nat)) : string :=
  match scores with
  | [] => ""
  | first :: rest =>
      (fold_left (λ best entry, if best.2 <? entry.2 then entry else best) rest first).1
  end.

Definition detect_language (headers : list string) : string :=
  let lang_scores := fold_left score_header headers initial_lang_scores in
  if forallb (λ entry, entry.2 =? 0) lang_scores then "en"
  else max_key lang_scores.

(** How many of the words occur in a lowered header, and in all headers. *)
Definition word_hits (words : list string) (h_lower : string) : nat :=
  length (filter (λ word, contains word h_lower = true) words).

Definition language_hits (words : list string) (headers : list string) : nat :=
  sum_list (map (λ header, word_hits words (lower header)) headers).

(** The scores of the five languages that have keywords, in dictionary
    order. *)
Definition language_table (headers : list string) : list (string * nat) :=
  [("de", language_hits de_words headers); ("fr", language_hits fr_words headers);
   ("it", language_hits it_words headers); ("nl", language_hits nl_words headers);
   ("pl", language_hits pl_words headers)].

(** * Properties *)

(** ** Strings *)

Lemma ascii_eqb_eq (a b : ascii) : Ascii.eqb a b = true ↔ a = b.
Proof. apply Ascii.eqb_eq. Qed.

Lemma ascii_eqb_refl (a : ascii) : Ascii.eqb a a = true.
Proof. by apply Ascii.eqb_eq. Qed.

Lemma is_empty_true (s : string) : is_empty s = true ↔ s = "".
Proof. destruct s; simpl; split; congruence. Qed.

Lemma append_nil (t : string) : "" +:+ t = t.
Proof. reflexivity. Qed.

Lemma append_cons (c : ascii) (s t : string) :
  String c s +:+ t = String c (s +:+ t).
Proof. reflexivity. Qed.

Lemma append_empty_r (s : string) : s +:+ "" = s.
Proof. induction s as [|c s IH]; [done|by rewrite append_cons, IH]. Qed.

Lemma append_assoc (s t u : string) : (s +:+ t) +:+ u = s +:+ (t +:+ u).
Proof. induction s as [|c s IH]; [done|by rewrite !append_cons, IH]. Qed.

Lemma str_all_filter (p : ascii → bool) (s : string) :
  str_all p (str_filter p s) = true.
Proof.
  induction s as [|c s IH]; simpl; [done|].
  destruct (p c) eqn:Hc; simpl; [by rewrite Hc|done].
Qed.

Lemma str_all_impl (p q : ascii → bool) (s : string) :
  (∀ c, p c = true → q c = true) → str_all p s = true → str_all q s = true.
Proof.
  intros Hpq. induction s as [|c s IH]; simpl; [done|].
  intros [Hc Hs]%andb_true_iff. rewrite (Hpq _ Hc). by apply IH.
Qed.

Lemma has_char_count (c : ascii) (s : string) :
  has_char c s = (0 <? count_char c s).
Proof.
  induction s as [|x s IH]; simpl; [done|].
  destruct (Ascii.eqb x c); simpl; [done|apply IH].
Qed.

Lemma split_char_length (c : ascii) (s : string) :
  length (split_char c s) = S (count_char c s).
Proof.
  induction s as [|x s IH]; simpl; [done|].
  destruct (Ascii.eqb x c); simpl; [by rewrite IH|].
  destruct (split_char c s); simpl in *; [done|lia].
Qed.

Lemma split_char_none (c : ascii) (s : string) :
  count_char c s = 0 → split_char c s = [s].
Proof.
  induction s as [|x s IH]; simpl; [done|].
  destruct (Ascii.eqb x c); simpl; [done|].
  intros H. by rewrite (IH H).
Qed.

Lemma split_char_one (c : ascii) (s : string) :
  count_char c s = 1 → split_char c s = [before_first c s; after_first c s].
Proof.
  induction s as [|x s IH]; simpl; [done|].
  destruct (Ascii.eqb x c); simpl.
  - intros H. rewrite split_char_none; [done|lia].
  - intros H. by rewrite (IH H).
Qed.

Lemma first_occurrence (c : ascii) (s : string) :
  has_char c s = true →
  s = before_first c s +:+ String c (after_first c s).
Proof.
  induction s as [|x s IH]; simpl; [done|].
  destruct (Ascii.eqb x c) eqn:Hx; simpl.
  - intros _. by apply Ascii.eqb_eq in Hx as ->.
  - intros H. by rewrite append_cons, <-(IH H).
Qed.

Lemma count_char_after_first (c : ascii) (s : string) :
  count_char c (after_first c s) = Nat.pred (count_char c s).
Proof.
  induction s as [|x s IH]; simpl; [done|].
  destruct (Ascii.eqb x c); simpl; [done|apply IH].
Qed.

Lemma str_all_after_first (p : ascii → bool) (c : ascii) (s : string) :
  str_all p s = true → str_all p (after_first c s) = true.
Proof.
  induction s as [|x s IH]; simpl; [done|].
  intros [Hx Hs]%andb_true_iff. destruct (Ascii.eqb x c); [done|by apply IH].
Qed.

Lemma count_char_before_first (c : ascii) (s : string) :
  count_char c (before_first c s) = 0.
Proof.
  induction s as [|x s IH]; simpl; [done|].
  destruct (Ascii.eqb x c) eqn:Hx; simpl; [done|by rewrite Hx].
Qed.

Lemma count_char_other_before (c d : ascii) (s : string) :
  count_char d s = 0 → count_char d (before_first c s) = 0.
Proof.
  induction s as [|x s IH]; simpl; [done|].
  destruct (Ascii.eqb x c); simpl; [done|].
  destruct (Ascii.eqb x d); simpl; [done|apply IH].
Qed.

Lemma replace_char_absent (c : ascii) (new s : string) :
  count_char c s = 0 → replace_char c new s = s.
Proof.
  induction s as [|x s IH]; simpl; [done|].
  destruct (Ascii.eqb x c); simpl; [done|].
  intros H. by rewrite (IH H).
Qed.

Lemma replace_char_app (c : ascii) (new s t : string) :
  replace_char c new (s +:+ t) = replace_char c new s +:+ replace_char c new t.
Proof.
  induction s as [|x s IH]; [done|].
  rewrite append_cons. simpl.
  destruct (Ascii.eqb x c); rewrite IH; [|done].
  by rewrite append_assoc.
Qed.

Lemma count_char_app (c : ascii) (s t : string) :
  count_char c (s +:+ t) = count_char c s + count_char c t.
Proof.
  induction s as [|x s IH]; [done|].
  rewrite append_cons. simpl. rewrite IH. lia.
Qed.

Lemma count_char_replace_other (c d : ascii) (new : string) (s : string) :
  count_char d new = 0 → c ≠ d →
  count_char d (replace_char c new s) = count_char d s.
Proof.
  intros Hnew Hcd. induction s as [|x s IH]; simpl; [done|].
  destruct (Ascii.eqb x c) eqn:Hx; simpl.
  - apply Ascii.eqb_eq in Hx as ->.
    assert (Ascii.eqb c d = false) as -> by by apply Ascii.eqb_neq.
    rewrite count_char_app, Hnew, IH. done.
  - by rewrite IH.
Qed.

Lemma count_char_replace_self (c : ascii) (new : string) (s : string) :
  count_char c new = 0 → count_char c (replace_char c new s) = 0.
Proof.
  intros Hnew. induction s as [|x s IH]; simpl; [done|].
  destruct (Ascii.eqb x c) eqn:Hx; simpl.
  - by rewrite count_char_app, Hnew, IH.
  - by rewrite Hx, IH.
Qed.

Lemma str_all_replace (p : ascii → bool) (c : ascii) (new s : string) :
  str_all p new = true → str_all p s = true →
  str_all p (replace_char c new s) = true.
Proof.
  intros Hnew. induction s as [|x s IH]; simpl; [done|].
  intros [Hx Hs]%andb_true_iff. destruct (Ascii.eqb x c).
  - specialize (IH Hs). revert IH. generalize (replace_char c new s). intros r Hr.
    clear -Hnew Hr. induction new as [|y new IHn]; [done|].
    rewrite append_cons. simpl in *.
    apply andb_true_iff in Hnew as [-> Hnew]. by apply IHn.
  - simpl. rewrite Hx. by apply IH.
Qed.

(** ** The numeric-string resolution *)

Lemma rfind_from_last_separator (s : string) (i lc ld : Z) :
  (lc < i)%Z → (ld < i)%Z →
  (rfind_from "." i ld s <? rfind_from "," i lc s)%Z =
  match last_separator s with
  | Some c => Ascii.eqb c ","
  | None => (ld <? lc)%Z
  end.
Proof.
  revert i lc ld. induction s as [|x s IH]; intros i lc ld Hlc Hld; simpl; [done|].
  rewrite IH by (repeat case_match; lia).
  destruct (last_separator s) as [c|]; [done|].
  destruct (Ascii.eqb x ",") eqn:Hc.
  - apply Ascii.eqb_eq in Hc as ->. simpl. lia.
  - destruct (Ascii.eqb x ".") eqn:Hd; simpl; [|done].
    rewrite Hc. lia.
Qed.

Lemma rfind_comma_is_last (s : string) :
  (rfind "." s <? rfind "," s)%Z = comma_is_last s.
Proof.
  unfold rfind, comma_is_last. rewrite rfind_from_last_separator by lia.
  by destruct (last_separator s).
Qed.

Lemma digit_run_all (s : string) :
  str_all is_plain_char s = true →
  count_char "," s = 0 → count_char "." s = 0 →
  digit_run s = String.length s.
Proof.
  induction s as [|x s IH]; simpl; [done|].
  intros [Hx Hs]%andb_true_iff. unfold is_plain_char in Hx.
  destruct (Ascii.eqb x ",") eqn:Hc; [done|].
  destruct (Ascii.eqb x ".") eqn:Hd; [done|].
  rewrite !orb_false_r in Hx. rewrite Hx. simpl. intros ??. by rewrite IH.
Qed.

Lemma split_second_length (c : ascii) (s : string) :
  count_char c s = 1 →
  String.length (nth 1 (split_char c s) "") = String.length (after_first c s).
Proof. intros H. by rewrite split_char_one. Qed.

Lemma py_float_trailing_dot (a : string) :
  count_char "." a = 0 → py_float (a +:+ ".") = py_float a.
Proof.
  intros Ha. unfold py_float. rewrite (split_char_none _ a Ha).
  assert (split_char "." (a +:+ ".") = [a; ""]) as ->; [|done].
  induction a as [|x a IH]; [done|].
  rewrite append_cons. simpl in *.
  destruct (Ascii.eqb x "."); [done|]. by rewrite IH.
Qed.

Lemma py_float_only_value_error (s : string) (e : exn) :
  py_float s = Raise e → e = ValueError.
Proof.
  unfold py_float, decimal_value. repeat case_match; congruence.
Qed.

(** The string handed to [float] holds digits and dots only. *)
Lemma float_argument_alphabet (t : string) :
  str_all is_plain_char t = true →
  str_all (λ c, Char.is_digit c || Ascii.eqb c ".")
    (locale_normalise t (has_char "," t) (has_char "." t)) = true.
Proof.
  intros Ht.
  assert (∀ s, str_all is_plain_char s = true → count_char "," s = 0 →
               str_all (λ c, Char.is_digit c || Ascii.eqb c ".") s = true) as Hplain.
  { clear. induction s as [|x s IH]; simpl; [done|].
    intros [Hx Hs]%andb_true_iff. unfold is_plain_char in Hx.
    destruct (Ascii.eqb x ","); [done|]. rewrite orb_false_r in Hx.
    intros H. rewrite Hx. by apply IH. }
  assert (∀ new, str_all is_plain_char new = true → count_char "," new = 0 →
            str_all (λ c, Char.is_digit c || Ascii.eqb c ".")
              (replace_char "," new t) = true) as Hcomma.
  { intros new Hn Hc. apply Hplain.
    - by apply str_all_replace.
    - by apply count_char_replace_self. }
  assert (∀ c, has_char c t = false → count_char c t = 0) as Hnone.
  { intros c. rewrite has_char_count, Nat.ltb_ge. lia. }
  unfold locale_normalise.
  destruct (has_char "," t) eqn:Hc, (has_char "." t) eqn:Hd; simpl.
  - destruct (rfind "." t <? rfind "," t)%Z; [|by apply Hcomma].
    apply Hplain.
    + apply str_all_replace; [done|]. by apply str_all_replace.
    + by apply count_char_replace_self.
  - repeat case_match; by apply Hcomma.
  - repeat case_match.
    + apply Hplain; [by apply str_all_replace|].
      rewrite count_char_replace_other; [by apply Hnone|done|done].
    + apply Hplain; [done|by apply Hnone].
  - apply Hplain; [done|by apply Hnone].
Qed.

(** The program's locale decision and the document's agree on every
    apostrophe-free numeral, up to what [float] reads. *)
Lemma locale_normalise_spec (t : string) :
  str_all is_plain_char t = true →
  py_float (locale_normalise t (has_char "," t) (has_char "." t)) =
  py_float (spec_locale t).
Proof.
  intros Ht. unfold locale_normalise, spec_locale.
  rewrite <-!has_char_count.
  destruct (has_char "," t) eqn:Hc, (has_char "." t) eqn:Hd; simpl.
  - by rewrite rfind_comma_is_last.
  - (* commas only *)
    rewrite split_char_length.
    assert (count_char "." t = 0) as Hdots.
    { rewrite has_char_count, Nat.ltb_ge in Hd. lia. }
    destruct (count_char "," t =? 1) eqn:Hone.
    + apply Nat.eqb_eq in Hone.
      assert ((S (count_char "," t) =? 2) = true) as -> by (apply Nat.eqb_eq; lia).
      simpl. rewrite split_second_length by done.
      unfold digits_after. rewrite digit_run_all; cycle 1.
      { by apply str_all_after_first. }
      { rewrite count_char_after_first. lia. }
      { clear -Hdots. induction t as [|x t IH]; simpl in *; [done|].
        destruct (Ascii.eqb x "."); [done|]. destruct (Ascii.eqb x ","); auto. }
      destruct (String.length (after_first "," t) =? 3); [done|].
      destruct (String.length (after_first "," t)) as [|n] eqn:Hlen; simpl.
      * (* a trailing comma: "12," is read as "12." by the program *)
        assert (after_first "," t = "") as Hafter by by destruct (after_first "," t).
        rewrite (first_occurrence "," t Hc), Hafter.
        unfold as_decimal_point, strip_grouping. rewrite !replace_char_app. simpl.
        rewrite !replace_char_absent by apply count_char_before_first.
        rewrite !append_empty_r. apply py_float_trailing_dot.
        by apply count_char_other_before.
      * destruct (n <=? 1); done.
    + apply Nat.eqb_neq in Hone.
      assert ((S (count_char "," t) =? 2) = false) as -> by (apply Nat.eqb_neq; lia).
      done.
  - (* dots only *)
    rewrite split_char_length.
    assert (count_char "," t = 0) as Hcommas.
    { rewrite has_char_count, Nat.ltb_ge in Hc. lia. }
    destruct (count_char "." t =? 1) eqn:Hone.
    + apply Nat.eqb_eq in Hone.
      assert ((S (count_char "." t) =? 2) = true) as -> by (apply Nat.eqb_eq; lia).
      simpl. rewrite split_second_length by done.
      unfold digits_after. rewrite digit_run_all; [done| | |].
      { by apply str_all_after_first. }
      { clear -Hcommas. induction t as [|x t IH]; simpl in *; [done|].
        destruct (Ascii.eqb x ","); [done|]. destruct (Ascii.eqb x "."); auto. }
      { rewrite count_char_after_first. lia. }
    + apply Nat.eqb_neq in Hone.
      assert ((S (count_char "." t) =? 2) = false) as -> by (apply Nat.eqb_neq; lia).
      done.
  - done.
Qed.

Lemma plain_after_apostrophes (s : string) :
  str_all is_plain_char (replace_char "'" "" (numeric_chars s)) = true.
Proof.
  unfold numeric_chars.
  induction s as [|x s IH]; simpl; [done|].
  destruct (is_numeric_char x) eqn:Hx; [|done]. simpl.
  destruct (Ascii.eqb x "'") eqn:Ha; [done|]. simpl.
  unfold is_numeric_char in Hx. rewrite Ha, orb_false_r in Hx.
  unfold is_plain_char at 1. by rewrite Hx.
Qed.

(** The program computes the document's reading of every text. *)
Lemma parse_numeric_string_refines (text : string) :
  _parse_numeric_string text = Ok (spec_numeric_value text).
Proof.
  unfold _parse_numeric_string, spec_numeric_value.
  destruct (is_empty text); [done|].
  destruct (split_sign (strip text)) as [negative body].
  destruct (is_empty (numeric_chars body)) eqn:Hdigits; [done|].
  set (num_str := numeric_chars body).
  set (t := strip_grouping "'" num_str).
  assert (has_char "'" num_str = false → t = num_str) as Hsame.
  { intros Ha. unfold t, strip_grouping. rewrite replace_char_absent; [done|].
    rewrite has_char_count, Nat.ltb_ge in Ha. lia. }
  assert ((if has_char "'" num_str then replace_char "'" "" num_str else num_str) = t)
    as ->.
  { destruct (has_char "'" num_str); [done|by rewrite Hsame]. }
  assert ((if has_char "'" num_str then has_char "," t else has_char "," num_str)
          = has_char "," t) as ->.
  { destruct (has_char "'" num_str); [done|by rewrite Hsame]. }
  assert ((if has_char "'" num_str then has_char "." t else has_char "." num_str)
          = has_char "." t) as ->.
  { destruct (has_char "'" num_str); [done|by rewrite Hsame]. }
  rewrite locale_normalise_spec by apply plain_after_apostrophes.
  destruct (py_float (spec_locale t)) as [q|e] eqn:Hfloat; simpl; [done|].
  by rewrite (py_float_only_value_error _ _ Hfloat).
Qed.

(** On a numeral made of digits, commas and dots there is no sign and
    nothing to extract: the result is what [float] reads in the normal form
    of the locale rules. *)
Lemma plain_char_facts (c : ascii) :
  is_plain_char c = true →
  Char.is_space c = false ∧ is_numeric_char c = true ∧ Ascii.eqb c "'" = false.
Proof.
  intros Hc. destruct c as [[] [] [] [] [] [] [] []]; by vm_compute in Hc |- *.
Qed.

Lemma strip_plain (t : string) : str_all is_plain_char t = true → strip t = t.
Proof.
  intros Ht. unfold strip.
  assert (lstrip t = t) as ->.
  { destruct t as [|c t]; simpl in *; [done|].
    apply andb_true_iff in Ht as [Hc _].
    by destruct (plain_char_facts c Hc) as (-> & _). }
  induction t as [|c t IH]; simpl in *; [done|].
  apply andb_true_iff in Ht as [Hc Ht].
  destruct (plain_char_facts c Hc) as (-> & _). simpl. by rewrite IH.
Qed.

Lemma parse_plain_numeral (t : string) :
  str_all is_plain_char t = true → t ≠ "" →
  _parse_numeric_string t =
  Ok (match py_float (spec_locale t) with Ok q => Some q | Raise _ => None end).
Proof.
  intros Ht Hne. rewrite parse_numeric_string_refines. unfold spec_numeric_value.
  destruct t as [|c t]; [done|]. simpl is_empty. cbv iota.
  rewrite strip_plain by done.
  assert (split_sign (String c t) = (false, String c t)) as ->.
  { simpl in Ht. apply andb_true_iff in Ht as [Hc _].
    destruct c as [[] [] [] [] [] [] [] []]; try (by vm_compute in Hc); reflexivity. }
  assert (numeric_chars (String c t) = String c t
          ∧ strip_grouping "'" (String c t) = String c t) as [-> ->].
  { clear Hne. unfold numeric_chars, strip_grouping.
    generalize dependent (String c t). clear. intros s Hs.
    induction s as [|x s IH]; simpl in *; [done|].
    apply andb_true_iff in Hs as [Hx Hs].
    destruct (plain_char_facts x Hx) as (_ & -> & ->).
    by destruct (IH Hs) as [-> ->]. }
  simpl. by destruct (py_float _).
Qed.



(** ** Strings and matchers: shared lemmas *)

Lemma first_match_elem (tokens : list string) (s t : string) :
  first_match tokens s = Some t → t ∈ tokens ∧ startswith t s = true.
Proof.
  induction tokens as [|x tokens IH]; simpl; [done|].
  destruct (startswith x s) eqn:Hx.
  - intros [= <-]. split; [left|done].
  - intros H. destruct (IH H). split; [by right|done].
Qed.

(** A case-insensitive match, lowered, is the lowered key. *)
Lemma lower_take_startswith (p s : string) :
  startswith p (lower s) = true → lower (str_take (String.length p) s) = p.
Proof.
  unfold lower.
  revert s. induction p as [|a p IH]; intros [|b s]; simpl; try done.
  intros [Hab Hp]%andb_true_iff. apply Ascii.eqb_eq in Hab as ->.
  f_equal. by apply IH.
Qed.

Lemma length_lower (s : string) : String.length (lower s) = String.length s.
Proof. unfold lower. induction s as [|c s IH]; simpl; [done|]. by rewrite IH. Qed.

Lemma contains_cons (p : string) (c : ascii) (s : string) :
  contains p s = true → contains p (String c s) = true.
Proof. intros H. simpl. rewrite H. apply orb_true_r. Qed.

Lemma contains_app_l (p a s : string) :
  contains p s = true → contains p (a +:+ s) = true.
Proof.
  intros H. induction a as [|c a IH]; [done|].
  rewrite append_cons. by apply contains_cons.
Qed.

Lemma startswith_app (p s : string) : startswith p (p +:+ s) = true.
Proof.
  induction p as [|c p IH]; [done|].
  rewrite append_cons. simpl. by rewrite ascii_eqb_refl.
Qed.

Lemma contains_middle (p a b : string) : contains p (a +:+ p +:+ b) = true.
Proof.
  apply contains_app_l. destruct (p +:+ b) eqn:E; simpl; rewrite <-E;
    by rewrite startswith_app.
Qed.

Lemma lower_app (s t : string) : lower (s +:+ t) = lower s +:+ lower t.
Proof.
  unfold lower. induction s as [|c s IH]; [done|].
  rewrite append_cons. simpl. by rewrite IH.
Qed.

Lemma lower_upper (s : string) : lower (upper s) = lower s.
Proof.
  unfold upper, lower.
  induction s as [|c s IH]; simpl; [done|]. f_equal; [|done].
  by destruct c as [[] [] [] [] [] [] [] []].
Qed.

Lemma length_append (s t : string) :
  String.length (s +:+ t) = String.length s + String.length t.
Proof.
  induction s as [|c s IH]; [done|].
  rewrite append_cons. simpl. by rewrite IH.
Qed.

Lemma last_char_app (s t : string) :
  t ≠ "" → last_char (s +:+ t) = last_char t.
Proof.
  intros Ht. induction s as [|c s IH]; [done|].
  rewrite append_cons. simpl. rewrite IH.
  destruct (s +:+ t) eqn:Hst; [|done].
  apply (f_equal String.length) in Hst. rewrite length_append in Hst.
  destruct t; [done|]. simpl in Hst. lia.
Qed.

Lemma first_match_found (tokens : list string) (t s : string) :
  t ∈ tokens → startswith t s = true → found (first_match tokens s) = true.
Proof.
  induction tokens as [|x tokens IH]; intros Hin Hstart.
  - by apply elem_of_nil in Hin.
  - simpl. destruct (startswith x s) eqn:Hx; [done|].
    apply elem_of_cons in Hin as [->|Hin]; [by rewrite Hstart in Hx|by apply IH].
Qed.

Lemma area_search_app (before s : string) :
  found (area_match_at s) = true → found (area_search (before +:+ s)) = true.
Proof.
  intros Hs. induction before as [|c before IH].
  - rewrite append_nil. destruct s as [|c s]; [by vm_compute in Hs|].
    cbn [area_search]. by destruct (area_match_at (String c s)).
  - rewrite append_cons. cbn [area_search].
    destruct (area_match_at (String c (before +:+ s))); [done|exact IH].
Qed.

Lemma area_literal_units (t : string) :
  t ∈ area_literals →
  lower t = t ∧ strip t = t
  ∧ (dict_get t AREA_UNITS = Some "m²" ∨ dict_get t AREA_UNITS = Some "sqft").
Proof.
  unfold area_literals. intros Hin.
  repeat (apply elem_of_cons in Hin as [->|Hin];
          [split_and!; [done|done|vm_compute; by (left + right)]|]).
  by apply elem_of_nil in Hin.
Qed.

Lemma startswith_take (p s : string) (n : nat) :
  startswith p s = true → String.length p ≤ n → startswith p (str_take n s) = true.
Proof.
  revert s n. induction p as [|a p IH]; intros s n; [by destruct n, s|].
  destruct s as [|b s]; [done|]. simpl.
  intros [Hab Hp]%andb_true_iff Hlen. destruct n as [|n]; [lia|]. simpl.
  rewrite Hab. apply IH; [done|lia].
Qed.

Lemma lower_take (n : nat) (s : string) : lower (str_take n s) = str_take n (lower s).
Proof.
  unfold lower. revert s. induction n as [|n IH]; intros [|c s]; simpl; try done.
  by rewrite IH.
Qed.

Lemma area_match_at_kind (s g : string) :
  area_match_at s = Some g →
  lower g ∈ area_literals ∨ startswith "square" (lower g) = true.
Proof.
  unfold area_match_at.
  destruct (first_match area_literals (lower s)) as [t|] eqn:Ht.
  - intros [= <-]. left. apply first_match_elem in Ht as [Hin Hstart].
    by rewrite (lower_take_startswith t s Hstart).
  - destruct (area_square_at s) as [n|] eqn:Hn; intros Hm; simpl in Hm; [|done].
    injection Hm as <-. right. unfold area_square_at in Hn.
    destruct (startswith "square" (lower s)) eqn:Hsq; [|done].
    rewrite lower_take. apply startswith_take; [done|].
    simpl. repeat case_match; simplify_eq; lia.
Qed.

Lemma area_search_kind (s g : string) :
  area_search s = Some g →
  lower g ∈ area_literals ∨ startswith "square" (lower g) = true.
Proof.
  induction s as [|c s IH].
  - intros Hg. by vm_compute in Hg.
  - cbn [area_search].
    destruct (area_match_at (String c s)) as [m|] eqn:Hm; [|exact IH].
    intros [= <-]. by apply (area_match_at_kind (String c s)).
Qed.

Lemma str_take_drop (n : nat) (s : string) : str_take n s +:+ str_drop n s = s.
Proof.
  revert s. induction n as [|n IH]; intros [|c s]; simpl; try done.
  by rewrite append_cons, IH.
Qed.

Lemma str_take_app_length (s t : string) : str_take (String.length s) (s +:+ t) = s.
Proof. induction s as [|c s IH]; simpl; [by destruct t|]. by rewrite IH. Qed.

Lemma str_take_app_more (s t : string) (k : nat) :
  str_take (String.length s + k) (s +:+ t) = s +:+ str_take k t.
Proof.
  induction s as [|c s IH]; [done|].
  rewrite !append_cons. simpl. by rewrite IH.
Qed.

(** ** The detectors of NumberUnitParser.parse, read off the text *)


































(** ** NumberUnitParser.parse *)

Lemma parse_numeric_string_ok (text : string) :
  ∃ v, _parse_numeric_string text = Ok v.
Proof. eexists. apply parse_numeric_string_refines. Qed.

(** Every sub-parser returns, with the text it was given as [original_text]. *)
Lemma parse_percentage_ok (text : string) :
  ∃ v, _parse_percentage text = Ok (mkNumberWithUnit v (Some "%") text).
Proof.
  unfold _parse_percentage.
  destruct (percent_search _); rewrite parse_numeric_string_refines; by eexists.
Qed.

Lemma parse_currency_ok (text : string) :
  ∃ v u, _parse_currency text = Ok (mkNumberWithUnit v u text).
Proof.
  unfold _parse_currency.
  destruct (currency_symbol_search _); destruct (currency_code_search _);
    rewrite parse_numeric_string_refines; by eexists _, _.
Qed.

Lemma parse_area_ok (text : string) :
  ∃ v u, _parse_area text = Ok (mkNumberWithUnit v u text).
Proof.
  unfold _parse_area.
  destruct (area_search _); rewrite parse_numeric_string_refines; by eexists _, _.
Qed.

Lemma parse_with_unit_ok (text u : string) :
  ∃ v, _parse_with_unit text u = Ok (mkNumberWithUnit v (Some u) text).
Proof.
  unfold _parse_with_unit. rewrite parse_numeric_string_refines. by eexists.
Qed.

Lemma parse_text_ok (original : string) :
  ∃ v u, parse_text original = Ok (mkNumberWithUnit v u original).
Proof.
  unfold parse_text. repeat case_match;
    try (rewrite parse_numeric_string_refines; by eexists _, _).
  - by eexists _, _.
  - destruct (parse_percentage_ok original) as [v ->]. by eexists _, _.
  - apply parse_currency_ok.
  - apply parse_area_ok.
  - destruct (parse_with_unit_ok original s) as [v ->]. by eexists _, _.
Qed.

Lemma parse_ok (c : cell) : ∃ r, parse c = Ok r.
Proof.
  destruct c as [| |z|q|s]; unfold parse.
  - by eexists.
  - destruct (parse_text_ok (strip (cell_str CNaT))) as (v & u & ->). by eexists.
  - by eexists.
  - by eexists.
  - destruct (parse_text_ok (strip (cell_str (CText s)))) as (v & u & ->). by eexists.
Qed.







(** C3. The symbol table maps "zł" to PLN and "kr" to SEK, but the symbol
    pattern [[€$£¥₹元]] cannot match either: parse finds no unit in
    "100 zł" or "100 kr", while "100 €" is parsed as EUR. *)
Theorem currency_symbols_zl_kr_not_detected :
  dict_get "zł" CURRENCY_SYMBOLS = Some "PLN"
  ∧ dict_get "kr" CURRENCY_SYMBOLS = Some "SEK"
  ∧ parse (CText "100 zł") = Ok (mkNumberWithUnit (Some (inject_Z 100)) None "100 zł")
  ∧ parse (CText "100 kr") = Ok (mkNumberWithUnit (Some (inject_Z 100)) None "100 kr")
  ∧ parse (CText "100 €") = Ok (mkNumberWithUnit (Some (inject_Z 100)) (Some "EUR") "100 €").
Proof. vm_compute. done. Qed.

(** C4, as stated, fails: [original_text] is not the source verbatim when
    the source has surrounding white space. *)
Lemma original_text_not_verbatim :
  ¬ (∀ text r, parse (CText text) = Ok r → original_text r = text).
Proof.
  intros H. specialize (H " 12 " (mkNumberWithUnit (Some (inject_Z 12)) None "12")).
  by vm_compute in H; discriminate H.
Qed.

(** C4, amended. For every string input, parse returns and [original_text]
    is the source with leading and trailing white space removed, whatever
    markers, operators or unit tokens the numeric extraction strips; a source
    without surrounding white space is therefore kept verbatim. *)
Theorem original_text_is_stripped_source (text : string) :
  ∃ r, parse (CText text) = Ok r ∧ original_text r = strip text.
Proof.
  unfold parse, cell_str.
  destruct (parse_text_ok (strip text)) as (v & u & ->).
  by eexists.
Qed.

(** ** HeaderMapper.map_header *)

(** C5. The header "Annual Rent" normalises to "annual rent", which is
    exactly a synonym of annual_rent and of no earlier tag; map_header
    returns monthly_rent, because the containment test on the earlier
    synonym "rent" returns before the exact test reaches "annual rent".
    Nineteen synonyms of the default table are lost to an earlier tag in
    this way, among them "wirtschaftseinheit" and "occupancy rate". *)
Theorem map_header_containment_before_exact :
  normalize_header "Annual Rent" = "annual rent"
  ∧ exact_tag DEFAULT_SYNONYMS "annual rent" = Some "annual_rent"
  ∧ map_header DEFAULT_SYNONYMS "Annual Rent" = Some "monthly_rent"
  ∧ map_header DEFAULT_SYNONYMS "Wirtschaftseinheit" = Some "unit_id"
  ∧ map_header DEFAULT_SYNONYMS "Occupancy Rate" = Some "status"
  ∧ length (misfiled_synonyms DEFAULT_SYNONYMS) = 19.
Proof. vm_compute. done. Qed.

(** ** DataExtractor.extract_data *)

Lemma process_columns_ok (row : list cell) (mapped_headers : list (option string))
    (col_idx : nat) (r : record) :
  ∃ r', process_columns row mapped_headers col_idx r = Ok r'.
Proof.
  revert col_idx r.
  induction mapped_headers as [|[canonical|] rest IH]; intros col_idx r; simpl.
  - by eexists.
  - destruct (length row <=? col_idx) eqn:Hlen; [apply IH|].
    apply Nat.leb_gt in Hlen. unfold iloc.
    destruct (lookup_lt_is_Some_2 row col_idx Hlen) as [c ->]. simpl.
    destruct (parse_ok c) as [parsed ->]. simpl. apply IH.
  - apply IH.
Qed.

Lemma process_row_ok (row : list cell) (mapped_headers : list (option string)) :
  ∃ r, _process_row row mapped_headers = Ok r.
Proof. apply process_columns_ok. Qed.

(** One turn of the row loop on a row that is not a marker. *)
Lemma extract_rows_step (mapped_headers : list (option string)) (row_idx : nat)
    (row : list cell) (rest : grid) (records : list record) :
  row ≠ [] → summary_marker row = false →
  extract_rows mapped_headers row_idx (row :: rest) records =
  extract_rows mapped_headers (S row_idx) rest
    (records ++ row_contribution mapped_headers row_idx row).
Proof.
  intros Hne Hsum. destruct row as [|c0 row]; [done|].
  simpl in Hsum. simpl. rewrite Hsum. unfold row_contribution.
  destruct (is_blank_row (c0 :: row)); [by rewrite app_nil_r|].
  destruct (process_row_ok (c0 :: row) mapped_headers) as [r ->]. simpl.
  destruct (_has_meaningful_data r); [done|by rewrite app_nil_r].
Qed.

Lemma extract_rows_marker (mapped_headers : list (option string)) (row_idx : nat)
    (marker : list cell) (rest : grid) (records : list record) :
  summary_marker marker = true →
  extract_rows mapped_headers row_idx (marker :: rest) records = Ok records.
Proof.
  intros Hsum. destruct marker as [|c0 row]; [done|].
  simpl in *. by rewrite Hsum.
Qed.

Lemma extract_rows_before (mapped_headers : list (option string)) (row_idx : nat)
    (before rest : grid) (records : list record) :
  Forall (λ row, row ≠ [] ∧ summary_marker row = false) before →
  extract_rows mapped_headers row_idx (before ++ rest) records =
  extract_rows mapped_headers (row_idx + length before) rest
    (records ++ rows_contribution mapped_headers row_idx before).
Proof.
  intros Hbefore. revert row_idx records.
  induction Hbefore as [|row before [Hne Hsum] _ IH]; intros row_idx records.
  - simpl. by rewrite Nat.add_0_r, app_nil_r.
  - rewrite <-app_comm_cons, extract_rows_step by done.
    rewrite IH. simpl. rewrite app_assoc. f_equal. lia.
Qed.

Lemma rows_contribution_source_row (mapped_headers : list (option string))
    (row_idx : nat) (rows : grid) :
  Forall (λ r : record, ∃ n, r !! "_source_row" = Some (VInt n)
            ∧ (Z.of_nat row_idx < n ≤ Z.of_nat (row_idx + length rows))%Z)
    (rows_contribution mapped_headers row_idx rows).
Proof.
  revert row_idx. induction rows as [|row rows IH]; intros row_idx; simpl; [done|].
  apply Forall_app. split.
  - unfold row_contribution. repeat case_match; try done.
    apply Forall_singleton. eexists. rewrite lookup_insert_eq. split; [done|lia].
  - eapply Forall_impl; [apply IH|]. simpl.
    intros r (n & Hn & Hrange). exists n. split; [done|lia].
Qed.

(** C7. extract_data ends its row loop at the first row after the header
    whose first cell holds a summary keyword: whatever the marker row and
    the rows after it are, the result is what the rows between header and
    marker contribute, each in turn, a blank row contributing nothing
    without ending the loop; every record comes from a row strictly between
    the header and the marker.  Without a marker every row after the header
    is used. *)
Theorem extract_data_stops_at_summary_row
    (synonyms : list (string * list string))
    (top before after : grid) (marker : list cell)
    (header_row : nat) (raw_headers : list string) :
  length top = S header_row →
  Forall (λ row, row ≠ [] ∧ summary_marker row = false) before →
  summary_marker marker = true →
  let mapped_headers := map (map_header synonyms) raw_headers in
  let contribution := rows_contribution mapped_headers (S header_row) before in
  extract_data synonyms (top ++ before ++ marker :: after) header_row raw_headers
    = Ok contribution
  ∧ extract_data synonyms (top ++ before) header_row raw_headers = Ok contribution
  ∧ Forall (λ r : record, ∃ n, r !! "_source_row" = Some (VInt n)
              ∧ (Z.of_nat header_row + 1 < n
                 ≤ Z.of_nat header_row + 1 + Z.of_nat (length before))%Z)
      contribution.
Proof.
  intros Htop Hbefore Hmarker mapped_headers contribution.
  assert (∀ rows : grid, drop (S header_row) (top ++ rows) = rows) as Hdrop.
  { intros rows. by rewrite <-Htop, drop_app_length. }
  unfold extract_data. fold mapped_headers. rewrite !Hdrop. split_and!.
  - rewrite extract_rows_before by done. by rewrite extract_rows_marker.
  - rewrite <-(app_nil_r before) at 1. by rewrite extract_rows_before.
  - eapply Forall_impl; [apply rows_contribution_source_row|]. simpl.
    intros r (n & Hn & Hrange). exists n. split; [done|]. lia.
Qed.

Lemma extract_data_stops_at_summary_row_witness :
  let top : grid := [[CText "Tenant"; CText "Monthly Rent"]] in
  let before : grid :=
    [[CText "Acme"; CText "1.000 €"]; [CNull; CNull]; [CText "Beta"; CText "500 €"]] in
  let marker := [CText "Gesamt"; CText "1.500 €"] in
  let after : grid := [[CText "Ghost"; CText "1 €"]] in
  ∃ recs,
    extract_data DEFAULT_SYNONYMS (top ++ before ++ marker :: after) 0
      ["Tenant"; "Monthly Rent"] = Ok recs
    ∧ map (rec_get "tenant_name") recs = [VStr "Acme"; VStr "Beta"]
    ∧ map (rec_get "_source_row") recs = [VInt 2; VInt 4].
Proof.
  intros top before marker after.
  destruct (extract_data_stops_at_summary_row DEFAULT_SYNONYMS top before after marker
              0 ["Tenant"; "Monthly Rent"]) as (Hrun & _ & _).
  - reflexivity.
  - repeat constructor; discriminate.
  - vm_compute. reflexivity.
  - eexists. split; [exact Hrun|]. vm_compute. done.
Defined.

(** ** Identity resolution *)

Ltac recm_unfold :=
  unfold mbind, recm_bind, mret, recm_ret, when, dget, dset, ddel, dindex,
    try_pass, raise in *.

Lemma resolve_unit_frame (r : record) (key : string) :
  key ≠ "unit_id" →
  (resolve_unit r).1 = Ok () ∧ (resolve_unit r).2 !! key = r !! key.
Proof.
  intros Hkey. unfold resolve_unit. recm_unfold. simpl.
  repeat (case_match; simpl); split; try done; by rewrite lookup_insert_ne.
Qed.

Lemma resolve_asset_frame (r : record) (key : string) :
  key ≠ "asset_id" →
  (resolve_asset r).1 = Ok () ∧ (resolve_asset r).2 !! key = r !! key.
Proof.
  intros Hkey. unfold resolve_asset. recm_unfold. simpl.
  destruct (truthy (rec_get "sap_object_number" r)) eqn:Hsap; simpl; [|done].
  destruct (truthy (rec_get "asset_id" r)); simpl; [done|].
  unfold rec_get in Hsap.
  destruct (r !! "sap_object_number") as [v|]; simpl in *; [|done].
  split; [done|by rewrite lookup_insert_ne].
Qed.

Lemma resolve_tenant_ok (r : record) : (resolve_tenant r).1 = Ok ().
Proof.
  unfold resolve_tenant. recm_unfold. simpl.
  repeat (case_match; simpl in *; simplify_eq); done.
Qed.

Lemma fullmatch_digits_nonempty (s : string) :
  fullmatch_digits s = true → is_empty s = false.
Proof.
  unfold fullmatch_digits. intros [_ H]%andb_true_iff. by apply negb_true_iff.
Qed.

(** A number that counts as false is zero and reads "0". *)
Lemma falsy_name_reads_zero (v : pyval) :
  is_none v = false → not_empty_str v = true → truthy v = false →
  sub_dot_zeros (id_text v) = "0".
Proof.
  destruct v as [|s|z|q]; simpl; try done.
  - intros _ ->. done.
  - intros _ _ Hz. apply negb_false_iff, Z.eqb_eq in Hz as ->. done.
  - intros _ _ Hq. apply negb_false_iff in Hq. unfold Qeq_bool in Hq.
    apply Z.eqb_eq in Hq. simpl in Hq.
    assert (Qnum q = 0%Z) as Hnum by lia.
    unfold int_of_float. rewrite Hnum. done.
Qed.

Lemma resolve_tenant_named (r : record) (v : pyval) :
  r !! "tenant_name" = Some v → is_none v = false → not_empty_str v = true →
  let num := sub_dot_zeros (id_text v) in
  (resolve_tenant r).2 =
    if fullmatch_digits num && negb (_is_phone_number num)
    then delete "tenant_name" (<["tenant_id" := VStr num]> r)
    else r.
Proof.
  intros Hname Hnone Hne num.
  assert (rec_get "tenant_name" r = v) as Hget by (unfold rec_get; by rewrite Hname).
  unfold resolve_tenant. recm_unfold. rewrite Hget, Hnone, Hne. simpl.
  fold num.
  destruct (fullmatch_digits num && negb (_is_phone_number num)) eqn:Hmove.
  - apply andb_true_iff in Hmove as [Hdigits Hphone]. rewrite Hdigits.
    apply negb_true_iff in Hphone. rewrite Hphone. simpl.
    rewrite lookup_insert_ne, Hname by done. simpl.
    unfold rec_get. rewrite lookup_delete_eq. simpl.
    rewrite lookup_delete_ne, lookup_insert_eq by done. simpl.
    by rewrite (fullmatch_digits_nonempty _ Hdigits).
  - assert (truthy v = true) as Htrue.
    { destruct (truthy v) eqn:Htruthy; [done|].
      pose proof (falsy_name_reads_zero v Hnone Hne Htruthy) as Hzero.
      unfold num in Hmove. by rewrite Hzero in Hmove. }
    destruct (fullmatch_digits num); simpl in *.
    + apply negb_false_iff in Hmove. rewrite Hmove. simpl. by rewrite Hget, Htrue.
    + by rewrite Hget, Htrue.
Qed.

Lemma resolve_record_ok (r : record) : (resolve_record r).1 = Ok ().
Proof.
  unfold resolve_record, mbind, recm_bind.
  pose proof (resolve_tenant_ok r) as Ht.
  destruct (resolve_tenant r) as [[[]|e] r1]; simpl in Ht; [|done].
  destruct (resolve_unit_frame r1 "x") as [Hu _]; [done|].
  destruct (resolve_unit r1) as [[[]|e] r2]; simpl in Hu; [|done].
  destruct (resolve_asset_frame r2 "x") as [Ha _]; [done|]. done.
Qed.

Lemma resolve_record_frame (r : record) (key : string) :
  key ≠ "unit_id" → key ≠ "asset_id" →
  (resolve_record r).2 !! key = (resolve_tenant r).2 !! key.
Proof.
  intros Hu Ha. unfold resolve_record, mbind, recm_bind.
  pose proof (resolve_tenant_ok r) as Ht.
  destruct (resolve_tenant r) as [[[]|e] r1]; simpl in *; [|done].
  destruct (resolve_unit_frame r1 key Hu) as [Hu1 Hu2].
  destruct (resolve_unit r1) as [[[]|e] r2]; simpl in *; [|done].
  destruct (resolve_asset_frame r2 key Ha) as [Ha1 Ha2].
  by rewrite Ha2, Hu2.
Qed.

Lemma resolve_all_spec (records : list record) :
  _resolve_tenant_and_unit records = (Ok (), map (λ r, (resolve_record r).2) records).
Proof.
  induction records as [|r rest IH]; simpl; [done|].
  pose proof (resolve_record_ok r) as Hr.
  destruct (resolve_record r) as [[[]|e] r']; simpl in *; [|done].
  by rewrite IH.
Qed.

(** On a string of digits the phone test looks at the trunk prefix and the
    length only. *)
Lemma is_phone_number_digits (s : string) :
  fullmatch_digits s = true →
  _is_phone_number s =
    existsb (λ p, startswith p s) trunk_prefixes && (9 <=? String.length s).
Proof.
  intros [Hd Hne]%andb_true_iff.
  assert (∀ c, Char.is_digit c = true →
            Char.is_space c = false ∧ Ascii.eqb c "-" = false ∧ Ascii.eqb "+" c = false)
    as Hchar.
  { intros c Hc. destruct c as [[] [] [] [] [] [] [] []]; by vm_compute in Hc |- *. }
  assert (drop_separators s = s ∧ digits_only s = s) as (Hsep & Hdig).
  { unfold drop_separators, digits_only. clear Hne.
    induction s as [|c s IH]; simpl in *; [done|].
    apply andb_true_iff in Hd as [Hc Hs]. destruct (IH Hs) as (-> & ->).
    rewrite Hc. by destruct (Hchar c Hc) as (-> & -> & _). }
  assert (startswith "+" s = false) as Hplus.
  { destruct s as [|c s]; simpl in *; [done|].
    apply andb_true_iff in Hd as [Hc _]. by destruct (Hchar c Hc) as (_ & _ & ->). }
  unfold _is_phone_number. rewrite Hsep, Hdig, Hplus.
  apply negb_true_iff in Hne as ->.
  by destruct (existsb _ _).
Qed.

(** C6. In identity resolution a record whose name, after white space and a
    trailing ".0" are stripped (a number is first cut to its integer part),
    is a string of digits and does not look like a phone number gets that
    string as its tenant id and loses its name; any other name, such as the
    phone-shaped "+49 170 1234567", stays the name and the tenant id is left
    alone.  On a string of digits the phone test is: trunk prefix 01 to 09
    and at least nine digits. *)
Theorem numeric_tenant_name_becomes_tenant_id
    (records : list record) (i : nat) (r : record) (name : pyval) :
  records !! i = Some r →
  r !! "tenant_name" = Some name →
  is_none name = false →
  not_empty_str name = true →
  let num := sub_dot_zeros (id_text name) in
  let '(res, resolved) := _resolve_tenant_and_unit records in
  res = Ok () ∧ length resolved = length records ∧
  ∃ r', resolved !! i = Some r' ∧
    (if fullmatch_digits num && negb (_is_phone_number num)
     then r' !! "tenant_id" = Some (VStr num) ∧ r' !! "tenant_name" = None
     else r' !! "tenant_name" = Some name ∧ r' !! "tenant_id" = r !! "tenant_id")
    ∧ (fullmatch_digits num = true →
       _is_phone_number num =
         existsb (λ p, startswith p num) trunk_prefixes && (9 <=? String.length num)).
Proof.
  intros Hi Hname Hnone Hne num. rewrite resolve_all_spec.
  split; [done|]. split; [by rewrite length_map|].
  exists (resolve_record r).2. split; [by rewrite list_lookup_fmap, Hi|].
  split; [|apply is_phone_number_digits].
  rewrite !resolve_record_frame by done.
  rewrite (resolve_tenant_named r name Hname Hnone Hne). fold num.
  destruct (fullmatch_digits num && negb (_is_phone_number num)).
  - by rewrite lookup_delete_ne, lookup_insert_eq, lookup_delete_eq.
  - done.
Qed.

Lemma numeric_tenant_name_becomes_tenant_id_witness :
  let records : list record :=
    [ {[ "tenant_name" := VStr "62210"; "unit_id" := VStr "A1" ]};
      {[ "tenant_name" := VStr "+49 170 1234567" ]};
      {[ "tenant_name" := VStr "62210.0" ]};
      {[ "tenant_name" := VStr "0170 1234567" ]};
      {[ "tenant_name" := VStr "01701234567" ]} ] in
  (_resolve_tenant_and_unit records).2 !! 0
    = Some {[ "tenant_id" := VStr "62210"; "unit_id" := VStr "A1" ]}
  ∧ (_resolve_tenant_and_unit records).2 !! 1
    = Some {[ "tenant_name" := VStr "+49 170 1234567" ]}
  ∧ (_resolve_tenant_and_unit records).2 !! 4
    = Some {[ "tenant_name" := VStr "01701234567" ]}
  ∧ ∃ r', (_resolve_tenant_and_unit records).2 !! 2 = Some r'
          ∧ r' !! "tenant_id" = Some (VStr "62210") ∧ r' !! "tenant_name" = None.
Proof.
  intros records. split; [by vm_compute|]. split; [by vm_compute|].
  split; [by vm_compute|].
  pose proof (numeric_tenant_name_becomes_tenant_id records 2
                {[ "tenant_name" := VStr "62210.0" ]} (VStr "62210.0")
                eq_refl eq_refl eq_refl eq_refl) as H.
  destruct (_resolve_tenant_and_unit records) as [res resolved].
  destruct H as (_ & _ & r' & Hr' & Hcase & _).
  exists r'. split; [exact Hr'|]. exact Hcase.
Defined.

(** ** Reading a record without writing it *)

Lemma read_only_ret {A : Type} (a : A) : read_only (mret a : RecM A).
Proof. done. Qed.

Lemma read_only_raise {A : Type} (e : exn) : read_only (raise e : RecM A).
Proof. done. Qed.

Lemma read_only_dget (key : string) : read_only (dget key).
Proof. done. Qed.

Lemma read_only_bind {A B : Type} (m : RecM A) (k : A → RecM B) :
  read_only m → (∀ a, read_only (k a)) → read_only (m ≫= k).
Proof.
  intros Hm Hk r. unfold mbind, recm_bind.
  specialize (Hm r). destruct (m r) as [[a|e] r']; simpl in *; subst; [apply Hk|done].
Qed.

Lemma read_only_lt_zero (v : pyval) : read_only (lt_zero v).
Proof. destruct v; done. Qed.

Lemma read_only_gt_billion (v : pyval) : read_only (gt_billion v).
Proof. destruct v; done. Qed.

Create HintDb read_only.

#[local] Hint Resolve read_only_ret read_only_raise read_only_dget
  read_only_lt_zero read_only_gt_billion : read_only.

Ltac read_only_step :=
  first
    [ apply read_only_bind; [|intros ?]
    | match goal with |- read_only (if ?b then _ else _) => destruct b end
    | solve [auto with read_only] ].

Lemma read_only_check_magnitudes (idx : nat) (fields : list string)
    (errors : list ValidationError) :
  read_only (check_magnitudes idx fields errors).
Proof.
  revert errors. induction fields as [|f fields IH]; intros errors; simpl.
  - apply read_only_ret.
  - repeat read_only_step; apply IH.
Qed.

Lemma read_only_validate_record (idx : nat) (errors : list ValidationError) :
  read_only (validate_record idx errors).
Proof.
  unfold validate_record.
  repeat read_only_step; apply read_only_check_magnitudes.
Qed.

Lemma validate_from_frame (idx : nat) (records : list record)
    (errors : list ValidationError) :
  (validate_from idx records errors).2 = records.
Proof.
  revert idx errors. induction records as [|r rest IH]; intros idx errors; simpl; [done|].
  pose proof (read_only_validate_record idx errors r) as Hr.
  destruct (validate_record idx errors r) as [[errors'|e] r']; simpl in *; subst.
  - specialize (IH (S idx) errors').
    destruct (validate_from (S idx) rest errors') as [res rest']; simpl in *.
    by subst.
  - done.
Qed.

(** C9. DataValidator.validate leaves every record of its argument as it
    was: after the call, whether it returned findings or stopped on an
    exception, the list holds the same records with the same keys and
    values. *)
Theorem validate_leaves_records_unchanged (records : list record) :
  (validate records).2 = records.
Proof. apply validate_from_frame. Qed.

(** ** RentRollExcelReader.read_excel *)

Lemma process_sheets_spec (synonyms : list (string * list string)) (wb : workbook)
    (file_name : string) (clock : nat → string) (sheets : list string)
    (all_records : list record) (warnings : list string) (n : nat) :
  process_sheets synonyms wb file_name clock sheets all_records warnings n =
  (all_records ++ stamped_records synonyms wb file_name clock n sheets,
   warnings ++ omap (sheet_warning synonyms wb) sheets,
   n + length (filter (λ s, sheet_fails synonyms wb s = false) sheets)).
Proof.
  revert all_records warnings n.
  induction sheets as [|s rest IH]; intros all_records warnings n; simpl.
  - by rewrite !app_nil_r, Nat.add_0_r.
  - assert (sheet_fails synonyms wb s
            = match extract_sheet synonyms wb s with Ok (Some _) => false | _ => true end)
      as Hfails by done.
    unfold sheet_warning, sheet_records. rewrite Hfails.
    destruct (extract_sheet synonyms wb s) as [[records|]|e]; rewrite IH; simpl.
    + rewrite filter_cons_True by done. simpl. f_equal; [f_equal|lia].
      by rewrite app_assoc.
    + rewrite filter_cons_False by (by rewrite Hfails). by rewrite <-app_assoc.
    + rewrite filter_cons_False by (by rewrite Hfails). by rewrite <-app_assoc.
Qed.

Lemma stamped_records_all_fail (synonyms : list (string * list string)) (wb : workbook)
    (file_name : string) (clock : nat → string) (n : nat) (sheets : list string) :
  Forall (λ s, sheet_fails synonyms wb s = true) sheets →
  stamped_records synonyms wb file_name clock n sheets = [].
Proof.
  induction 1 as [|s rest Hs _ IH]; simpl; [done|].
  rewrite Hs, IH. unfold sheet_records. unfold sheet_fails in Hs.
  by destruct (extract_sheet synonyms wb s) as [[?|]|].
Qed.

Lemma select_best_sheet_ok (synonyms : list (string * list string)) (wb : workbook) :
  wb ≠ [] → ∃ best, select_best_sheet synonyms wb = Ok best.
Proof.
  intros Hwb. unfold select_best_sheet.
  destruct wb as [|[n g] wb']; [done|]. simpl.
  repeat case_match; by eexists.
Qed.

Lemma sheets_to_process_ok (synonyms : list (string * list string)) (wb : workbook)
    (process_all_sheets : bool) :
  process_all_sheets = true ∨ wb ≠ [] →
  ∃ sheets, sheets_to_process synonyms wb process_all_sheets = Ok sheets.
Proof.
  intros Hcase. unfold sheets_to_process.
  destruct process_all_sheets; [by eexists|].
  destruct Hcase as [|Hwb]; [done|].
  destruct (select_best_sheet_ok synonyms wb Hwb) as [best ->]. by eexists.
Qed.

(** What read_excel returns for an opened workbook, by the sheets chosen. *)
Lemma read_excel_spec (synonyms : list (string * list string)) (wb : workbook)
    (file_name : string) (clock : nat → string) (process_all_sheets : bool)
    (sheets : list string) :
  sheets_to_process synonyms wb process_all_sheets = Ok sheets →
  ∃ res, read_excel synonyms (Ok wb) file_name clock process_all_sheets = Ok res
    ∧ success res = (0 <? length (data res))
    ∧ (sheets = [] → data res = [])
    ∧ (sheets ≠ [] →
         data res = map (λ r, (resolve_record r).2)
                      (stamped_records synonyms wb file_name clock 0 sheets)
         ∧ warnings res = omap (sheet_warning synonyms wb) sheets
         ∧ sheets_processed res
           = length (filter (λ s, sheet_fails synonyms wb s = false) sheets)).
Proof.
  intros Hsheets. unfold read_excel. rewrite Hsheets. simpl.
  destruct sheets as [|s rest]; [by eexists|].
  rewrite process_sheets_spec, resolve_all_spec. simpl.
  eexists. split; [done|]. simpl. split; [done|]. split; [done|]. by intros _.
Qed.

Lemma stamped_records_length (synonyms : list (string * list string)) (wb : workbook)
    (file_name : string) (clock : nat → string) (n : nat) (sheets : list string) :
  length (stamped_records synonyms wb file_name clock n sheets)
  = sum_list (map (λ s, length (sheet_records synonyms wb s)) sheets).
Proof.
  revert n. induction sheets as [|s rest IH]; intros n; simpl; [done|].
  by rewrite length_app, length_map, IH.
Qed.

(** C8, as stated, fails: in a three-sheet workbook whose second sheet has
    no detectable header row, that sheet can be left out by the sheet
    selection, and then no warning names it. *)
Lemma undetected_sheet_without_warning :
  let good : grid :=
    [[CText "Tenant"; CText "Monthly Rent"]; [CText "Acme"; CText "1.000 €"]] in
  let bare : grid := [[CText "foo"; CText "bar"]; [CText "x"; CText "y"]] in
  let wb : workbook := [("North", Ok good); ("Misc", Ok bare); ("South", Ok good)] in
  find_header_row DEFAULT_SYNONYMS bare = None
  ∧ ∃ res, read_excel DEFAULT_SYNONYMS (Ok wb) "roll.xlsx" (λ _, "t0") true = Ok res
           ∧ length (data res) = 2
           ∧ warnings res = [].
Proof.
  intros good bare wb. split; [by vm_compute|].
  eexists. split; [by vm_compute|]. by vm_compute.
Qed.

(** C8, amended. Among the sheets chosen for processing, failure is
    isolated: a chosen sheet whose header row is not found, or whose reading
    or extraction raises, leaves exactly one warning, which names it, and no
    record; every other chosen sheet leaves no warning and all of its
    records; the result holds the records of the chosen sheets in order and
    the warnings of the failed ones in order.  A sheet that was not chosen
    leaves nothing. *)
Theorem chosen_sheet_failure_is_isolated
    (synonyms : list (string * list string)) (wb : workbook)
    (file_name : string) (clock : nat → string) (process_all_sheets : bool)
    (sheets : list string) :
  sheets_to_process synonyms wb process_all_sheets = Ok sheets →
  sheets ≠ [] →
  ∃ res, read_excel synonyms (Ok wb) file_name clock process_all_sheets = Ok res
    ∧ data res = map (λ r, (resolve_record r).2)
                   (stamped_records synonyms wb file_name clock 0 sheets)
    ∧ length (data res)
      = sum_list (map (λ s, length (sheet_records synonyms wb s)) sheets)
    ∧ warnings res = omap (sheet_warning synonyms wb) sheets
    ∧ (∀ s, sheet_fails synonyms wb s = true →
         sheet_records synonyms wb s = []
         ∧ ∃ reason, sheet_warning synonyms wb s
                     = Some ("Sheet '" +:+ s +:+ "': " +:+ reason))
    ∧ (∀ s, sheet_fails synonyms wb s = false → sheet_warning synonyms wb s = None).
Proof.
  intros Hsheets Hne.
  destruct (read_excel_spec synonyms wb file_name clock process_all_sheets sheets Hsheets)
    as (res & Hres & _ & _ & Hrun).
  destruct (Hrun Hne) as (Hdata & Hwarn & _).
  exists res. split_and!; try done.
  - by rewrite Hdata, length_map, stamped_records_length.
  - intros s. unfold sheet_fails, sheet_records, sheet_warning.
    destruct (extract_sheet synonyms wb s) as [[?|]|e]; [done|..]; intros _;
      (split; [done|by eexists]).
  - intros s. unfold sheet_fails, sheet_warning.
    by destruct (extract_sheet synonyms wb s) as [[?|]|e].
Qed.

Lemma chosen_sheet_failure_is_isolated_witness :
  let good : grid :=
    [[CText "Tenant"; CText "Monthly Rent"]; [CText "Acme"; CText "1.000 €"]] in
  let lone : grid := [[CText "Tenant"; CText "bar"]; [CText "x"; CText "y"]] in
  let wb : workbook := [("North", Ok good); ("Misc", Ok lone); ("South", Ok good)] in
  ∃ res, read_excel DEFAULT_SYNONYMS (Ok wb) "roll.xlsx" (λ _, "t0") true = Ok res
    ∧ length (data res) = 2
    ∧ warnings res = ["Sheet 'Misc': Could not detect header row"].
Proof.
  intros good lone wb.
  destruct (chosen_sheet_failure_is_isolated DEFAULT_SYNONYMS wb "roll.xlsx" (λ _, "t0")
              true ["North"; "Misc"; "South"]) as (res & Hres & _ & Hlen & Hwarn & _).
  - vm_compute. reflexivity.
  - discriminate.
  - exists res. split; [exact Hres|]. split.
    + rewrite Hlen. vm_compute. reflexivity.
    + rewrite Hwarn. vm_compute. reflexivity.
Defined.

(** C10. For a workbook that opens, read_excel returns, and [success] is
    true exactly when at least one record was extracted; when every chosen
    sheet fails, for instance because no header row is detectable, no record
    is extracted and [success] is false. *)
Theorem success_iff_records_extracted
    (synonyms : list (string * list string)) (wb : workbook)
    (file_name : string) (clock : nat → string) (process_all_sheets : bool) :
  process_all_sheets = true ∨ wb ≠ [] →
  ∃ res, read_excel synonyms (Ok wb) file_name clock process_all_sheets = Ok res
    ∧ (success res = true ↔ data res ≠ [])
    ∧ (∀ sheets, sheets_to_process synonyms wb process_all_sheets = Ok sheets →
         Forall (λ s, sheet_fails synonyms wb s = true) sheets →
         data res = [] ∧ success res = false).
Proof.
  intros Hcase.
  destruct (sheets_to_process_ok synonyms wb process_all_sheets Hcase) as [sheets Hsheets].
  destruct (read_excel_spec synonyms wb file_name clock process_all_sheets sheets Hsheets)
    as (res & Hres & Hsuccess & Hnone & Hrun).
  exists res. split; [done|]. split.
  - rewrite Hsuccess. destruct (data res); simpl; [|done].
    split; [done|]. by intros [].
  - intros sheets' Hsheets' Hfail. rewrite Hsheets in Hsheets'. injection Hsheets' as <-.
    assert (data res = []) as Hdata.
    { destruct sheets as [|s rest]; [by apply Hnone|].
      destruct Hrun as (-> & _); [done|].
      by rewrite stamped_records_all_fail. }
    by rewrite Hsuccess, Hdata.
Qed.

Lemma success_iff_records_extracted_witness :
  let bare : grid := [[CText "foo"; CText "bar"]; [CText "x"; CText "y"]] in
  let wb : workbook := [("Sheet1", Ok bare)] in
  ∃ res, read_excel DEFAULT_SYNONYMS (Ok wb) "roll.xlsx" (λ _, "t0") true = Ok res
    ∧ data res = [] ∧ success res = false
    ∧ warnings res = ["Sheet 'Sheet1': Could not detect header row"].
Proof.
  intros bare wb.
  destruct (success_iff_records_extracted DEFAULT_SYNONYMS wb "roll.xlsx" (λ _, "t0") true)
    as (res & Hres & _ & Hfail).
  - left. reflexivity.
  - exists res. split; [exact Hres|].
    destruct (Hfail ["Sheet1"]) as [Hdata Hsuccess].
    + vm_compute. reflexivity.
    + repeat constructor.
    + split; [exact Hdata|]. split; [exact Hsuccess|].
      vm_compute in Hres. by injection Hres as <-.
Defined.

(** * Further properties of the program *)

(** ** NumberUnitParser: signs *)

Lemma digit_value_range (c : ascii) :
  Char.is_digit c = true → (0 ≤ Char.digit_value c ≤ 9)%Z.
Proof.
  intros Hc. destruct c as [[] [] [] [] [] [] [] []]; by vm_compute in Hc |- *.
Qed.

Lemma digits_value_nonneg (s : string) (acc : Z) :
  str_all Char.is_digit s = true → (0 ≤ acc)%Z → (0 ≤ digits_value acc s)%Z.
Proof.
  revert acc. induction s as [|c s IH]; intros acc Hs Hacc; simpl in *; [done|].
  apply andb_true_iff in Hs as [Hc Hs]. apply IH; [done|].
  pose proof (digit_value_range c Hc). lia.
Qed.

Lemma str_all_app (p : ascii → bool) (s t : string) :
  str_all p (s +:+ t) = str_all p s && str_all p t.
Proof.
  induction s as [|c s IH]; [done|].
  rewrite append_cons. simpl. by rewrite IH, andb_assoc.
Qed.

Lemma decimal_value_nonneg (a b : string) (q : Q) :
  decimal_value a b = Ok q → (0 <= q)%Q.
Proof.
  unfold decimal_value.
  destruct (str_all Char.is_digit a) eqn:Ha; [|done].
  destruct (str_all Char.is_digit b) eqn:Hb; [|done]. simpl.
  destruct (negb _); [|done]. intros [= <-].
  rewrite Qred_correct. unfold Qle. simpl.
  assert (0 ≤ digits_value 0 (a +:+ b))%Z; [|lia].
  apply digits_value_nonneg; [|done]. by rewrite str_all_app, Ha, Hb.
Qed.

Lemma py_float_nonneg (s : string) (q : Q) : py_float s = Ok q → (0 <= q)%Q.
Proof.
  unfold py_float. repeat case_match; try done; apply decimal_value_nonneg.
Qed.

Lemma apply_sign_sign (negative : bool) (q : Q) :
  (0 <= q)%Q →
  if negative then (apply_sign negative q <= 0)%Q else (0 <= apply_sign negative q)%Q.
Proof.
  intros Hq. destruct negative; simpl; [|done].
  apply (Qopp_le_compat 0). apply Qabs_nonneg.
Qed.

(** X1. The sign of a parsed number is decided by its first character alone:
    a text in parentheses or starting with a minus sign never parses to a
    positive number, and any other text never parses to a negative one,
    whatever minus signs occur further in. *)
Theorem parse_numeric_string_sign (text : string) (q : Q) :
  _parse_numeric_string text = Ok (Some q) →
  if (split_sign (strip text)).1 then (q <= 0)%Q else (0 <= q)%Q.
Proof.
  rewrite parse_numeric_string_refines. unfold spec_numeric_value.
  destruct (is_empty text); [done|].
  destruct (split_sign (strip text)) as [negative body]. simpl.
  destruct (is_empty (numeric_chars body)); [done|].
  destruct (py_float _) as [q'|] eqn:Hfloat; [|done].
  intros [= <-]. apply apply_sign_sign. by eapply py_float_nonneg.
Qed.

Lemma parse_numeric_string_sign_witness :
  _parse_numeric_string "(-1.234,50)" = Ok (Some (Qmake (-2469) 2))
  ∧ (Qmake (-2469) 2 <= 0)%Q
  ∧ _parse_numeric_string "12-5" = Ok (Some (inject_Z 125))
  ∧ (0 <= inject_Z 125)%Q.
Proof.
  split; [by vm_compute|]. split.
  - apply (parse_numeric_string_sign "(-1.234,50)"). by vm_compute.
  - split; [by vm_compute|].
    apply (parse_numeric_string_sign "12-5"). by vm_compute.
Defined.

(** ** NumberUnitParser: percentages *)

Lemma digit_run_take (s : string) :
  str_all Char.is_digit (str_take (digit_run s) s) = true
  ∧ String.length (str_take (digit_run s) s) = digit_run s.
Proof.
  induction s as [|c s [IH1 IH2]]; simpl; [done|].
  destruct (Char.is_digit c) eqn:Hc; simpl; [|done].
  by rewrite Hc, IH1, IH2.
Qed.

Lemma percent_match_at_numeral (s g : string) :
  percent_match_at s = Some g → percent_numeral g.
Proof.
  unfold percent_match_at.
  destruct (digit_run s =? 0) eqn:Hn; [done|]. apply Nat.eqb_neq in Hn.
  destruct (digit_run_take s) as [Hd Hlen].
  set (d1 := str_take (digit_run s) s) in *.
  assert (d1 ≠ "") as Hd1 by (intros E; rewrite E in Hlen; simpl in Hlen; lia).
  assert (s = d1 +:+ str_drop (digit_run s) s) as Hs
    by (unfold d1; by rewrite str_take_drop).
  destruct (str_drop (digit_run s) s) as [|c rest] eqn:Hrest.
  - destruct (lstrip _) as [|x ?]; [done|].
    destruct (Ascii.eqb x "%") eqn:Hx; [|by destruct x as [[] [] [] [] [] [] [] []]].
    destruct x as [[] [] [] [] [] [] [] []]; try done. intros [= <-].
    by constructor.
  - destruct ((Ascii.eqb c "." || Ascii.eqb c ",") && (0 <? digit_run rest)) eqn:Hsep.
    + apply andb_true_iff in Hsep as [Hc Hk]. apply Nat.ltb_lt in Hk.
      destruct (lstrip _) as [|x ?]; [done|].
      destruct x as [[] [] [] [] [] [] [] []]; try done. intros [= <-].
      rewrite Hs at 2. rewrite <-Hlen at 1.
      rewrite <-Nat.add_assoc, str_take_app_more. simpl.
      destruct (digit_run_take rest) as [Hd2 Hlen2].
      apply percent_fraction; try done.
      * intros E. rewrite E in Hlen2. simpl in Hlen2. lia.
      * apply orb_true_iff in Hc as [Hc|Hc]; apply Ascii.eqb_eq in Hc; auto.
    + destruct (lstrip _) as [|x ?]; [done|].
      destruct x as [[] [] [] [] [] [] [] []]; try done. intros [= <-].
      by constructor.
Qed.

Lemma percent_search_numeral (s g : string) :
  percent_search s = Some g → percent_numeral g.
Proof.
  induction s as [|c s IH]; simpl.
  - by destruct (percent_match_at "") eqn:H.
  - destruct (percent_match_at (String c s)) as [g'|] eqn:H; [|done].
    intros [= <-]. by eapply percent_match_at_numeral.
Qed.

Lemma count_char_digits (c : ascii) (d : string) :
  Char.is_digit c = false → str_all Char.is_digit d = true → count_char c d = 0.
Proof.
  intros Hc. induction d as [|x d IH]; simpl; [done|].
  intros [Hx Hd]%andb_true_iff.
  destruct (Ascii.eqb x c) eqn:E; [|by apply IH].
  apply Ascii.eqb_eq in E as ->. congruence.
Qed.

Lemma digits_are_plain (d : string) :
  str_all Char.is_digit d = true → str_all is_plain_char d = true.
Proof.
  apply str_all_impl. intros c Hc. unfold is_plain_char. by rewrite Hc.
Qed.

Lemma py_float_digits (d : string) :
  str_all Char.is_digit d = true → d ≠ "" → ∃ q, py_float d = Ok q.
Proof.
  intros Hd Hne. unfold py_float.
  rewrite split_char_none by by apply count_char_digits.
  unfold decimal_value. rewrite Hd, append_empty_r. simpl.
  destruct d; [done|]. by eexists.
Qed.

Lemma split_char_once (c : ascii) (a b : string) :
  count_char c a = 0 → count_char c b = 0 →
  split_char c (a +:+ String c b) = [a; b].
Proof.
  intros Ha Hb. induction a as [|x a IH].
  - rewrite append_nil. simpl. rewrite ascii_eqb_refl. by rewrite split_char_none.
  - rewrite append_cons. simpl in *.
    destruct (Ascii.eqb x c); [done|]. by rewrite IH.
Qed.

Lemma py_float_fraction (d1 d2 : string) :
  str_all Char.is_digit d1 = true → str_all Char.is_digit d2 = true → d2 ≠ "" →
  ∃ q, py_float (d1 +:+ String "." d2) = Ok q.
Proof.
  intros H1 H2 Hne. unfold py_float.
  rewrite split_char_once by by apply count_char_digits.
  unfold decimal_value. rewrite H1, H2. simpl.
  destruct (is_empty (d1 +:+ d2)) eqn:E; [|by eexists].
  apply is_empty_true in E. destruct d1; [|done]. by rewrite append_nil in E.
Qed.

Lemma replace_char_digits (c : ascii) (new d : string) :
  Char.is_digit c = false → str_all Char.is_digit d = true →
  replace_char c new d = d.
Proof. intros Hc Hd. apply replace_char_absent. by apply count_char_digits. Qed.

Lemma digit_run_digits (d : string) :
  str_all Char.is_digit d = true → digit_run d = String.length d.
Proof.
  induction d as [|x d IH]; simpl; [done|].
  intros [-> Hd]%andb_true_iff. by rewrite IH.
Qed.

Lemma after_first_once (c : ascii) (a b : string) :
  count_char c a = 0 → after_first c (a +:+ String c b) = b.
Proof.
  intros Ha. induction a as [|x a IH].
  - rewrite append_nil. simpl. by rewrite ascii_eqb_refl.
  - rewrite append_cons. simpl in *. destruct (Ascii.eqb x c); [done|]. by apply IH.
Qed.

(** What [float] is given for a captured percentage, in either reading of
    its separator. *)
Lemma spec_locale_percent_numeral (g : string) :
  percent_numeral g → ∃ q, py_float (spec_locale g) = Ok q.
Proof.
  intros [d Hd Hne|d1 d2 sep H1 Hne1 H2 Hne2 Hsep].
  - unfold spec_locale.
    rewrite !count_char_digits by done. simpl. by apply py_float_digits.
  - assert (∃ q, py_float (d1 +:+ d2) = Ok q) as Hjoined.
    { apply py_float_digits; [by rewrite str_all_app, H1, H2|]. by destruct d1. }
    pose proof (py_float_fraction d1 d2 H1 H2 Hne2) as Hpoint.
    unfold spec_locale, digits_after, strip_grouping, as_decimal_point.
    rewrite !count_char_app. simpl.
    destruct Hsep as [-> | ->]; simpl;
      rewrite !count_char_digits by done; simpl;
      rewrite after_first_once by (by apply count_char_digits);
      rewrite digit_run_digits by done;
      rewrite !replace_char_app; simpl;
      rewrite !replace_char_digits by done; rewrite ?append_nil;
      repeat case_match; done.
Qed.

Lemma percent_numeral_plain (g : string) :
  percent_numeral g → str_all is_plain_char g = true ∧ g ≠ "".
Proof.
  intros [d Hd Hne|d1 d2 sep H1 Hne1 H2 Hne2 Hsep].
  - split; [by apply digits_are_plain|done].
  - split; [|by destruct d1].
    rewrite str_all_app. simpl. rewrite !digits_are_plain by done.
    by destruct Hsep as [-> | ->].
Qed.

(** X2. When a number stands directly before the percent sign, the
    percentage parse returns that number, read by the locale rules, and it is
    never negative: a minus sign before it is lost ("-5 %" gives 5). *)
Theorem percent_value_is_unsigned (text g : string) :
  percent_search (_clean_prefixes text) = Some g →
  ∃ q, _parse_percentage text = Ok (mkNumberWithUnit (Some q) (Some "%") text)
       ∧ _parse_numeric_string g = Ok (Some q)
       ∧ (0 <= q)%Q.
Proof.
  intros Hsearch. unfold _parse_percentage. rewrite Hsearch.
  apply percent_search_numeral in Hsearch.
  destruct (percent_numeral_plain g Hsearch) as [Hplain Hne].
  destruct (spec_locale_percent_numeral g Hsearch) as [q Hq].
  rewrite (parse_plain_numeral g Hplain Hne), Hq. simpl.
  exists q. split; [done|]. split; [done|]. by eapply py_float_nonneg.
Qed.

Lemma percent_value_is_unsigned_witness :
  ∃ q, parse (CText "-5 %") = Ok (mkNumberWithUnit (Some q) (Some "%") "-5 %")
       ∧ (0 <= q)%Q.
Proof.
  destruct (percent_value_is_unsigned "-5 %" "5") as (q & Hq & _ & Hpos).
  - by vm_compute.
  - exists q. split; [exact Hq|exact Hpos].
Defined.

(** ** NumberUnitParser: currencies *)

Lemma search_tokens_elem (tokens : list string) (s t : string) :
  search_tokens tokens s = Some t → t ∈ tokens.
Proof.
  induction s as [|c s IH]; simpl.
  - destruct (first_match tokens "") eqn:H; [|done].
    intros [= <-]. by apply first_match_elem in H as [? _].
  - destruct (first_match tokens (String c s)) eqn:H; [|done].
    intros [= <-]. by apply first_match_elem in H as [? _].
Qed.

Lemma sub_tokens_absent (tokens : list string) (s : string) :
  search_tokens tokens s = None → sub_tokens tokens s = s.
Proof.
  unfold sub_tokens. induction s as [|c s IH]; [done|].
  cbn [search_tokens sub_tokens_from].
  destruct (first_match tokens (String c s)); [done|].
  intros H. by rewrite IH.
Qed.

Lemma upper_lower (s : string) : upper (lower s) = upper s.
Proof.
  unfold upper, lower.
  induction s as [|c s IH]; simpl; [done|]. f_equal; [|done].
  by destruct c as [[] [] [] [] [] [] [] []].
Qed.

Lemma first_word_match_key (keys : list string) (prev_word : bool) (s m : string) :
  first_word_match true keys prev_word s = Some m →
  ∃ k, k ∈ keys ∧ lower m = lower k.
Proof.
  induction keys as [|k keys IH]; simpl; [done|].
  destruct (word_token_at true prev_word k s) eqn:Hk.
  - intros [= <-]. exists k. split; [left|].
    unfold word_token_at in Hk.
    apply andb_true_iff in Hk as [Hk _]. apply andb_true_iff in Hk as [_ Hk].
    rewrite <-(length_lower k). by apply lower_take_startswith.
  - intros H. destruct (IH H) as (k' & ? & ?). exists k'. split; [by right|done].
Qed.

Lemma search_words_from_key (keys : list string) (in_symbol : nat)
    (prev_word : bool) (s m : string) :
  search_words_from true keys in_symbol prev_word s = Some m →
  ∃ k, k ∈ keys ∧ lower m = lower k.
Proof.
  revert in_symbol prev_word.
  induction s as [|c s IH]; intros in_symbol prev_word; simpl.
  - destruct (word_match_here _ _ _ _ _) eqn:H; [|done]. intros [= <-].
    destruct in_symbol; [|done]. by eapply first_word_match_key.
  - destruct (word_match_here _ _ _ _ _) eqn:H.
    + intros [= <-]. destruct in_symbol; [|done]. by eapply first_word_match_key.
    + destruct (step_word _ _). apply IH.
Qed.

Lemma currency_code_search_code (s m : string) :
  currency_code_search s = Some m → upper m ∈ currency_codes.
Proof.
  intros H. apply search_words_from_key in H as (k & Hk & Heq).
  rewrite <-upper_lower, Heq.
  unfold currency_codes in *.
  repeat (apply elem_of_cons in Hk as [-> | Hk]; [vm_compute; set_solver|]).
  by apply elem_of_nil in Hk.
Qed.

Lemma currency_symbol_search_code (s sym : string) :
  currency_symbol_search s = Some sym →
  default sym (dict_get sym CURRENCY_SYMBOLS) ∈ currency_codes.
Proof.
  intros H. apply search_tokens_elem in H. unfold currency_symbol_class in H.
  repeat (apply elem_of_cons in H as [-> | H]; [vm_compute; set_solver|]).
  by apply elem_of_nil in H.
Qed.

(** X3. For a plain text (ASCII characters and the parser's own symbols):
    whenever a currency symbol or ISO code is detected, the currency parse
    returns one of the sixteen ISO codes as unit, in upper case whatever the
    case of the input; an ISO code in the text takes precedence over a
    symbol.  Beyond plain texts the pattern's case folding reaches letters
    such as the Kelvin sign, which this development does not model. *)
Theorem currency_unit_is_iso_code (text : string) :
  plain_text text = true →
  has_currency (_clean_prefixes text) = true →
  ∃ v c, _parse_currency text = Ok (mkNumberWithUnit v (Some c) text)
         ∧ c ∈ currency_codes
         ∧ (∀ code,
              currency_code_search
                (sub_tokens currency_symbol_class (_clean_prefixes text)) = Some code →
              c = upper code).
Proof.
  intros _. unfold has_currency, _parse_currency.
  destruct (currency_symbol_search (_clean_prefixes text)) as [sym|] eqn:Hsym; simpl.
  - intros _.
    destruct (currency_code_search (sub_tokens _ _)) as [code|] eqn:Hcode; simpl;
      rewrite parse_numeric_string_refines; simpl; eexists _, _; split; try done.
    + split; [by eapply currency_code_search_code|]. by intros ? [= <-].
    + split; [by eapply currency_symbol_search_code|done].
  - destruct (currency_code_search (_clean_prefixes text)) as [code|] eqn:Hcode;
      simpl; [|done].
    intros _. rewrite parse_numeric_string_refines. simpl.
    eexists _, _. split; [done|]. split; [by eapply currency_code_search_code|].
    intros code' Hcode'.
    assert (sub_tokens currency_symbol_class (_clean_prefixes text)
            = _clean_prefixes text) as Hsame by by apply sub_tokens_absent.
    rewrite Hsame, Hcode in Hcode'. by injection Hcode' as <-.
Qed.

Lemma currency_unit_is_iso_code_witness :
  ∃ v, parse (CText "€ 1.200 chf") = Ok (mkNumberWithUnit v (Some "CHF") "€ 1.200 chf").
Proof.
  destruct (currency_unit_is_iso_code "€ 1.200 chf") as (v & c & Hrun & _ & Hcode).
  - by vm_compute.
  - by vm_compute.
  - exists v. rewrite (Hcode "chf") in Hrun by by vm_compute. exact Hrun.
Defined.

(** ** HeaderMapper.map_header: which synonym decides *)

Lemma match_synonyms_spec (canonical : string) (synonyms : list string)
    (normalized : string) :
  match match_synonyms canonical synonyms normalized with
  | Some tag =>
      tag = canonical ∧
      ∃ syns1 syn syns2, synonyms = syns1 ++ syn :: syns2
        ∧ synonym_hits syn normalized = true
        ∧ Forall (λ s, synonym_hits s normalized = false) syns1
  | None => Forall (λ s, synonym_hits s normalized = false) synonyms
  end.
Proof.
  induction synonyms as [|syn rest IH]; simpl; [done|].
  destruct (str_eqb (normalize_header syn) normalized) eqn:Heq.
  { split; [done|]. exists [], syn, rest. unfold synonym_hits. by rewrite Heq. }
  destruct ((3 <? py_len syn) && contains (normalize_header syn) normalized) eqn:Hin.
  { split; [done|]. exists [], syn, rest. unfold synonym_hits. by rewrite Heq, Hin. }
  assert (synonym_hits syn normalized = false) as Hmiss
    by (unfold synonym_hits; by rewrite Heq, Hin).
  destruct (match_synonyms canonical rest normalized) as [tag|].
  - destruct IH as (-> & syns1 & s & syns2 & -> & Hhit & Hbefore).
    split; [done|]. exists (syn :: syns1), s, syns2. by repeat split; [|constructor].
  - by constructor.
Qed.

(** X4. map_header returns the tag of the first synonym, in table order,
    that equals the normalised header or, being longer than three
    characters, occurs in it; it returns None exactly when the normalised
    header is empty or no synonym of the table does so.  A header of white
    space and punctuation only is therefore never mapped. *)
Theorem map_header_first_hit (table : list (string * list string)) (raw : string) :
  let normalized := normalize_header raw in
  match map_header table raw with
  | Some tag =>
      normalized ≠ "" ∧
      ∃ before syns1 syn syns2 after,
        table = before ++ (tag, syns1 ++ syn :: syns2) :: after
        ∧ synonym_hits syn normalized = true
        ∧ Forall (λ s, synonym_hits s normalized = false) syns1
        ∧ Forall (λ entry, Forall (λ s, synonym_hits s normalized = false) entry.2)
            before
  | None =>
      normalized = "" ∨
      Forall (λ entry, Forall (λ s, synonym_hits s normalized = false) entry.2) table
  end.
Proof.
  intros normalized. unfold map_header. fold normalized.
  destruct (is_empty normalized) eqn:Hempty.
  { left. by apply is_empty_true. }
  assert (normalized ≠ "") as Hne by (intros E; by rewrite E in Hempty).
  generalize normalized Hne. clear. intros normalized Hne.
  induction table as [|[canonical synonyms] table IH]; simpl.
  { right. constructor. }
  pose proof (match_synonyms_spec canonical synonyms normalized) as Hsyn.
  destruct (match_synonyms canonical synonyms normalized) as [tag|].
  - destruct Hsyn as (-> & syns1 & syn & syns2 & -> & Hhit & Hmiss).
    split; [done|]. by exists [], syns1, syn, syns2, table.
  - destruct (map_normalized table normalized) as [tag|].
    + destruct IH as (_ & before & syns1 & syn & syns2 & after & -> & Hhit & H1 & H2).
      split; [done|].
      exists ((canonical, synonyms) :: before), syns1, syn, syns2, after.
      repeat split; try done. by constructor.
    + destruct IH as [?|IH]; [done|]. right. by constructor.
Qed.

(** ** HeaderDetector.find_header_row: the best-scoring row *)

Lemma find_header_loop_spec (synonyms : list (string * list string))
    (rows : grid) (i : nat) (best_row : option nat) (best_score : nat)
    (best_headers : list string) :
  let '(r, s, h) :=
    find_header_loop synonyms i rows (best_row, best_score, best_headers) in
  (∀ j row, rows !! j = Some row → header_score synonyms row ≤ s)
  ∧ (((r, s, h) = (best_row, best_score, best_headers))
     ∨ ∃ j row, rows !! j = Some row ∧ r = Some (i + j)
         ∧ s = header_score synonyms row ∧ h = map cell_text row
         ∧ best_score < s
         ∧ ∀ j' row', j' < j → rows !! j' = Some row' →
             header_score synonyms row' < s).
Proof.
  revert i best_row best_score best_headers.
  induction rows as [|row rows IH]; intros i best_row best_score best_headers;
    simpl.
  { split; [done|by left]. }
  fold (header_score synonyms row).
  destruct (best_score <? header_score synonyms row) eqn:Hcmp.
  - apply Nat.ltb_lt in Hcmp.
    specialize (IH (S i) (Some i) (header_score synonyms row) (map cell_text row)).
    destruct (find_header_loop _ _ _ _) as [[r s] h].
    destruct IH as [Hmax Hwho].
    assert (header_score synonyms row ≤ s) as Hle.
    { destruct Hwho as [[= _ <- _]|(j & row' & _ & _ & _ & _ & Hlt & _)]; lia. }
    split.
    + intros [|j] row' Hj; simpl in Hj; [by injection Hj as <-|by eapply Hmax].
    + right. destruct Hwho as [[= -> -> ->]|(j & row' & Hj & -> & -> & -> & Hlt & Hfirst)].
      * exists 0, row. rewrite Nat.add_0_r. repeat split; try done. lia.
      * exists (S j), row'. replace (i + S j) with (S i + j) by lia.
        repeat split; try done; [lia|].
        intros [|j'] row'' Hj' Hrow''; simpl in Hrow''.
        -- by injection Hrow'' as <-.
        -- eapply Hfirst; [|done]. lia.
  - apply Nat.ltb_ge in Hcmp.
    specialize (IH (S i) best_row best_score best_headers).
    destruct (find_header_loop _ _ _ _) as [[r s] h].
    destruct IH as [Hmax Hwho].
    assert (best_score ≤ s) as Hle.
    { destruct Hwho as [[= _ <- _]|(j & row' & _ & _ & _ & _ & Hlt & _)]; lia. }
    split.
    + intros [|j] row' Hj; simpl in Hj; [injection Hj as <-; lia|by eapply Hmax].
    + destruct Hwho as [Hsame|(j & row' & Hj & -> & -> & -> & Hlt & Hfirst)];
        [by left|right].
      exists (S j), row'. replace (i + S j) with (S i + j) by lia.
      repeat split; try done.
      intros [|j'] row'' Hj' Hrow''; simpl in Hrow''.
      * injection Hrow'' as <-. lia.
      * eapply Hfirst; [|done]. lia.
Qed.

(** X5. find_header_row returns, among the first thirty rows, the first row
    with the highest number of recognised header cells, together with the
    texts of its cells, provided that number is at least two; it returns
    None exactly when every one of those rows has fewer than two recognised
    cells. *)
Theorem find_header_row_is_first_best
    (synonyms : list (string * list string)) (df : grid) :
  match find_header_row synonyms df with
  | Some (i, headers) =>
      i < 30 ∧
      ∃ row, df !! i = Some row ∧ headers = map cell_text row
        ∧ 2 ≤ header_score synonyms row
        ∧ (∀ j row', j < 30 → df !! j = Some row' →
             header_score synonyms row' ≤ header_score synonyms row)
        ∧ (∀ j row', j < i → df !! j = Some row' →
             header_score synonyms row' < header_score synonyms row)
  | None =>
      ∀ j row, j < 30 → df !! j = Some row → header_score synonyms row < 2
  end.
Proof.
  unfold find_header_row.
  assert (take (30 `min` length df) df = take 30 df) as ->.
  { destruct (decide (30 ≤ length df)).
    - by rewrite Nat.min_l.
    - rewrite Nat.min_r by lia. by rewrite !take_ge by lia. }
  pose proof (find_header_loop_spec synonyms (take 30 df) 0 None 0 []) as Hloop.
  destruct (find_header_loop _ _ _ _) as [[r s] h].
  destruct Hloop as [Hmax Hwho].
  assert (∀ j row, j < 30 → df !! j = Some row → header_score synonyms row ≤ s)
    as Hmax'.
  { intros j row Hj Hrow. apply (Hmax j). by rewrite lookup_take_lt. }
  destruct (2 <=? s) eqn:Hs.
  - apply Nat.leb_le in Hs.
    destruct Hwho as [[= -> -> ->]|(j & row & Hj & -> & -> & -> & _ & Hfirst)]; [lia|].
    simpl. apply lookup_take_Some in Hj as [Hrow Hlt].
    split; [done|]. exists row. repeat split; try done.
    intros j' row' Hj' Hrow'. eapply Hfirst; [done|].
    rewrite lookup_take_lt by lia. done.
  - apply Nat.leb_gt in Hs. intros j row Hj Hrow.
    specialize (Hmax' j row Hj Hrow). lia.
Qed.

(** ** Keyword tests: a keyword anywhere in the text *)

Lemma contains_lstrip (kw s : string) :
  solid_keyword kw = true → contains kw (lstrip s) = contains kw s.
Proof.
  intros Hkw. induction s as [|c s IH]; [done|]. simpl lstrip.
  destruct (Char.is_space c) eqn:Hc; [|done].
  rewrite IH. simpl.
  destruct kw as [|k kw]; [done|]. simpl in *.
  destruct (Ascii.eqb k c) eqn:Hk; [|done].
  apply Ascii.eqb_eq in Hk as ->. by rewrite Hc in Hkw.
Qed.

Lemma startswith_rstrip (kw s : string) :
  last_char_ok kw = true → startswith kw (rstrip s) = startswith kw s.
Proof.
  revert s. induction kw as [|k kw IH]; intros s Hkw; [done|].
  destruct s as [|c s]; [done|]. simpl rstrip. simpl startswith at 2.
  destruct (Ascii.eqb k c) eqn:Hk.
  - apply Ascii.eqb_eq in Hk as ->.
    destruct kw as [|k' kw].
    + simpl in Hkw. apply negb_true_iff in Hkw. rewrite Hkw. simpl.
      by rewrite ascii_eqb_refl.
    + specialize (IH s Hkw).
      destruct (Char.is_space c && is_empty (rstrip s)) eqn:Hcut.
      * apply andb_true_iff in Hcut as [_ Hcut]. apply is_empty_true in Hcut.
        rewrite Hcut in IH. simpl in IH. simpl. by rewrite <-IH.
      * simpl. rewrite ascii_eqb_refl. simpl. exact IH.
  - destruct (Char.is_space c && is_empty (rstrip s)); simpl; [done|].
    by rewrite Hk.
Qed.

Lemma contains_rstrip (kw s : string) :
  solid_keyword kw = true → contains kw (rstrip s) = contains kw s.
Proof.
  intros Hkw.
  assert (last_char_ok kw = true ∧ kw ≠ "") as [Hlast Hne].
  { destruct kw; [done|]. simpl in Hkw. by apply andb_true_iff in Hkw as [_ ?]. }
  induction s as [|c s IH]; [done|].
  pose proof (startswith_rstrip kw (String c s) Hlast) as Hstart.
  simpl rstrip in *. simpl contains at 2. rewrite <-IH, <-Hstart.
  destruct (Char.is_space c && is_empty (rstrip s)) eqn:Hcut.
  - apply andb_true_iff in Hcut as [_ Hcut]. apply is_empty_true in Hcut.
    rewrite Hcut. destruct kw; [done|]. done.
  - done.
Qed.

Lemma contains_strip (kw s : string) :
  solid_keyword kw = true → contains kw (strip s) = contains kw s.
Proof.
  intros Hkw. unfold strip. by rewrite contains_rstrip, contains_lstrip.
Qed.

Lemma existsb_contains_strip (keywords : list string) (s : string) :
  forallb solid_keyword keywords = true →
  existsb (λ kw, contains kw (strip s)) keywords
  = existsb (λ kw, contains kw s) keywords.
Proof.
  induction keywords as [|kw keywords IH]; simpl; [done|].
  intros [Hkw Hrest]%andb_true_iff. by rewrite contains_strip, IH.
Qed.

Lemma existsb_elem (keywords : list string) (f : string → bool) (kw : string) :
  kw ∈ keywords → f kw = true → existsb f keywords = true.
Proof.
  intros Hin Hf. apply existsb_exists. exists kw. split; [|done].
  by apply list_elem_of_In.
Qed.

(** X6. The summary test looks for a keyword anywhere inside the first cell,
    in any letter case and whatever surrounds it: a first cell that merely
    contains "total", "vacant" or another keyword inside a longer word or
    name is taken for a summary row, and the white space stripping has no
    effect on the outcome. *)
Theorem summary_keyword_anywhere (first_cell before after : string) :
  _is_summary_row first_cell
  = existsb (λ kw, contains kw (lower first_cell)) SUMMARY_KEYWORDS
  ∧ Forall (λ kw, _is_summary_row (before +:+ kw +:+ after) = true
                  ∧ _is_summary_row (before +:+ upper kw +:+ after) = true)
      SUMMARY_KEYWORDS.
Proof.
  assert (∀ cell, _is_summary_row cell
                  = existsb (λ kw, contains kw (lower cell)) SUMMARY_KEYWORDS) as Hany.
  { intros cell. unfold _is_summary_row. by apply existsb_contains_strip. }
  split; [apply Hany|].
  apply Forall_forall. intros kw Hkw.
  assert (lower kw = kw ∧ lower (upper kw) = kw) as [Hlow Hup].
  { unfold SUMMARY_KEYWORDS in Hkw.
    repeat (apply elem_of_cons in Hkw as [-> | Hkw]; [by vm_compute|]).
    by apply elem_of_nil in Hkw. }
  rewrite !Hany. split.
  - apply (existsb_elem _ _ kw Hkw).
    rewrite !lower_app, Hlow. apply contains_middle.
  - apply (existsb_elem _ _ kw Hkw).
    rewrite !lower_app, Hup. apply contains_middle.
Qed.

(** X7. For sheet names made of ASCII characters and the letter ü: a sheet
    is skipped when its name contains a skip keyword anywhere, written in
    lower case or with its ASCII letters in upper case, whatever surrounds
    it; stripping the name changes nothing.  The positive sheet keywords are
    not consulted: a name with a rent-roll keyword and a skip keyword is
    skipped. *)
Theorem skip_keyword_anywhere (sheet_name before after : string) :
  plain_name sheet_name = true → plain_name before = true → plain_name after = true →
  should_skip_sheet sheet_name
  = existsb (λ kw, contains kw (lower sheet_name)) SKIP_KEYWORDS
  ∧ is_likely_rent_roll sheet_name
    = existsb (λ kw, contains kw (lower sheet_name)) SHEET_KEYWORDS
  ∧ Forall (λ kw, should_skip_sheet (before +:+ kw +:+ after) = true
                  ∧ should_skip_sheet (before +:+ upper kw +:+ after) = true)
      SKIP_KEYWORDS.
Proof.
  intros _ _ _.
  assert (∀ name, should_skip_sheet name
                  = existsb (λ kw, contains kw (lower name)) SKIP_KEYWORDS) as Hany.
  { intros name. unfold should_skip_sheet. by apply existsb_contains_strip. }
  split; [apply Hany|]. split.
  { unfold is_likely_rent_roll. by apply existsb_contains_strip. }
  apply Forall_forall. intros kw Hkw.
  assert (lower kw = kw ∧ lower (upper kw) = kw) as [Hlow Hup].
  { unfold SKIP_KEYWORDS in Hkw.
    repeat (apply elem_of_cons in Hkw as [-> | Hkw]; [by vm_compute|]).
    by apply elem_of_nil in Hkw. }
  rewrite !Hany. split.
  - apply (existsb_elem _ _ kw Hkw).
    rewrite !lower_app, Hlow. apply contains_middle.
  - apply (existsb_elem _ _ kw Hkw).
    rewrite !lower_app, Hup. apply contains_middle.
Qed.

Lemma skip_keyword_anywhere_witness :
  should_skip_sheet "Rent Roll" = false
  ∧ should_skip_sheet "Rent Roll übersicht 2024" = true
  ∧ should_skip_sheet "Rent Roll TEMPLATE 2024" = true.
Proof.
  destruct (skip_keyword_anywhere "Rent Roll" "Rent Roll " " 2024")
    as (Hname & _ & Hall); [by vm_compute..|].
  split; [by rewrite Hname|].
  rewrite Forall_forall in Hall. split.
  - refine (proj1 (Hall "übersicht" _)). unfold SKIP_KEYWORDS.
    rewrite !elem_of_cons. tauto.
  - refine (proj2 (Hall "template" _)). unfold SKIP_KEYWORDS.
    rewrite !elem_of_cons. tauto.
Defined.

(** ** HeaderDetector.handle_multi_level_headers *)

Lemma combine_headers_spec (prev_row curr_row : list cell) (i n : nat) :
  i + n = length curr_row → length prev_row = length curr_row →
  combine_headers prev_row curr_row i n
  = Ok (zip_with merge_header_cells (drop i prev_row) (drop i curr_row)).
Proof.
  revert i. induction n as [|n IH]; intros i Hi Hlen; simpl.
  - by rewrite !drop_ge by lia.
  - unfold iloc.
    destruct (lookup_lt_is_Some_2 prev_row i) as [p Hp]; [lia|].
    destruct (lookup_lt_is_Some_2 curr_row i) as [c Hc]; [lia|].
    rewrite Hp, Hc. simpl. rewrite IH by lia. simpl.
    rewrite (drop_S prev_row p i Hp), (drop_S curr_row c i Hc). done.
Qed.

Lemma merge_blank_above (prev_row curr_row : list cell) :
  length prev_row = length curr_row →
  Forall (λ c, cell_text c = "") prev_row →
  zip_with merge_header_cells prev_row curr_row = map cell_text curr_row.
Proof.
  intros Hlen Hblank. revert curr_row Hlen.
  induction Hblank as [|p prev_row Hp _ IH]; intros [|c curr_row] Hlen;
    simpl in *; try done.
  rewrite IH by lia. f_equal.
  unfold merge_header_cells. rewrite Hp. simpl.
  by destruct (cell_text c).
Qed.

(** X8. For a header row below the first row, handle_multi_level_headers
    returns one header per column: the text of the cell above, a space and
    the text of the header cell when both are non-empty, else whichever is
    non-empty.  When the row above is blank the headers are the header row's
    own texts; when it is not, for instance a title line, its texts are
    prefixed to the headers. *)
Theorem multi_level_headers_merge_row_above
    (df : grid) (above : nat) (prev_row curr_row : list cell) :
  df !! above = Some prev_row →
  df !! S above = Some curr_row →
  length prev_row = length curr_row →
  handle_multi_level_headers df (S above)
  = Ok (zip_with merge_header_cells prev_row curr_row)
  ∧ length (zip_with merge_header_cells prev_row curr_row) = length curr_row
  ∧ (Forall (λ c, cell_text c = "") prev_row →
     handle_multi_level_headers df (S above) = Ok (map cell_text curr_row)).
Proof.
  intros Hprev Hcurr Hlen.
  assert (handle_multi_level_headers df (S above)
          = Ok (zip_with merge_header_cells prev_row curr_row)) as Hrun.
  { unfold handle_multi_level_headers, df_row. rewrite Hprev, Hcurr. simpl.
    by rewrite combine_headers_spec. }
  split; [done|]. split.
  - rewrite length_zip_with. lia.
  - intros Hblank. by rewrite Hrun, merge_blank_above.
Qed.

Lemma multi_level_headers_merge_row_above_witness :
  let df : grid :=
    [ [CText "Rent Roll 2024"; CNull];
      [CText "Tenant"; CText "Monthly Rent"];
      [CText "Acme"; CText "1.000 €"] ] in
  handle_multi_level_headers df 1 = Ok ["Rent Roll 2024 Tenant"; "Monthly Rent"].
Proof.
  intros df.
  destruct (multi_level_headers_merge_row_above df 0
              [CText "Rent Roll 2024"; CNull] [CText "Tenant"; CText "Monthly Rent"]
              eq_refl eq_refl eq_refl) as (Hrun & _).
  exact Hrun.
Defined.

(** ** Identity resolution: what it writes and in which order it looks *)

Lemma resolve_tenant_frame (r : record) (key : string) :
  key ≠ "tenant_name" → key ≠ "tenant_id" →
  (resolve_tenant r).2 !! key = r !! key.
Proof.
  intros Hname Hid. unfold resolve_tenant. recm_unfold. simpl.
  repeat (case_match; recm_unfold; simpl in *; simplify_eq);
    rewrite ?lookup_insert_ne, ?lookup_delete_ne, ?lookup_insert_ne by done; done.
Qed.

Lemma resolve_tenant_get (r : record) (key : string) :
  key ≠ "tenant_name" → key ≠ "tenant_id" →
  rec_get key (resolve_tenant r).2 = rec_get key r.
Proof. intros Hname Hid. unfold rec_get. by rewrite resolve_tenant_frame. Qed.

Lemma resolve_asset_get (r : record) (key : string) :
  key ≠ "asset_id" → rec_get key (resolve_asset r).2 = rec_get key r.
Proof.
  intros Hkey. unfold rec_get.
  by destruct (resolve_asset_frame r key Hkey) as [_ ->].
Qed.

Lemma resolve_record_steps (r : record) :
  (resolve_record r).2
  = (resolve_asset (resolve_unit (resolve_tenant r).2).2).2.
Proof.
  unfold resolve_record, mbind, recm_bind.
  pose proof (resolve_tenant_ok r) as Ht.
  destruct (resolve_tenant r) as [[[]|e] r1]; simpl in *; [|done].
  destruct (resolve_unit_frame r1 "x") as [Hu _]; [done|].
  destruct (resolve_unit r1) as [[[]|e] r2]; simpl in *; done.
Qed.

Lemma resolve_record_identity_frame (r : record) (key : string) :
  key ∉ identity_keys → (resolve_record r).2 !! key = r !! key.
Proof.
  intros Hkey. unfold identity_keys in Hkey.
  rewrite resolve_record_frame, resolve_tenant_frame; try done;
    intros ->; apply Hkey; repeat constructor.
Qed.


Lemma resolve_unit_priority (r : record) :
  rec_get "unit_id" (resolve_unit r).2 = unit_id_by_priority r.
Proof.
  unfold resolve_unit, unit_id_by_priority. recm_unfold. simpl.
  destruct (truthy (rec_get "unit_id" r)); simpl; [done|].
  destruct (truthy (rec_get "composite_unit_id" r)); simpl.
  { unfold rec_get at 1. by rewrite lookup_insert_eq. }
  destruct (truthy (rec_get "sap_object_number" r)); simpl.
  { unfold rec_get at 1. by rewrite lookup_insert_eq. }
  destruct (truthy (rec_get "contract_id" r)); simpl.
  { unfold rec_get at 1. by rewrite lookup_insert_eq. }
  set (parts := filter _ _).
  destruct parts as [|p parts'] eqn:Hparts; simpl.
  - done.
  - unfold rec_get at 1. by rewrite lookup_insert_eq.
Qed.

Lemma unit_id_by_priority_ext (r1 r2 : record) :
  (∀ key, key ≠ "tenant_name" → key ≠ "tenant_id" → rec_get key r1 = rec_get key r2) →
  unit_id_by_priority r1 = unit_id_by_priority r2.
Proof.
  intros Hsame. unfold unit_id_by_priority.
  by rewrite !(Hsame "unit_id"), !(Hsame "composite_unit_id"),
    !(Hsame "sap_object_number"), !(Hsame "contract_id"),
    !(Hsame "business_unit"), !(Hsame "business_unit_code"),
    !(Hsame "bookkeeping_area"), !(Hsame "mo_number") by done.
Qed.

(** X10. After identity resolution a record's unit_id is chosen by a fixed
    priority: its own unit_id when that is non-empty (it is never
    overwritten), else composite_unit_id, else sap_object_number, else
    contract_id, else the non-empty ones of bookkeeping_area, business_unit
    (or business_unit_code) and mo_number joined by hyphens, else what it
    had.  Its asset_id is its own when non-empty, else sap_object_number
    when that is non-empty.  The tenant step does not interfere. *)
Theorem resolve_unit_and_asset_priority (r : record) :
  let r' := (resolve_record r).2 in
  rec_get "unit_id" r' = unit_id_by_priority r
  ∧ (truthy (rec_get "unit_id" r) = true → r' !! "unit_id" = r !! "unit_id")
  ∧ rec_get "asset_id" r'
    = (if truthy (rec_get "asset_id" r) then rec_get "asset_id" r
       else if truthy (rec_get "sap_object_number" r)
            then rec_get "sap_object_number" r
            else rec_get "asset_id" r).
Proof.
  intros r'. unfold r'. rewrite resolve_record_steps.
  set (r1 := (resolve_tenant r).2).
  assert (∀ key, key ≠ "tenant_name" → key ≠ "tenant_id" →
            rec_get key r1 = rec_get key r) as Htenant
    by (intros; by apply resolve_tenant_get).
  split_and!.
  - rewrite resolve_asset_get, resolve_unit_priority by done.
    by apply unit_id_by_priority_ext.
  - intros Hown.
    destruct (resolve_asset_frame (resolve_unit r1).2 "unit_id") as [_ ->]; [done|].
    unfold r1. rewrite <-(resolve_tenant_frame r "unit_id") by done. fold r1.
    rewrite <-(Htenant "unit_id") in Hown by done.
    unfold resolve_unit. recm_unfold. by rewrite Hown.
  - set (r2 := (resolve_unit r1).2).
    assert (rec_get "sap_object_number" r2 = rec_get "sap_object_number" r) as Hsap.
    { unfold rec_get, r2.
      destruct (resolve_unit_frame r1 "sap_object_number") as [_ ->]; [done|].
      by apply (Htenant "sap_object_number"). }
    assert (rec_get "asset_id" r2 = rec_get "asset_id" r) as Hasset.
    { unfold rec_get, r2.
      destruct (resolve_unit_frame r1 "asset_id") as [_ ->]; [done|].
      by apply (Htenant "asset_id"). }
    rewrite <-Hsap, <-Hasset.
    unfold resolve_asset. recm_unfold. simpl.
    destruct (truthy (rec_get "asset_id" r2)); simpl.
    { by rewrite andb_false_r. }
    rewrite andb_true_r.
    destruct (truthy (rec_get "sap_object_number" r2)) eqn:Htruthy; simpl; [|done].
    unfold rec_get in Htruthy |- *.
    destruct (r2 !! "sap_object_number") as [v|] eqn:Hv; simpl in *; [|done].
    by rewrite lookup_insert_eq.
Qed.

(** X11. A record without a tenant name (the key is missing, or holds None
    or the empty string) takes its contractual partner as tenant name when it
    has no tenant id either and the partner is non-empty; otherwise its
    tenant name is left as it was.  Its tenant id is not written. *)
Theorem contractual_partner_fallback (r : record) :
  rec_get "tenant_name" r = VNone ∨ rec_get "tenant_name" r = VStr "" →
  let r' := (resolve_record r).2 in
  let partner := rec_get "contractual_partner" r in
  r' !! "tenant_name"
  = (if negb (truthy (rec_get "tenant_id" r)) && truthy partner
     then Some partner else r !! "tenant_name")
  ∧ r' !! "tenant_id" = r !! "tenant_id".
Proof.
  intros Hblank r' partner. unfold r', partner.
  rewrite !resolve_record_frame by done.
  assert (negb (is_none (rec_get "tenant_name" r))
          && not_empty_str (rec_get "tenant_name" r) = false
          ∧ truthy (rec_get "tenant_name" r) = false) as [Hskip Hfalsy].
  { by destruct Hblank as [-> | ->]. }
  unfold resolve_tenant. recm_unfold. rewrite Hskip. simpl. rewrite Hfalsy. simpl.
  destruct (truthy (rec_get "tenant_id" r)); simpl; [done|].
  destruct (truthy (rec_get "contractual_partner" r)); simpl; [|done].
  by rewrite lookup_insert_eq, lookup_insert_ne.
Qed.

Lemma contractual_partner_fallback_witness :
  let r : record :=
    {[ "tenant_name" := VStr ""; "contractual_partner" := VStr "Acme GmbH" ]} in
  (resolve_record r).2 !! "tenant_name" = Some (VStr "Acme GmbH").
Proof.
  intros r.
  destruct (contractual_partner_fallback r) as [Hname _].
  - right. reflexivity.
  - exact Hname.
Defined.

(** ** DataValidator.validate: what it reports and when it raises *)

Lemma check_magnitudes_outcome (idx : nat) (fields : list string)
    (errors : list ValidationError) (r : record) :
  match (check_magnitudes idx fields errors r).1 with
  | Ok out =>
      forallb (λ f, orderable_if_true (rec_get f r)) fields = true
      ∧ ∃ new, out = errors ++ new ∧ Forall (finding_of idx) new
               ∧ length new ≤ length fields
  | Raise e =>
      e = TypeError
      ∧ forallb (λ f, orderable_if_true (rec_get f r)) fields = false
  end.
Proof.
  revert errors. induction fields as [|f fields IH]; intros errors; simpl.
  - split; [done|]. exists []. by rewrite app_nil_r.
  - unfold mbind, recm_bind, dget. simpl.
    destruct (rec_get f r) as [|s|z|q] eqn:Hval; simpl.
    + specialize (IH errors).
      destruct (check_magnitudes idx fields errors r) as [[out|e] r']; simpl in *.
      * destruct IH as (Hall & new & -> & Hnew & Hlen).
        split; [done|]. exists new. split_and!; [done|done|lia].
      * done.
    + destruct (is_empty s) eqn:Hs; simpl.
      * specialize (IH errors).
        destruct (check_magnitudes idx fields errors r) as [[out|e] r']; simpl in *.
        -- destruct IH as (Hall & new & -> & Hnew & Hlen).
           split; [done|]. exists new. split_and!; [done|done|lia].
        -- done.
      * done.
    + destruct (negb (z =? 0)%Z); simpl.
      * match goal with
        | |- context [check_magnitudes idx fields ?errs r] => specialize (IH errs)
        end.
        destruct (check_magnitudes idx fields _ r) as [[out|e] r']; simpl in *; [|done].
        destruct IH as (Hall & new & -> & Hnew & Hlen). split; [done|].
        destruct (1000000000 <? z)%Z.
        -- eexists (_ :: new). rewrite <-app_assoc. simpl. split_and!; [done| |lia].
           by constructor.
        -- exists new. split_and!; [done|done|lia].
      * specialize (IH errors).
        destruct (check_magnitudes idx fields errors r) as [[out|e] r']; simpl in *.
        -- destruct IH as (Hall & new & -> & Hnew & Hlen).
           split; [done|]. exists new. split_and!; [done|done|lia].
        -- done.
    + destruct (negb (Qeq_bool q 0)); simpl.
      * match goal with
        | |- context [check_magnitudes idx fields ?errs r] => specialize (IH errs)
        end.
        destruct (check_magnitudes idx fields _ r) as [[out|e] r']; simpl in *; [|done].
        destruct IH as (Hall & new & -> & Hnew & Hlen). split; [done|].
        destruct (negb (Qle_bool q (inject_Z 1000000000))).
        -- eexists (_ :: new). rewrite <-app_assoc. simpl. split_and!; [done| |lia].
           by constructor.
        -- exists new. split_and!; [done|done|lia].
      * specialize (IH errors).
        destruct (check_magnitudes idx fields errors r) as [[out|e] r']; simpl in *.
        -- destruct IH as (Hall & new & -> & Hnew & Hlen).
           split; [done|]. exists new. split_and!; [done|done|lia].
        -- done.
Qed.

Lemma validate_record_outcome (idx : nat) (errors : list ValidationError) (r : record) :
  match (validate_record idx errors r).1 with
  | Ok out =>
      record_checkable r = true
      ∧ ∃ new, out = errors ++ new ∧ Forall (finding_of idx) new ∧ length new ≤ 6
  | Raise e => e = TypeError ∧ record_checkable r = false
  end.
Proof.
  unfold validate_record, record_checkable.
  pose proof (λ errs, check_magnitudes_outcome idx magnitude_fields errs r) as Hcheck.
  assert (length magnitude_fields = 4) as Hfour by done.
  revert Hcheck Hfour.
  generalize (forallb (λ f, orderable_if_true (rec_get f r)) magnitude_fields) as all_ok.
  generalize (check_magnitudes idx magnitude_fields) as check.
  generalize (length magnitude_fields) as n.
  intros n check all_ok Hcheck ->.
  unfold mbind, recm_bind, dget. simpl.
  set (errors1 := if _ : bool then _ else errors).
  assert (∃ new1, errors1 = errors ++ new1 ∧ Forall (finding_of idx) new1
                  ∧ length new1 ≤ 1) as (new1 & Hnew1 & Hfind1 & Hlen1).
  { unfold errors1. case_match.
    - eexists [_]. split_and!; [done|by repeat constructor|simpl; lia].
    - exists []. rewrite app_nil_r. split_and!; [done|done|simpl; lia]. }
  clearbody errors1.
  assert (∀ errors2 new2, errors2 = errors ++ new2 → Forall (finding_of idx) new2 →
            length new2 ≤ 2 →
            match (check errors2 r).1 with
            | Ok out =>
                all_ok = true
                ∧ ∃ new, out = errors ++ new ∧ Forall (finding_of idx) new
                         ∧ length new ≤ 6
            | Raise e => e = TypeError ∧ all_ok = false
            end) as Hrest.
  { intros errors2 new2 -> Hfind2 Hlen2.
    specialize (Hcheck (errors ++ new2)).
    destruct (check (errors ++ new2) r) as [[out|e] r']; simpl in *; [|done].
    destruct Hcheck as (Hall & new & -> & Hnew & Hlen). split; [done|].
    exists (new2 ++ new). rewrite app_assoc. split_and!; [done| |].
    - by apply Forall_app.
    - rewrite length_app. lia. }
  clear Hcheck.
  destruct (rec_get "monthly_rent_value" r) as [|s|z|q] eqn:Hrent; simpl.
  - specialize (Hrest errors1 new1 Hnew1 Hfind1 ltac:(lia)).
    by destruct (check errors1 r) as [[out|e] r'].
  - done.
  - destruct (z <? 0)%Z.
    + eapply (Hrest _ (new1 ++ [_])).
      * rewrite Hnew1, <-app_assoc. reflexivity.
      * apply Forall_app. split; [done|]. by repeat constructor.
      * rewrite length_app. simpl. lia.
    + apply (Hrest _ new1); [done|done|lia].
  - destruct (negb (Qle_bool 0 q)).
    + eapply (Hrest _ (new1 ++ [_])).
      * rewrite Hnew1, <-app_assoc. reflexivity.
      * apply Forall_app. split; [done|]. by repeat constructor.
      * rewrite length_app. simpl. lia.
    + apply (Hrest _ new1); [done|done|lia].
Qed.

Lemma validate_from_outcome (idx : nat) (records : list record)
    (errors : list ValidationError) :
  match (validate_from idx records errors).1 with
  | Ok out =>
      forallb record_checkable records = true
      ∧ ∃ per_record,
          length per_record = length records
          ∧ out = errors ++ concat per_record
          ∧ ∀ i es, per_record !! i = Some es →
              Forall (finding_of (idx + i)) es ∧ length es ≤ 6
  | Raise e => e = TypeError ∧ forallb record_checkable records = false
  end.
Proof.
  revert idx errors. induction records as [|r rest IH]; intros idx errors; simpl.
  - split; [done|]. exists []. split_and!; [done|by rewrite app_nil_r|done].
  - pose proof (validate_record_outcome idx errors r) as Hr.
    destruct (validate_record idx errors r) as [[errors'|e] r']; simpl in *.
    + destruct Hr as (-> & new & -> & Hnew & Hlen). simpl.
      specialize (IH (S idx) (errors ++ new)).
      destruct (validate_from (S idx) rest (errors ++ new)) as [[out|e] rest'];
        simpl in *; [|done].
      destruct IH as (Hall & per_record & Hper & -> & Hfind). split; [done|].
      exists (new :: per_record). simpl. split_and!; [by rewrite Hper|by rewrite app_assoc|].
      intros [|i] es Hes; simpl in Hes.
      * injection Hes as <-. by rewrite Nat.add_0_r.
      * replace (idx + S i) with (S idx + i) by lia. by apply Hfind.
    + destruct Hr as [-> ->]. done.
Qed.

(** X12. Whatever validate returns, its findings come grouped by record in
    the order of the records, at most six per record, each with severity
    "warning" and the index of its record.  It reports no finding of
    severity "error", so the API's validate_data answers valid = true with
    an empty error list and every finding among the warnings. *)
Theorem validate_reports_warnings_only
    (records : list record) (findings : list ValidationError) :
  (validate records).1 = Ok findings →
  (∃ per_record,
     length per_record = length records
     ∧ findings = concat per_record
     ∧ ∀ i es, per_record !! i = Some es →
         Forall (finding_of i) es ∧ length es ≤ 6)
  ∧ Forall (λ e, severity e = "warning" ∧ row_index e < length records) findings
  ∧ validate_data records
    = Ok (mkValidationReport true [] findings (length records) 0 (length findings)).
Proof.
  intros Hrun. unfold validate in Hrun.
  pose proof (validate_from_outcome 0 records []) as Hout. rewrite Hrun in Hout.
  destruct Hout as (_ & per_record & Hper & Hcat & Hfind). simpl in Hcat.
  assert (Forall (λ e, severity e = "warning" ∧ row_index e < length records) findings)
    as Hwarn.
  { rewrite Hcat. apply Forall_concat, Forall_lookup. intros i es Hes.
    destruct (Hfind i es Hes) as [Hes' _]. simpl in Hes'.
    apply lookup_lt_Some in Hes. rewrite Hper in Hes.
    eapply Forall_impl; [exact Hes'|]. intros e [Hsev Hidx]. split; [done|lia]. }
  split_and!; [by exists per_record|done|].
  unfold validate_data, validate. rewrite Hrun. simpl.
  assert (filter (λ e, severity e = "error") findings = []) as ->.
  { clear -Hwarn. induction Hwarn as [|e es [He _] _ IH]; [done|].
    rewrite filter_cons_False; [done|]. rewrite He. done. }
  assert (filter (λ e, severity e = "warning") findings = findings) as ->.
  { clear -Hwarn. induction Hwarn as [|e es [He _] _ IH]; [done|].
    rewrite filter_cons_True by done. by rewrite IH. }
  done.
Qed.

Lemma validate_reports_warnings_only_witness :
  let records : list record :=
    [ {[ "tenant_name" := VStr "Acme"; "monthly_rent_value" := VFloat (-500) ]};
      {[ "area_sqm_value" := VFloat 120 ]} ] in
  ∃ findings,
    (validate records).1 = Ok findings
    ∧ map row_index findings = [0; 1]
    ∧ map field findings = ["monthly_rent_value"; "tenant/unit identifiers"]
    ∧ validate_data records
      = Ok (mkValidationReport true [] findings 2 0 2).
Proof.
  intros records.
  assert (∃ findings, (validate records).1 = Ok findings
                      ∧ map row_index findings = [0; 1]
                      ∧ map field findings
                        = ["monthly_rent_value"; "tenant/unit identifiers"]
                      ∧ length findings = 2)
    as (findings & Hrun & Hrows & Hfields & Hlen).
  { eexists. split; [vm_compute; reflexivity|]. split; [reflexivity|].
    split; reflexivity. }
  exists findings. split; [exact Hrun|]. split; [exact Hrows|]. split; [exact Hfields|].
  destruct (validate_reports_warnings_only records findings Hrun) as (_ & _ & Hdata).
  rewrite Hlen in Hdata. exact Hdata.
Defined.

(** X13. validate returns exactly when, in every record, monthly_rent_value
    is missing, None or a number and the other three magnitude fields are
    missing, None, empty or a number; on any other list of records it
    raises TypeError, the ordering of a string against a number. *)
Theorem validate_raises_on_text_magnitudes (records : list record) :
  match (validate records).1 with
  | Ok _ => forallb record_checkable records = true
  | Raise e => e = TypeError ∧ forallb record_checkable records = false
  end.
Proof.
  unfold validate.
  pose proof (validate_from_outcome 0 records []) as Hout.
  destruct (validate_from 0 records []) as [[out|e] records']; simpl in *.
  - by destruct Hout as [Hall _].
  - done.
Qed.

(** ** DataExtractor._process_row: which keys a cell writes *)

Lemma append_suffix_neq (tag suffix : string) :
  suffix ≠ "" → tag +:+ suffix ≠ tag.
Proof.
  intros Hne Heq. apply (f_equal String.length) in Heq.
  rewrite length_append in Heq. destruct suffix; [done|]. simpl in Heq. lia.
Qed.

Lemma append_inj_l (tag s t : string) : tag +:+ s = tag +:+ t → s = t.
Proof.
  induction tag as [|c tag IH]; [done|].
  rewrite !append_cons. intros [= H]. by apply IH.
Qed.

Lemma store_parsed_unitless (canonical : string) (p : NumberWithUnit) (r : record)
    (key : string) :
  match unit p with Some u => is_empty u = true | None => True end →
  key ≠ canonical →
  store_parsed canonical p r !! key = r !! key.
Proof.
  intros Hunit Hkey. unfold store_parsed.
  destruct (unit p) as [u|]; [rewrite Hunit|]; simpl;
    repeat case_match; by rewrite ?lookup_insert_ne.
Qed.

Lemma detected_unit_none (c : cell) (p : NumberWithUnit) :
  parse c = Ok p → detected_unit c = None →
  match unit p with Some u => is_empty u = true | None => True end.
Proof.
  unfold detected_unit. intros ->. destruct (unit p) as [u|]; [|done].
  by destruct (is_empty u).
Qed.

Lemma process_columns_unitless (row : list cell) (mapped_headers : list (option string))
    (col_idx : nat) (r : record) :
  (∀ i tag c, mapped_headers !! i = Some (Some tag) → row !! (col_idx + i) = Some c →
     detected_unit c = None ∧ (tag ∈ meaningful_fields → c = CNull)) →
  Forall (λ f, not_blank_value (rec_get f r) = false) meaningful_fields →
  ∃ r', process_columns row mapped_headers col_idx r = Ok r'
        ∧ Forall (λ f, not_blank_value (rec_get f r') = false) meaningful_fields
        ∧ ∀ key, Some key ∉ mapped_headers → r' !! key = r !! key.
Proof.
  revert col_idx r.
  induction mapped_headers as [|[canonical|] rest IH]; intros col_idx r Hcells Hblank; simpl.
  - by exists r.
  - assert (∀ i tag c, rest !! i = Some (Some tag) → row !! (S col_idx + i) = Some c →
              detected_unit c = None ∧ (tag ∈ meaningful_fields → c = CNull)) as Hrest.
    { intros i tag c Htag Hc. apply (Hcells (S i) tag c); [done|].
      by replace (col_idx + S i) with (S col_idx + i) by lia. }
    destruct (length row <=? col_idx) eqn:Hlen.
    { destruct (IH (S col_idx) r Hrest Hblank) as (r' & Hrun & Hblank' & Hframe).
      exists r'. split_and!; [done|done|].
      intros key Hkey. apply Hframe. intros Hin. apply Hkey. by right. }
    apply Nat.leb_gt in Hlen. unfold iloc.
    destruct (lookup_lt_is_Some_2 row col_idx Hlen) as [c Hc]. rewrite Hc. simpl.
    destruct (parse_ok c) as [parsed Hparsed]. rewrite Hparsed. simpl.
    destruct (Hcells 0 canonical c) as [Hnone Hmissing];
      [done|by rewrite Nat.add_0_r|].
    pose proof (detected_unit_none c parsed Hparsed Hnone) as Hunit.
    destruct (IH (S col_idx) (store_parsed canonical parsed r) Hrest)
      as (r' & Hrun & Hblank' & Hframe).
    { apply Forall_forall. intros f Hf.
      destruct (decide (f = canonical)) as [->|Hne].
      - rewrite (Hmissing Hf) in Hparsed. injection Hparsed as <-.
        unfold store_parsed. cbn [unit value original_text].
        destruct (str_in canonical text_fields).
        + unfold rec_get. by rewrite lookup_insert_eq.
        + by apply (proj1 (Forall_forall _ _) Hblank).
      - unfold rec_get. rewrite store_parsed_unitless by done.
        by apply (proj1 (Forall_forall _ _) Hblank). }
    exists r'. split_and!; [done|done|].
    intros key Hkey. rewrite Hframe.
    + apply store_parsed_unitless; [done|]. intros ->. apply Hkey. by left.
    + intros Hin. apply Hkey. by right.
  - assert (∀ i tag c, rest !! i = Some (Some tag) → row !! (S col_idx + i) = Some c →
              detected_unit c = None ∧ (tag ∈ meaningful_fields → c = CNull)) as Hrest.
    { intros i tag c Htag Hc. apply (Hcells (S i) tag c); [done|].
      by replace (col_idx + S i) with (S col_idx + i) by lia. }
    destruct (IH (S col_idx) r Hrest Hblank) as (r' & Hrun & Hblank' & Hframe).
    exists r'. split_and!; [done|done|].
    intros key Hkey. apply Hframe. intros Hin. apply Hkey. by right.
Qed.

(** X14. A cell in which no unit is detected, a numeric cell for instance,
    is stored under its column's tag alone; the keys tag_value, tag_unit and
    tag_original are written only for a cell with a unit.  So a row whose
    mapped cells all lack a unit and whose cells under the columns that make
    a record meaningful are missing gives a record without meaningful data:
    the row is left out of the extraction, whatever its other cells hold. *)
Theorem unitless_row_without_identifier_is_dropped
    (mapped_headers : list (option string)) (row_idx : nat) (row : list cell) :
  (∀ i tag c, mapped_headers !! i = Some (Some tag) → row !! i = Some c →
     detected_unit c = None ∧ (tag ∈ meaningful_fields → c = CNull)) →
  (∃ r, _process_row row mapped_headers = Ok r
        ∧ (∀ key, Some key ∉ mapped_headers → r !! key = None)
        ∧ _has_meaningful_data r = false)
  ∧ row_contribution mapped_headers row_idx row = [].
Proof.
  intros Hcells.
  destruct (process_columns_unitless row mapped_headers 0 ∅) as (r & Hrun & Hblank & Hframe).
  { done. }
  { by apply Forall_forall. }
  assert (_has_meaningful_data r = false) as Hdata.
  { unfold _has_meaningful_data. apply not_true_is_false. intros Hex.
    apply existsb_exists in Hex as (f & Hf & Hnot).
    apply list_elem_of_In in Hf.
    by rewrite (proj1 (Forall_forall _ _) Hblank f Hf) in Hnot. }
  split.
  - exists r. split_and!; [done| |done].
    intros key Hkey. by rewrite Hframe.
  - unfold row_contribution, _process_row. rewrite Hrun, Hdata.
    by destruct (is_blank_row row).
Qed.

Lemma unitless_row_without_identifier_is_dropped_witness :
  let mapped_headers := [Some "tenant_name"; Some "monthly_rent"; Some "area_sqm"] in
  let row := [CNull; CFloat 1500; CInt 85] in
  _process_row row mapped_headers
  = Ok {[ "tenant_name" := VStr ""; "monthly_rent" := VFloat 1500;
          "area_sqm" := VFloat 85 ]}
  ∧ row_contribution mapped_headers 7 row = [].
Proof.
  intros mapped_headers row. split; [vm_compute; reflexivity|].
  apply (unitless_row_without_identifier_is_dropped mapped_headers 7 row).
  intros [|[|[|i]]] tag c Htag Hc; simpl in *; simplify_eq; split;
    try reflexivity; intros Hin; vm_compute in Hin; exfalso;
    repeat (apply elem_of_cons in Hin as [Hin|Hin]; [discriminate|]);
    by apply elem_of_nil in Hin.
Defined.

Lemma store_parsed_entry (canonical : string) (p : NumberWithUnit) (r : record)
    (key : string) (v : pyval) :
  store_parsed canonical p r !! key = Some v →
  column_entry canonical key v ∨ r !! key = Some v.
Proof.
  unfold store_parsed.
  destruct (unit p) as [u|] eqn:Hu; cbn [default].
  - destruct (is_empty u) eqn:Hempty; cbn [negb].
    + destruct (str_in canonical text_fields); [|destruct (value p) as [q|]].
      * destruct (decide (key = canonical)) as [->|Hne].
        -- rewrite lookup_insert_eq. intros [= <-]. left. left. split; [done|]. left. by eexists.
        -- rewrite lookup_insert_ne by done. by right.
      * destruct (decide (key = canonical)) as [->|Hne].
        -- rewrite lookup_insert_eq. intros [= <-]. left. left. split; [done|]. right. by eexists.
        -- rewrite lookup_insert_ne by done. by right.
      * destruct (negb (is_empty (original_text p))); [|by right].
        destruct (decide (key = canonical)) as [->|Hne].
        -- rewrite lookup_insert_eq. intros [= <-]. left. left. split; [done|]. left. by eexists.
        -- rewrite lookup_insert_ne by done. by right.
    + destruct (decide (key = canonical +:+ "_original")) as [->|Hne1].
      { rewrite lookup_insert_eq. intros [= <-]. left. do 3 right. split; [done|]. by eexists. }
      rewrite lookup_insert_ne by done.
      destruct (decide (key = canonical +:+ "_unit")) as [->|Hne2].
      { rewrite lookup_insert_eq. intros [= <-]. left. right. right. left.
        split; [done|]. exists u. split; [done|]. by intros ->. }
      rewrite lookup_insert_ne by done.
      destruct (decide (key = canonical +:+ "_value")) as [->|Hne3].
      { rewrite lookup_insert_eq. intros [= <-]. left. right. left. split; [done|].
        destruct (value p); [right; by eexists|by left]. }
      rewrite lookup_insert_ne by done. by right.
  - destruct (str_in canonical text_fields); [|destruct (value p) as [q|]].
    + destruct (decide (key = canonical)) as [->|Hne].
      * rewrite lookup_insert_eq. intros [= <-]. left. left. split; [done|]. left. by eexists.
      * rewrite lookup_insert_ne by done. by right.
    + destruct (decide (key = canonical)) as [->|Hne].
      * rewrite lookup_insert_eq. intros [= <-]. left. left. split; [done|]. right. by eexists.
      * rewrite lookup_insert_ne by done. by right.
    + destruct (negb (is_empty (original_text p))); [|by right].
      destruct (decide (key = canonical)) as [->|Hne].
      * rewrite lookup_insert_eq. intros [= <-]. left. left. split; [done|]. left. by eexists.
      * rewrite lookup_insert_ne by done. by right.
Qed.

Lemma process_columns_entries (row : list cell) (mapped_headers : list (option string))
    (col_idx : nat) (r r' : record) :
  process_columns row mapped_headers col_idx r = Ok r' →
  ∀ key v, r' !! key = Some v →
    (∃ tag, Some tag ∈ mapped_headers ∧ column_entry tag key v) ∨ r !! key = Some v.
Proof.
  revert col_idx r.
  induction mapped_headers as [|[canonical|] rest IH]; intros col_idx r Hrun key v Hkey;
    simpl in Hrun.
  - injection Hrun as <-. by right.
  - destruct (length row <=? col_idx).
    { destruct (IH _ _ Hrun key v Hkey) as [(tag & Htag & Hentry)|Hold]; [left|by right].
      exists tag. split; [by right|done]. }
    destruct (iloc row col_idx) as [c|e]; simpl in Hrun; [|done].
    destruct (parse c) as [parsed|e]; simpl in Hrun; [|done].
    destruct (IH _ _ Hrun key v Hkey) as [(tag & Htag & Hentry)|Hold].
    + left. exists tag. split; [by right|done].
    + destruct (store_parsed_entry _ _ _ _ _ Hold) as [Hentry|Hold']; [left|by right].
      exists canonical. split; [by left|done].
  - destruct (IH _ _ Hrun key v Hkey) as [(tag & Htag & Hentry)|Hold]; [left|by right].
    exists tag. split; [by right|done].
Qed.

(** X15. Every entry of the record _process_row builds comes from a mapped
    column: its key is the column's tag, holding a text or a float, or the
    tag followed by _value (a float or None), by _unit (a non-empty text)
    or by _original (a text).  The record holds no integer and no key of an
    unmapped column. *)
Theorem process_row_entries_follow_schema
    (row : list cell) (mapped_headers : list (option string)) (r : record) :
  _process_row row mapped_headers = Ok r →
  ∀ key v, r !! key = Some v →
    ∃ tag, Some tag ∈ mapped_headers ∧ column_entry tag key v.
Proof.
  intros Hrun key v Hkey. unfold _process_row in Hrun.
  destruct (process_columns_entries _ _ _ _ _ Hrun key v Hkey) as [Htag|Hempty]; [done|].
  by rewrite lookup_empty in Hempty.
Qed.

Lemma process_row_entries_follow_schema_witness :
  let mapped_headers := [Some "tenant_name"; None; Some "monthly_rent"; Some "area_sqm"] in
  let row := [CText " Acme GmbH "; CText "ignored"; CText "1.234,56 €"; CInt 85] in
  ∃ r, _process_row row mapped_headers = Ok r
       ∧ r !! "monthly_rent_unit" = Some (VStr "EUR")
       ∧ ∃ tag, Some tag ∈ mapped_headers
                ∧ column_entry tag "monthly_rent_unit" (VStr "EUR").
Proof.
  intros mapped_headers row.
  destruct (process_row_ok row mapped_headers) as [r Hrun].
  exists r. split; [exact Hrun|].
  assert (r !! "monthly_rent_unit" = Some (VStr "EUR")) as Hunit.
  { vm_compute in Hrun. injection Hrun as <-. reflexivity. }
  split; [exact Hunit|].
  exact (process_row_entries_follow_schema row mapped_headers r Hrun
           "monthly_rent_unit" (VStr "EUR") Hunit).
Defined.

(** ** RentRollExcelReader.read_excel: counts and provenance *)

Lemma extract_rows_source_row (mapped_headers : list (option string)) (row_idx : nat)
    (rows : grid) (records out : list record) (low : Z) :
  (low <= Z.of_nat row_idx + 1)%Z →
  Forall (λ r : record, ∃ n, r !! "_source_row" = Some (VInt n) ∧ (low <= n)%Z) records →
  extract_rows mapped_headers row_idx rows records = Ok out →
  Forall (λ r : record, ∃ n, r !! "_source_row" = Some (VInt n) ∧ (low <= n)%Z) out.
Proof.
  revert row_idx records. induction rows as [|row rest IH];
    intros row_idx records Hlow Hrecords Hrun; simpl in Hrun.
  - by injection Hrun as <-.
  - destruct (iloc row 0) as [c0|e]; simpl in Hrun; [|done].
    destruct (_is_summary_row (cell_text c0)); [by injection Hrun as <-|].
    destruct (is_blank_row row); [apply (IH (S row_idx) records); [lia|done|done]|].
    destruct (_process_row row mapped_headers) as [fields|e]; simpl in Hrun; [|done].
    destruct (_has_meaningful_data fields).
    + eapply (IH (S row_idx)); [lia| |exact Hrun].
      apply Forall_app. split; [done|]. apply Forall_singleton.
      eexists. rewrite lookup_insert_eq. split; [done|lia].
    + apply (IH (S row_idx) records); [lia|done|done].
Qed.

Lemma sheet_records_source_row (synonyms : list (string * list string)) (wb : workbook)
    (s : string) :
  Forall (λ r : record, ∃ n, r !! "_source_row" = Some (VInt n) ∧ (2 <= n)%Z)
    (sheet_records synonyms wb s).
Proof.
  unfold sheet_records, extract_sheet.
  destruct (read_sheet wb s) as [df|e]; simpl; [|done].
  destruct (find_header_row synonyms df) as [[header_row raw_headers]|]; [|done].
  destruct (if 0 <? header_row then _ else _) as [headers|e]; simpl; [|done].
  destruct (extract_data synonyms df header_row headers) as [records|e] eqn:Hrun;
    simpl; [|done].
  unfold extract_data in Hrun.
  eapply extract_rows_source_row; [|by apply Forall_nil|exact Hrun]. lia.
Qed.

Lemma stamp_lookup (file_name sheet_name timestamp : string) (r : record) :
  stamp file_name sheet_name timestamp r !! "_source_file" = Some (VStr file_name)
  ∧ stamp file_name sheet_name timestamp r !! "_source_sheet" = Some (VStr sheet_name)
  ∧ stamp file_name sheet_name timestamp r !! "_extraction_timestamp"
    = Some (VStr timestamp)
  ∧ stamp file_name sheet_name timestamp r !! "_source_row" = r !! "_source_row".
Proof.
  unfold stamp.
  split_and!; repeat (rewrite lookup_insert_eq || rewrite lookup_insert_ne by done); done.
Qed.

(** The provenance a record of a result carries. *)
Lemma stamped_records_provenance (synonyms : list (string * list string)) (wb : workbook)
    (file_name : string) (clock : nat → string) (n : nat) (sheets : list string) :
  Forall (λ r : record,
            r !! "_source_file" = Some (VStr file_name)
            ∧ (∃ s k, s ∈ sheets ∧ sheet_fails synonyms wb s = false
                      ∧ r !! "_source_sheet" = Some (VStr s)
                      ∧ n ≤ k < n + length (filter (λ s, sheet_fails synonyms wb s = false)
                                              sheets)
                      ∧ r !! "_extraction_timestamp" = Some (VStr (clock k)))
            ∧ ∃ row, r !! "_source_row" = Some (VInt row) ∧ (2 <= row)%Z)
    (stamped_records synonyms wb file_name clock n sheets).
Proof.
  revert n. induction sheets as [|s rest IH]; intros n; simpl; [done|].
  apply Forall_app. split.
  - apply Forall_fmap.
    destruct (sheet_fails synonyms wb s) eqn:Hfails.
    { unfold sheet_records. unfold sheet_fails in Hfails.
      by destruct (extract_sheet synonyms wb s) as [[?|]|]. }
    eapply Forall_impl; [apply sheet_records_source_row|]. simpl.
    intros r (row & Hrow & Hrange).
    destruct (stamp_lookup file_name s (clock n) r) as (Hfile & Hsheet & Htime & Hsource).
    split; [done|]. split.
    + exists s, n. split_and!; [by left|done|done|lia| |done].
      rewrite filter_cons_True by done. simpl. lia.
    + exists row. by rewrite Hsource.
  - eapply Forall_impl; [apply IH|]. simpl.
    intros r (Hfile & (s' & k & Hs' & Hok & Hsheet & Hk & Htime) & Hrow).
    split; [done|]. split; [|done].
    exists s', k. split_and!; [by right|done|done| | |done].
    + destruct (sheet_fails synonyms wb s); lia.
    + destruct (sheet_fails synonyms wb s) eqn:Hfails.
      * rewrite filter_cons_False by (by rewrite Hfails). lia.
      * rewrite filter_cons_True by done. simpl. lia.
Qed.

Lemma warnings_count (synonyms : list (string * list string)) (wb : workbook)
    (sheets : list string) :
  length (filter (λ s, sheet_fails synonyms wb s = false) sheets)
  + length (omap (sheet_warning synonyms wb) sheets)
  = length sheets.
Proof.
  induction sheets as [|s rest IH]; simpl; [done|].
  assert (sheet_fails synonyms wb s
          = match extract_sheet synonyms wb s with Ok (Some _) => false | _ => true end)
    as Hfails by done.
  unfold sheet_warning at 1.
  destruct (extract_sheet synonyms wb s) as [[records|]|e].
  - rewrite filter_cons_True by done. simpl. f_equal. exact IH.
  - rewrite filter_cons_False by (by rewrite Hfails). simpl.
    rewrite Nat.add_succ_r. f_equal. exact IH.
  - rewrite filter_cons_False by (by rewrite Hfails). simpl.
    rewrite Nat.add_succ_r. f_equal. exact IH.
Qed.

Lemma read_excel_fields (synonyms : list (string * list string)) (wb : workbook)
    (file_name : string) (clock : nat → string) (process_all_sheets : bool)
    (sheets : list string) :
  sheets_to_process synonyms wb process_all_sheets = Ok sheets →
  sheets ≠ [] →
  let records := map (λ r, (resolve_record r).2)
                   (stamped_records synonyms wb file_name clock 0 sheets) in
  let processed := length (filter (λ s, sheet_fails synonyms wb s = false) sheets) in
  read_excel synonyms (Ok wb) file_name clock process_all_sheets
  = Ok (mkExtractionResult
          (0 <? length records) records
          ("Extracted " +:+ int_str (Z.of_nat (length records))
           +:+ " records from " +:+ int_str (Z.of_nat processed) +:+ " sheet(s)")
          (omap (sheet_warning synonyms wb) sheets)
          processed
          (length records)).
Proof.
  intros Hsheets Hne records processed. unfold read_excel. rewrite Hsheets. simpl.
  destruct sheets as [|s rest]; [done|].
  by rewrite process_sheets_spec, resolve_all_spec.
Qed.

(** X16. For a workbook that opens and a non-empty choice of sheets,
    read_excel accounts for every chosen sheet: the sheets processed and the
    warnings together number the chosen sheets, and total_rows_extracted is
    the number of records returned.  Every record returned carries its
    provenance: the file name, the name of a chosen sheet that did not fail,
    the time stamp taken for that sheet, and an Excel row number of at least
    2; identity resolution leaves these four keys alone. *)
Theorem read_excel_counts_and_provenance
    (synonyms : list (string * list string)) (wb : workbook)
    (file_name : string) (clock : nat → string) (process_all_sheets : bool)
    (sheets : list string) :
  sheets_to_process synonyms wb process_all_sheets = Ok sheets →
  sheets ≠ [] →
  ∃ res, read_excel synonyms (Ok wb) file_name clock process_all_sheets = Ok res
    ∧ sheets_processed res + length (warnings res) = length sheets
    ∧ total_rows_extracted res = length (data res)
    ∧ Forall (λ r : record,
                r !! "_source_file" = Some (VStr file_name)
                ∧ (∃ s k, s ∈ sheets ∧ sheet_fails synonyms wb s = false
                          ∧ r !! "_source_sheet" = Some (VStr s)
                          ∧ k < sheets_processed res
                          ∧ r !! "_extraction_timestamp" = Some (VStr (clock k)))
                ∧ ∃ row, r !! "_source_row" = Some (VInt row) ∧ (2 <= row)%Z)
        (data res).
Proof.
  intros Hsheets Hne. eexists. split; [by apply read_excel_fields|]. simpl.
  split; [apply warnings_count|]. split; [done|].
  apply Forall_fmap.
  eapply Forall_impl; [apply (stamped_records_provenance synonyms wb file_name clock 0)|].
  simpl. intros r (Hfile & (s & k & Hs & Hok & Hsheet & Hk & Htime) & Hrow).
  assert (∀ key, key ∈ ["_source_file"; "_source_sheet"; "_extraction_timestamp";
                        "_source_row"] →
            (resolve_record r).2 !! key = r !! key) as Hframe.
  { intros key Hkey. apply resolve_record_identity_frame. intros Hid.
    unfold identity_keys in Hid.
    repeat (apply elem_of_cons in Hkey as [->|Hkey];
            [repeat (apply elem_of_cons in Hid as [Hid|Hid]; [done|]);
             by apply elem_of_nil in Hid|]).
    by apply elem_of_nil in Hkey. }
  rewrite !Hframe by repeat constructor.
  split; [done|]. split; [|done].
  exists s, k. split_and!; [done|done|done|lia|done].
Qed.

Lemma read_excel_counts_and_provenance_witness :
  let good : grid :=
    [[CText "Tenant"; CText "Monthly Rent"]; [CText "Acme"; CText "1.000 €"]] in
  let lone : grid := [[CText "Tenant"; CText "bar"]; [CText "x"; CText "y"]] in
  let wb : workbook := [("North", Ok good); ("Misc", Ok lone); ("South", Ok good)] in
  ∃ res, read_excel DEFAULT_SYNONYMS (Ok wb) "roll.xlsx" (λ k, int_str (Z.of_nat k)) true
         = Ok res
    ∧ sheets_processed res = 2 ∧ length (warnings res) = 1
    ∧ map (rec_get "_source_sheet") (data res) = [VStr "North"; VStr "South"]
    ∧ map (rec_get "_extraction_timestamp") (data res) = [VStr "0"; VStr "1"].
Proof.
  intros good lone wb.
  destruct (read_excel_counts_and_provenance DEFAULT_SYNONYMS wb "roll.xlsx"
              (λ k, int_str (Z.of_nat k)) true ["North"; "Misc"; "South"])
    as (res & Hres & _).
  - vm_compute. reflexivity.
  - discriminate.
  - exists res. split; [exact Hres|].
    vm_compute in Hres. injection Hres as <-. vm_compute. done.
Defined.

(** ** SheetSelector: which sheets are chosen *)

(** X17. The sheets get_all_data_sheets chooses are sheets of the workbook,
    in workbook order; none is chosen only for an empty workbook.  When some
    sheet is neither skipped by name nor without recognisable header cells,
    exactly the sheets of that kind are chosen.  A sheet whose name asks for
    skipping is chosen only when every sheet of the workbook does, and then
    the choice is the first sheet alone. *)
Theorem data_sheets_are_chosen_by_name_then_headers
    (synonyms : list (string * list string)) (wb : workbook) :
  let chosen := get_all_data_sheets synonyms wb in
  let qualifies := λ s, should_skip_sheet s = false
                        ∧ has_header_cells synonyms wb s = true in
  chosen `sublist_of` sheet_names wb
  ∧ (chosen = [] ↔ wb = [])
  ∧ ((∃ s, s ∈ sheet_names wb ∧ qualifies s) →
     chosen = filter qualifies (sheet_names wb))
  ∧ ((∃ s, s ∈ chosen ∧ should_skip_sheet s = true) →
     Forall (λ s, should_skip_sheet s = true) (sheet_names wb)
     ∧ chosen = take 1 (sheet_names wb)).
Proof.
  intros chosen qualifies. unfold chosen, get_all_data_sheets.
  fold qualifies.
  set (names := sheet_names wb).
  assert (names = [] ↔ wb = []) as Hnames.
  { unfold names, sheet_names. by destruct wb. }
  destruct (filter qualifies names) as [|q qs] eqn:Hq.
  - destruct (filter (λ s, should_skip_sheet s = false) names) as [|b bs] eqn:Hb.
    + split_and!.
      * apply sublist_take.
      * rewrite <-Hnames. by destruct names.
      * intros (s & Hs & Hqual). exfalso.
        by apply (filter_nil_not_elem_of _ _ s Hq).
      * intros _. split; [|done]. apply Forall_forall. intros s Hs.
        destruct (should_skip_sheet s) eqn:Hskip; [done|]. exfalso.
        by apply (filter_nil_not_elem_of _ _ s Hb).
    + split_and!.
      * rewrite <-Hb. apply sublist_filter.
      * rewrite <-Hnames. split; [done|]. intros Hnil. by rewrite Hnil in Hb.
      * intros (s & Hs & Hqual). exfalso.
        by apply (filter_nil_not_elem_of _ _ s Hq).
      * intros (s & Hs & Hskip). exfalso. rewrite <-Hb in Hs.
        apply list_elem_of_filter in Hs as [Hs _]. by rewrite Hs in Hskip.
  - split_and!.
    + rewrite <-Hq. apply sublist_filter.
    + rewrite <-Hnames. split; [done|]. intros Hnil. by rewrite Hnil in Hq.
    + done.
    + intros (s & Hs & Hskip). exfalso. rewrite <-Hq in Hs.
      apply list_elem_of_filter in Hs as [[Hs _] _]. by rewrite Hs in Hskip.
Qed.

Lemma sheet_score_nonneg (synonyms : list (string * list string)) (wb : workbook)
    (s : string) :
  (0 <= sheet_score synonyms wb s)%Z.
Proof.
  unfold sheet_score.
  destruct (is_likely_rent_roll s); destruct (read_sheet_head wb s); lia.
Qed.

Lemma select_best_loop_spec (synonyms : list (string * list string)) (wb : workbook)
    (names : list string) (best_sheet : option string) (best_score : Z) :
  let r := select_best_loop synonyms wb names best_sheet best_score in
  (r = best_sheet
   ∧ Forall (λ s, should_skip_sheet s = false →
                  (sheet_score synonyms wb s <= best_score)%Z) names)
  ∨ ∃ before s after,
      names = before ++ s :: after ∧ r = Some s
      ∧ should_skip_sheet s = false
      ∧ (best_score < sheet_score synonyms wb s)%Z
      ∧ Forall (λ s', should_skip_sheet s' = false →
                      (sheet_score synonyms wb s' < sheet_score synonyms wb s)%Z) before
      ∧ Forall (λ s', should_skip_sheet s' = false →
                      (sheet_score synonyms wb s' <= sheet_score synonyms wb s)%Z) after.
Proof.
  revert best_sheet best_score.
  induction names as [|name rest IH]; intros best_sheet best_score; simpl.
  { left. by split. }
  destruct (should_skip_sheet name) eqn:Hskip.
  { destruct (IH best_sheet best_score)
      as [[Hr Hall]|(before & s & after & -> & Hr & Hs & Hgt & Hbefore & Hafter)].
    - left. split; [done|]. constructor; [|done]. intros Hno. by rewrite Hskip in Hno.
    - right. exists (name :: before), s, after. split_and!; try done.
      constructor; [|done]. intros Hno. by rewrite Hskip in Hno. }
  assert ((match read_sheet_head wb name with
           | Ok df => ((if is_likely_rent_roll name then 10 else 0)
                       + Z.of_nat (_count_header_matches synonyms df))%Z
           | Raise _ => if is_likely_rent_roll name then 10%Z else 0%Z
           end) = sheet_score synonyms wb name) as ->.
  { unfold sheet_score. destruct (read_sheet_head wb name); [done|lia]. }
  destruct (best_score <? sheet_score synonyms wb name)%Z eqn:Hcmp.
  - apply Z.ltb_lt in Hcmp.
    destruct (IH (Some name) (sheet_score synonyms wb name))
      as [[Hr Hall]|(before & s & after & -> & Hr & Hs & Hgt & Hbefore & Hafter)].
    + right. exists [], name, rest. split_and!; try done.
    + right. exists (name :: before), s, after. split_and!; try done; [lia|].
      constructor; [|done]. intros _. lia.
  - apply Z.ltb_ge in Hcmp.
    destruct (IH best_sheet best_score)
      as [[Hr Hall]|(before & s & after & -> & Hr & Hs & Hgt & Hbefore & Hafter)].
    + left. split; [done|]. constructor; [|done]. intros _. lia.
    + right. exists (name :: before), s, after. split_and!; try done.
      constructor; [|done]. intros _. lia.
Qed.

(** X18. select_best_sheet raises IndexError on a workbook without sheets
    and returns the only sheet of a one-sheet workbook whatever its name.
    With more sheets it returns the first sheet when every name asks for
    skipping; otherwise the sheet that is not skipped and has the highest
    score, the earliest such sheet on a tie (ten points for a rent-roll
    keyword in the name, one per recognised header cell in the first thirty
    rows, none for a sheet that cannot be read). *)
Theorem select_best_sheet_is_first_best
    (synonyms : list (string * list string)) (wb : workbook) :
  match sheet_names wb with
  | [] => select_best_sheet synonyms wb = Raise IndexError
  | [only] => select_best_sheet synonyms wb = Ok only
  | first :: _ =>
      if forallb should_skip_sheet (sheet_names wb)
      then select_best_sheet synonyms wb = Ok first
      else
        ∃ before s after,
          sheet_names wb = before ++ s :: after
          ∧ should_skip_sheet s = false
          ∧ Forall (λ s', should_skip_sheet s' = false →
                      (sheet_score synonyms wb s' < sheet_score synonyms wb s)%Z) before
          ∧ Forall (λ s', should_skip_sheet s' = false →
                      (sheet_score synonyms wb s' <= sheet_score synonyms wb s)%Z) after
          ∧ select_best_sheet synonyms wb = Ok (if is_empty s then first else s)
  end.
Proof.
  unfold select_best_sheet.
  destruct (sheet_names wb) as [|first [|second rest]] eqn:Hnames; [done|done|].
  cbv beta iota.
  remember (first :: second :: rest) as names eqn:Hdef.
  pose proof (select_best_loop_spec synonyms wb names None (-1)) as Hloop.
  cbv zeta in Hloop.
  destruct Hloop as [[Hr Hall]|(before & s & after & Hsplit & Hr & Hs & _ & Hbefore & Hafter)].
  - assert (forallb should_skip_sheet names = true) as ->.
    { apply forallb_forall. intros s Hs%list_elem_of_In.
      destruct (should_skip_sheet s) eqn:Hskip; [done|].
      pose proof (proj1 (Forall_forall _ _) Hall s Hs Hskip).
      pose proof (sheet_score_nonneg synonyms wb s). lia. }
    by rewrite Hr.
  - assert (forallb should_skip_sheet names = false) as ->.
    { apply not_true_is_false. intros Hall.
      rewrite forallb_forall in Hall.
      specialize (Hall s). rewrite Hs in Hall.
      assert (In s names) as Hin; [|by specialize (Hall Hin)].
      apply list_elem_of_In. rewrite Hsplit. apply elem_of_app. right. by left. }
    exists before, s, after. split_and!; try done.
    rewrite Hr. by destruct (is_empty s).
Qed.

(** ** HeaderMapper.detect_language *)

Lemma count_words_spec (lang : string) (words : list string) (h : string)
    (scores : list (string * nat)) :
  count_words lang words h scores
  = map (λ '(l, v), if str_eqb l lang then (l, v + word_hits words h) else (l, v)) scores.
Proof.
  revert scores. unfold word_hits.
  induction words as [|w ws IH]; intros scores; simpl.
  - induction scores as [|[l v] scores IHs]; simpl; [done|].
    rewrite <-IHs, Nat.add_0_r. by destruct (str_eqb l lang).
  - destruct (contains w h) eqn:Hw.
    + rewrite filter_cons_True by done. rewrite IH. unfold bump.
      rewrite List.map_map. apply List.map_ext. intros [l v].
      destruct (str_eqb l lang) eqn:Hl; rewrite ?Hl; [|done].
      simpl. by rewrite Nat.add_succ_r.
    + rewrite filter_cons_False by (by rewrite Hw). apply IH.
Qed.

Lemma lang_scores_spec (headers : list string) (b c d e f : nat) :
  fold_left score_header headers
    [("en", 0); ("de", b); ("fr", c); ("it", d); ("nl", e); ("pl", f); ("sv", 0)]
  = [("en", 0); ("de", b + language_hits de_words headers);
     ("fr", c + language_hits fr_words headers);
     ("it", d + language_hits it_words headers);
     ("nl", e + language_hits nl_words headers);
     ("pl", f + language_hits pl_words headers); ("sv", 0)].
Proof.
  revert b c d e f. unfold language_hits.
  induction headers as [|h headers IH]; intros b c d e f.
  - simpl. by rewrite !Nat.add_0_r.
  - cbn [fold_left]. unfold score_header at 2.
    rewrite !count_words_spec. cbn [map str_eqb String.eqb Ascii.eqb Bool.eqb].
    rewrite IH. cbn [map sum_list sum_list_with]. by rewrite !Nat.add_assoc.
Qed.

Lemma first_maximum (rest : list (string * nat)) (first : string * nat) :
  let r := fold_left (λ best entry, if best.2 <? entry.2 then entry else best) rest first in
  (r = first ∧ Forall (λ e, e.2 ≤ first.2) rest)
  ∨ ∃ before e after,
      rest = before ++ e :: after ∧ r = e ∧ first.2 < e.2
      ∧ Forall (λ x, x.2 < e.2) before ∧ Forall (λ x, x.2 ≤ e.2) after.
Proof.
  revert first. induction rest as [|entry rest IH]; intros first; simpl.
  { left. by split. }
  destruct (first.2 <? entry.2) eqn:Hcmp.
  - apply Nat.ltb_lt in Hcmp.
    destruct (IH entry) as [[Hr Hall]|(before & e & after & -> & Hr & Hgt & Hb & Ha)].
    + right. exists [], entry, rest. split_and!; try done.
    + right. exists (entry :: before), e, after. split_and!; try done; [lia|].
      constructor; [lia|done].
  - apply Nat.ltb_ge in Hcmp.
    destruct (IH first) as [[Hr Hall]|(before & e & after & -> & Hr & Hgt & Hb & Ha)].
    + left. split; [done|]. by constructor.
    + right. exists (entry :: before), e, after. split_and!; try done.
      constructor; [lia|done].
Qed.

Lemma language_hits_zero (words headers : list string) :
  language_hits words headers = 0
  ↔ ∀ h w, h ∈ headers → w ∈ words → contains w (lower h) = false.
Proof.
  unfold language_hits, word_hits. induction headers as [|h headers IH]; simpl.
  - split; [|done]. intros _ h w Hh. by apply elem_of_nil in Hh.
  - split.
    + intros Hsum h' w [->|Hh']%elem_of_cons Hw.
      * destruct (contains w (lower h)) eqn:Hc; [|done].
        assert (w ∈ filter (λ word, contains word (lower h) = true) words) as Hin
          by by apply list_elem_of_filter.
        destruct (filter _ words); [by apply elem_of_nil in Hin|simpl in Hsum; lia].
      * apply IH; [lia|done|done].
    + intros Hnone.
      assert (filter (λ word, contains word (lower h) = true) words = []) as ->.
      { destruct (filter _ words) as [|w ws] eqn:Hf; [done|].
        assert (w ∈ filter (λ word, contains word (lower h) = true) words) as Hin
          by (rewrite Hf; by left).
        apply list_elem_of_filter in Hin as [Hc Hw].
        rewrite (Hnone h w) in Hc; [done|by left|done]. }
      simpl. apply IH. intros h' w Hh' Hw. apply Hnone; [by right|done].
Qed.

(** X19. detect_language answers "en" exactly when none of its German,
    French, Italian, Dutch or Polish keywords occurs in any lowered header;
    otherwise it answers the language whose keywords occur most often, the
    earliest of de, fr, it, nl, pl on a tie.  English and Swedish have no
    keywords: the answer is never "sv". *)
Theorem detect_language_is_first_most_frequent (headers : list string) :
  (detect_language headers = "en"
   ↔ ∀ h w, h ∈ headers →
       w ∈ de_words ++ fr_words ++ it_words ++ nl_words ++ pl_words →
       contains w (lower h) = false)
  ∧ (detect_language headers = "en"
     ∨ ∃ before lang hits after,
         language_table headers = before ++ (lang, hits) :: after
         ∧ detect_language headers = lang
         ∧ 0 < hits
         ∧ Forall (λ e, e.2 < hits) before ∧ Forall (λ e, e.2 ≤ hits) after)
  ∧ detect_language headers ≠ "sv".
Proof.
  assert (fold_left score_header headers initial_lang_scores
          = ("en", 0) :: language_table headers ++ [("sv", 0)]) as Hscores.
  { unfold initial_lang_scores. by rewrite lang_scores_spec. }
  assert (Forall (λ e, e.1 ∈ ["de"; "fr"; "it"; "nl"; "pl"]) (language_table headers))
    as Hlangs.
  { unfold language_table. repeat constructor. }
  assert (Forall (λ e, e.2 = 0) (language_table headers)
          ↔ ∀ h w, h ∈ headers →
              w ∈ de_words ++ fr_words ++ it_words ++ nl_words ++ pl_words →
              contains w (lower h) = false) as Hzero.
  { unfold language_table. rewrite !Forall_cons, Forall_nil. cbn [snd].
    rewrite !language_hits_zero. split.
    - intros (Hde & Hfr & Hit & Hnl & Hpl & _) h w Hh Hw.
      rewrite !elem_of_app in Hw.
      destruct Hw as [?|[?|[?|[?|?]]]]; eauto.
    - intros Hnone. split_and!; try done; intros h w Hh Hw; apply Hnone;
        rewrite ?elem_of_app; eauto 10. }
  assert (detect_language headers = "en" ∧ Forall (λ e, e.2 = 0) (language_table headers)
          ∨ ¬ Forall (λ e, e.2 = 0) (language_table headers)
            ∧ ∃ before lang hits after,
                language_table headers = before ++ (lang, hits) :: after
                ∧ detect_language headers = lang
                ∧ 0 < hits
                ∧ Forall (λ e, e.2 < hits) before ∧ Forall (λ e, e.2 ≤ hits) after)
    as Hcases.
  { unfold detect_language. rewrite Hscores.
    generalize (language_table headers) as table. intros table.
    cbn [forallb snd Nat.eqb andb max_key].
    pose proof (first_maximum (table ++ [("sv", 0)]) ("en", 0)) as Hmax.
    cbv zeta in Hmax. cbn [snd] in Hmax.
    destruct Hmax as [[Hr Hall]|(before & e & after & Hsplit & Hr & Hgt & Hb & Ha)].
    - apply Forall_app in Hall as [Hall _].
      assert (Forall (λ e : string * nat, e.2 = 0) table) as Hnil.
      { eapply Forall_impl; [exact Hall|]. simpl. intros; lia. }
      left. split; [|done].
      assert (forallb (λ entry : string * nat, entry.2 =? 0) (table ++ [("sv", 0)]) = true)
        as ->; [|done].
      apply forallb_forall. intros x Hx%list_elem_of_In.
      apply elem_of_app in Hx as [Hx|Hx].
      + apply Nat.eqb_eq. by apply (proj1 (Forall_forall _ _) Hnil).
      + apply list_elem_of_singleton in Hx as ->. done.
    - destruct after as [|last after _] using rev_ind.
      { apply app_inj_tail in Hsplit as [_ <-]. simpl in Hgt. lia. }
      rewrite app_comm_cons, app_assoc in Hsplit.
      apply app_inj_tail in Hsplit as [-> _].
      apply Forall_app in Ha as [Ha _].
      assert (forallb (λ entry : string * nat, entry.2 =? 0)
                ((before ++ e :: after) ++ [("sv", 0)]) = false) as ->.
      { apply not_true_is_false. intros Hall. rewrite forallb_forall in Hall.
        specialize (Hall e). rewrite Nat.eqb_eq in Hall.
        assert (e.2 = 0); [|lia]. apply Hall, list_elem_of_In.
        rewrite !elem_of_app. left. right. by left. }
      right. split.
      { intros Hnil. apply Forall_app in Hnil as [_ Hnil].
        apply Forall_cons in Hnil as [He _]. lia. }
      rewrite Hr. destruct e as [lang hits]. simpl in *.
      exists before, lang, hits, after. split_and!; done. }
  split_and!.
  - rewrite <-Hzero. destruct Hcases as [[Hen Hnil]|[Hnot Hmax]]; [done|].
    split; [|done]. intros Hen.
    destruct Hmax as (before & lang & hits & after & Hsplit & Hlang & _).
    rewrite Hsplit in Hlangs. apply Forall_app in Hlangs as [_ Hlangs].
    apply Forall_cons in Hlangs as [Hin _]. simpl in Hin.
    rewrite <-Hlang, Hen in Hin.
    repeat (apply elem_of_cons in Hin as [Hin|Hin]; [done|]).
    by apply elem_of_nil in Hin.
  - destruct Hcases as [[Hen _]|[_ Hmax]]; [by left|by right].
  - destruct Hcases as [[-> _]|[_ Hmax]]; [done|].
    destruct Hmax as (before & lang & hits & after & Hsplit & Hlang & _).
    rewrite Hsplit in Hlangs. apply Forall_app in Hlangs as [_ Hlangs].
    apply Forall_cons in Hlangs as [Hin _]. simpl in Hin.
    rewrite Hlang. intros ->.
    repeat (apply elem_of_cons in Hin as [Hin|Hin]; [done|]).
    by apply elem_of_nil in Hin.
Qed.

(** ** The upload filter of the API server *)

Lemma has_char_app (c : ascii) (s t : string) :
  has_char c (s +:+ t) = has_char c s || has_char c t.
Proof.
  induction s as [|x s IH]; [done|].
  rewrite append_cons. simpl. rewrite IH. by rewrite orb_assoc.
Qed.

Lemma after_last_none (c : ascii) (s : string) :
  after_last c s = None ↔ has_char c s = false.
Proof.
  induction s as [|x s IH]; simpl; [done|].
  destruct (after_last c s) as [t|].
  - split; [done|]. intros [_ H]%orb_false_iff. by apply IH in H.
  - destruct (Ascii.eqb x c); simpl; [done|]. split; [|done]. intros _. by apply IH.
Qed.

Lemma after_last_some (c : ascii) (s t : string) :
  after_last c s = Some t
  ↔ ∃ stem, s = stem +:+ String c t ∧ has_char c t = false.
Proof.
  revert t. induction s as [|x s IH]; intros t; simpl.
  - split; [done|]. intros (stem & Hs & _). by destruct stem.
  - destruct (after_last c s) as [t'|] eqn:Hlast.
    + split.
      * intros [= <-]. destruct (proj1 (IH t') eq_refl) as (stem & -> & Ht).
        exists (String x stem). by rewrite append_cons.
      * intros (stem & Hs & Ht). destruct stem as [|y stem].
        -- rewrite append_nil in Hs. injection Hs as -> ->.
           apply after_last_none in Ht. by rewrite Ht in Hlast.
        -- rewrite append_cons in Hs. injection Hs as -> ->.
           apply (proj2 (IH t)). by exists stem.
    + apply after_last_none in Hlast.
      destruct (Ascii.eqb x c) eqn:Hx.
      * apply ascii_eqb_eq in Hx as ->. split.
        -- intros [= <-]. exists "". by rewrite append_nil.
        -- intros (stem & Hs & Ht). destruct stem as [|y stem].
           ++ rewrite append_nil in Hs. by injection Hs as ->.
           ++ rewrite append_cons in Hs. injection Hs as -> ->.
              rewrite has_char_app in Hlast. simpl in Hlast.
              rewrite ascii_eqb_refl in Hlast. simpl in Hlast.
              by rewrite orb_true_r in Hlast.
      * split; [done|]. intros (stem & Hs & Ht). destruct stem as [|y stem].
        -- rewrite append_nil in Hs. injection Hs as -> ->.
           by rewrite ascii_eqb_refl in Hx.
        -- rewrite append_cons in Hs. injection Hs as -> ->.
           rewrite has_char_app in Hlast. simpl in Hlast.
           rewrite ascii_eqb_refl in Hlast. simpl in Hlast.
           by rewrite orb_true_r in Hlast.
Qed.

(** X20. allowed_file never raises.  It accepts a file name exactly when the
    name has a dot and the text after its last dot, lowered, is one of the
    allowed extensions: what precedes the last dot plays no role (it may be
    empty or hold further dots), and a name without a dot is refused even if
    it equals an allowed extension. *)
Theorem allowed_file_tests_last_extension
    (filename : string) (allowed_extensions : gset string) :
  ∃ accepted, allowed_file filename allowed_extensions = Ok accepted
    ∧ (accepted = true
       ↔ ∃ stem extension,
           filename = stem +:+ "." +:+ extension
           ∧ has_char "." extension = false
           ∧ lower extension ∈ allowed_extensions).
Proof.
  unfold allowed_file, rsplit_last.
  destruct (is_empty filename) eqn:Hempty.
  { exists false. split; [done|]. split; [done|].
    intros (stem & extension & -> & _). apply is_empty_true in Hempty.
    destruct stem; [by rewrite append_nil in Hempty|by rewrite append_cons in Hempty]. }
  destruct (has_char "." filename) eqn:Hdot.
  - destruct (after_last "." filename) as [extension|] eqn:Hlast.
    + simpl. eexists. split; [done|].
      apply after_last_some in Hlast as (stem & -> & Hext).
      rewrite bool_decide_eq_true. split.
      * intros Hin. by exists stem, extension.
      * intros (stem' & extension' & Hsame & Hext' & Hin).
        assert (after_last "." (stem +:+ String "." extension) = Some extension') as H1.
        { apply after_last_some. exists stem'. split; [|done].
          rewrite Hsame. by rewrite append_cons, append_nil. }
        assert (after_last "." (stem +:+ String "." extension) = Some extension) as H2.
        { apply after_last_some. by exists stem. }
        rewrite H1 in H2. by injection H2 as <-.
    + apply after_last_none in Hlast. by rewrite Hlast in Hdot.
  - exists false. split; [done|]. split; [done|].
    intros (stem & extension & -> & _).
    rewrite !has_char_app in Hdot. simpl in Hdot. by rewrite orb_true_r in Hdot.
Qed.

(** ** Validation of extracted data *)

Lemma match_synonyms_tag (canonical : string) (synonyms : list string)
    (normalized tag : string) :
  match_synonyms canonical synonyms normalized = Some tag → tag = canonical.
Proof.
  induction synonyms as [|syn rest IH]; simpl; [done|].
  repeat case_match; try done; by intros [= <-].
Qed.

Lemma map_normalized_tag (table : list (string * list string)) (normalized tag : string) :
  map_normalized table normalized = Some tag → tag ∈ map fst table.
Proof.
  induction table as [|[canonical synonyms] table IH]; simpl; [done|].
  destruct (match_synonyms canonical synonyms normalized) as [t|] eqn:Hhit.
  - intros [= ->]. apply match_synonyms_tag in Hhit as ->. left.
  - intros Hrest. right. by apply IH.
Qed.

Lemma map_header_tag (table : list (string * list string)) (raw tag : string) :
  map_header table raw = Some tag → tag ∈ map fst table.
Proof.
  unfold map_header. destruct (is_empty (normalize_header raw)); [done|].
  apply map_normalized_tag.
Qed.

Lemma column_entry_magnitude (tag key : string) (v : pyval) :
  tag ∉ magnitude_fields → key ∈ magnitude_fields → column_entry tag key v →
  v = VNone ∨ ∃ q, v = VFloat q.
Proof.
  intros Htag Hkey [[-> _]|[[_ Hv]|[[-> _]|[-> _]]]]; [done|done| |].
  - exfalso. assert (last_char (tag +:+ "_unit") = Some "t"%char) as Hlast
      by by rewrite last_char_app.
    unfold magnitude_fields in Hkey.
    repeat (apply elem_of_cons in Hkey as [Hkey|Hkey];
            [by rewrite Hkey in Hlast|]).
    by apply elem_of_nil in Hkey.
  - exfalso. assert (last_char (tag +:+ "_original") = Some "l"%char) as Hlast
      by by rewrite last_char_app.
    unfold magnitude_fields in Hkey.
    repeat (apply elem_of_cons in Hkey as [Hkey|Hkey];
            [by rewrite Hkey in Hlast|]).
    by apply elem_of_nil in Hkey.
Qed.

Lemma magnitude_key_facts (key : string) :
  key ∈ magnitude_fields →
  key ≠ "_source_row" ∧ key ≠ "_source_file" ∧ key ≠ "_source_sheet"
  ∧ key ≠ "_extraction_timestamp" ∧ key ∉ identity_keys.
Proof.
  unfold magnitude_fields, identity_keys. intros Hkey.
  repeat (apply elem_of_cons in Hkey as [->|Hkey];
          [split_and!; try done; intros Hid;
           repeat (apply elem_of_cons in Hid as [Hid|Hid]; [done|]);
           by apply elem_of_nil in Hid|]).
  by apply elem_of_nil in Hkey.
Qed.

Lemma extract_rows_magnitudes (synonyms : list (string * list string))
    (raw_headers : list string) (row_idx : nat) (rows : grid)
    (records out : list record) :
  Forall (λ tag, tag ∉ magnitude_fields) (map fst synonyms) →
  Forall magnitudes_orderable records →
  extract_rows (map (map_header synonyms) raw_headers) row_idx rows records = Ok out →
  Forall magnitudes_orderable out.
Proof.
  intros Htags. revert row_idx records.
  induction rows as [|row rest IH]; intros row_idx records Hrecords Hrun; simpl in Hrun.
  - by injection Hrun as <-.
  - destruct (iloc row 0) as [c0|e]; simpl in Hrun; [|done].
    destruct (_is_summary_row (cell_text c0)); [by injection Hrun as <-|].
    destruct (is_blank_row row); [by apply (IH (S row_idx) records)|].
    destruct (_process_row row _) as [fields|e] eqn:Hrow; simpl in Hrun; [|done].
    destruct (_has_meaningful_data fields); [|by apply (IH (S row_idx) records)].
    eapply (IH (S row_idx)); [|exact Hrun].
    apply Forall_app. split; [done|]. apply Forall_singleton.
    intros key Hkey.
    destruct (magnitude_key_facts key Hkey) as (Hrow_key & _).
    rewrite lookup_insert_ne by done.
    destruct (fields !! key) as [v|] eqn:Hv; [|by left]. right.
    unfold _process_row in Hrow.
    destruct (process_columns_entries _ _ _ _ _ Hrow key v Hv)
      as [(tag & Htag & Hentry)|Hempty]; [|by rewrite lookup_empty in Hempty].
    apply list_elem_of_fmap in Htag as (raw & Hmap & _).
    symmetry in Hmap. apply map_header_tag in Hmap.
    pose proof (proj1 (Forall_forall _ _) Htags tag Hmap) as Hnot.
    destruct (column_entry_magnitude tag key v Hnot Hkey Hentry) as [->|[q ->]];
      [by left|right; by exists q].
Qed.

Lemma sheet_records_magnitudes (synonyms : list (string * list string)) (wb : workbook)
    (s : string) :
  Forall (λ tag, tag ∉ magnitude_fields) (map fst synonyms) →
  Forall magnitudes_orderable (sheet_records synonyms wb s).
Proof.
  intros Htags. unfold sheet_records, extract_sheet.
  destruct (read_sheet wb s) as [df|e]; simpl; [|done].
  destruct (find_header_row synonyms df) as [[header_row raw_headers]|]; [|done].
  destruct (if 0 <? header_row then _ else _) as [headers|e]; simpl; [|done].
  destruct (extract_data synonyms df header_row headers) as [records|e] eqn:Hrun;
    simpl; [|done].
  unfold extract_data in Hrun.
  by eapply extract_rows_magnitudes.
Qed.

Lemma stamped_records_magnitudes (synonyms : list (string * list string)) (wb : workbook)
    (file_name : string) (clock : nat → string) (n : nat) (sheets : list string) :
  Forall (λ tag, tag ∉ magnitude_fields) (map fst synonyms) →
  Forall magnitudes_orderable
    (map (λ r, (resolve_record r).2)
       (stamped_records synonyms wb file_name clock n sheets)).
Proof.
  intros Htags. apply Forall_fmap. revert n.
  induction sheets as [|s rest IH]; intros n; simpl; [done|].
  apply Forall_app. split; [|apply IH].
  apply Forall_fmap.
  eapply Forall_impl; [by apply sheet_records_magnitudes|]. simpl.
  intros r Hr key Hkey.
  destruct (magnitude_key_facts key Hkey) as (_ & Hfile & Hsheet & Htime & Hid).
  rewrite resolve_record_identity_frame by done.
  unfold stamp. rewrite !lookup_insert_ne by done. by apply Hr.
Qed.

Lemma orderable_record_checkable (r : record) :
  magnitudes_orderable r → record_checkable r = true.
Proof.
  intros Hr.
  assert (∀ key, key ∈ magnitude_fields →
            orderable (rec_get key r) = true ∧ orderable_if_true (rec_get key r) = true)
    as Hok.
  { intros key Hkey. unfold rec_get.
    by destruct (Hr key Hkey) as [->|[->|[q ->]]]. }
  unfold record_checkable. apply andb_true_iff. split.
  - apply Hok. unfold magnitude_fields. by left.
  - apply forallb_forall. intros key Hkey%list_elem_of_In. by apply Hok.
Qed.

(** X21. Validation accepts whatever extraction returns: when no tag of the
    synonym table is itself one of the four magnitude field names (none of
    the default table is), every record read_excel returns holds under
    monthly_rent_value, annual_rent_value, area_sqm_value and
    area_sqft_value nothing, None or a float, so validate on the data of
    the result returns its findings and never raises. *)
Theorem validate_accepts_extracted_data
    (synonyms : list (string * list string)) (opened : pyres workbook)
    (file_name : string) (clock : nat → string) (process_all_sheets : bool)
    (res : ExtractionResult) :
  Forall (λ tag, tag ∉ magnitude_fields) (map fst synonyms) →
  read_excel synonyms opened file_name clock process_all_sheets = Ok res →
  Forall magnitudes_orderable (data res)
  ∧ ∃ findings, validate (data res) = (Ok findings, data res).
Proof.
  intros Htags Hrun.
  assert (Forall magnitudes_orderable (data res)) as Hdata.
  { destruct opened as [wb|e]; [|by injection Hrun as <-].
    destruct (sheets_to_process synonyms wb process_all_sheets) as [sheets|e] eqn:Hsheets.
    - destruct (decide (sheets = [])) as [->|Hne].
      + unfold read_excel in Hrun. rewrite Hsheets in Hrun. simpl in Hrun.
        by injection Hrun as <-.
      + rewrite (read_excel_fields synonyms wb file_name clock process_all_sheets sheets
                   Hsheets Hne) in Hrun.
        injection Hrun as <-. simpl. by apply stamped_records_magnitudes.
    - unfold read_excel in Hrun. by rewrite Hsheets in Hrun. }
  split; [done|].
  assert (forallb record_checkable (data res) = true) as Hcheck.
  { apply forallb_forall. intros r Hr%list_elem_of_In.
    apply orderable_record_checkable. by apply (proj1 (Forall_forall _ _) Hdata). }
  pose proof (validate_from_outcome 0 (data res) []) as Hout.
  pose proof (validate_from_frame 0 (data res) []) as Hframe.
  unfold validate.
  destruct (validate_from 0 (data res) []) as [[findings|e] records]; simpl in *; subst.
  - by exists findings.
  - destruct Hout as [_ Hno]. by rewrite Hcheck in Hno.
Qed.

Lemma validate_accepts_extracted_data_witness :
  let good : grid :=
    [[CText "Tenant"; CText "Monthly Rent"]; [CText "Acme"; CText "-1.000 €"]] in
  let wb : workbook := [("North", Ok good)] in
  ∃ res findings,
    read_excel DEFAULT_SYNONYMS (Ok wb) "roll.xlsx" (λ _, "t0") true = Ok res
    ∧ validate (data res) = (Ok findings, data res)
    ∧ map field findings = ["monthly_rent_value"].
Proof.
  intros good wb.
  assert (∃ res, read_excel DEFAULT_SYNONYMS (Ok wb) "roll.xlsx" (λ _, "t0") true = Ok res
                 ∧ map field (default [] (match (validate (data res)).1 with
                                          | Ok f => Some f | Raise _ => None end))
                   = ["monthly_rent_value"]) as (res & Hres & Hfields).
  { eexists. split; [vm_compute; reflexivity|]. vm_compute. reflexivity. }
  destruct (validate_accepts_extracted_data DEFAULT_SYNONYMS (Ok wb) "roll.xlsx"
              (λ _, "t0") true res) as (_ & findings & Hval).
  - apply Forall_forall. intros tag Htag Hmag.
    unfold magnitude_fields in Hmag.
    repeat (apply elem_of_cons in Hmag as [->|Hmag];
            [vm_compute in Htag;
             repeat (apply elem_of_cons in Htag as [Htag|Htag]; [discriminate|]);
             by apply elem_of_nil in Htag|]).
    by apply elem_of_nil in Hmag.
  - exact Hres.
  - exists res, findings. split; [exact Hres|]. split; [exact Hval|].
    rewrite Hval in Hfields. exact Hfields.
Defined.

(** ** HeaderMapper.normalize_header: the normal form of a header *)

Lemma char_class_facts (c : ascii) :
  Char.is_upper (Char.lower c) = false
  ∧ (Char.is_word c = true → Char.is_space c = false)
  ∧ (Char.is_upper c = true → Char.is_space c = false).
Proof. by destruct c as [[] [] [] [] [] [] [] []]. Qed.

Lemma lower_no_upper (s : string) :
  str_all (λ c, negb (Char.is_upper c)) (lower s) = true.
Proof.
  unfold lower. induction s as [|c s IH]; simpl; [done|].
  destruct (char_class_facts c) as (-> & _). by rewrite IH.
Qed.

Lemma str_all_lstrip (p : ascii → bool) (s : string) :
  str_all p s = true → str_all p (lstrip s) = true.
Proof.
  induction s as [|c s IH]; simpl; [done|].
  intros [Hc Hs]%andb_true_iff.
  destruct (Char.is_space c); [by apply IH|]. simpl. by rewrite Hc, Hs.
Qed.

Lemma str_all_rstrip (p : ascii → bool) (s : string) :
  str_all p s = true → str_all p (rstrip s) = true.
Proof.
  induction s as [|c s IH]; simpl; [done|].
  intros [Hc Hs]%andb_true_iff.
  destruct (Char.is_space c && is_empty (rstrip s)); [done|].
  simpl. by rewrite Hc, IH.
Qed.

Lemma punctuation_to_space_chars (k : nat) (s : string) :
  str_all (λ c, negb (Char.is_upper c)) s = true →
  str_all (λ c, negb (Char.is_upper c) && (Char.is_word c || Char.is_space c))
    (punctuation_to_space k s) = true.
Proof.
  revert k. induction s as [|c s IH]; intros k; [done|].
  intros [Hc Hs]%andb_true_iff. cbn [punctuation_to_space].
  destruct k as [|k]; [|by apply IH].
  destruct (first_match symbol_chars (String c s)).
  - cbn [str_all]. by rewrite IH.
  - cbn [str_all]. rewrite IH by done.
    destruct (Char.is_word c || Char.is_space c) eqn:Hclass; [|done].
    by rewrite Hc, Hclass.
Qed.

Lemma collapse_spaces_spaced (in_run : bool) (s : string) :
  str_all (λ c, negb (Char.is_upper c) && (Char.is_word c || Char.is_space c)) s = true →
  loose_spaced in_run (collapse_spaces in_run s) = true.
Proof.
  revert in_run. induction s as [|c s IH]; intros in_run; [done|].
  intros [[Hup Hclass]%andb_true_iff Hs]%andb_true_iff. simpl.
  destruct (Char.is_space c) eqn:Hspace.
  - destruct in_run; [by apply IH|]. simpl. by apply IH.
  - rewrite orb_false_r in Hclass. simpl.
    destruct (Ascii.eqb c " ") eqn:Hc.
    { apply ascii_eqb_eq in Hc as ->. done. }
    unfold word_char. rewrite Hclass, Hup. simpl. by apply IH.
Qed.

Lemma loose_spaced_lstrip (prev_space : bool) (s : string) :
  loose_spaced prev_space s = true → loose_spaced true (lstrip s) = true.
Proof.
  revert prev_space. induction s as [|c s IH]; intros prev_space; [done|]. simpl.
  destruct (Ascii.eqb c " ") eqn:Hc.
  - apply ascii_eqb_eq in Hc as ->. simpl. intros [_ Hs]%andb_true_iff. by eapply IH.
  - intros [Hword Hs]%andb_true_iff.
    assert (Char.is_space c = false) as ->.
    { destruct (char_class_facts c) as (_ & Hw & _). apply Hw.
      unfold word_char in Hword. by apply andb_true_iff in Hword as [? _]. }
    simpl. by rewrite Hc, Hword, Hs.
Qed.

Lemma loose_spaced_rstrip (prev_space : bool) (s : string) :
  loose_spaced prev_space s = true →
  is_empty (rstrip s) = true ∨ single_spaced prev_space (rstrip s) = true.
Proof.
  revert prev_space. induction s as [|c s IH]; intros prev_space; [by left|]. simpl.
  destruct (Ascii.eqb c " ") eqn:Hc.
  - apply ascii_eqb_eq in Hc as ->. simpl. intros [Hprev Hs]%andb_true_iff.
    destruct (IH true Hs) as [Hempty|Hrest].
    + rewrite Hempty. by left.
    + destruct (is_empty (rstrip s)); [by left|]. right. simpl. by rewrite Hprev, Hrest.
  - intros [Hword Hs]%andb_true_iff.
    assert (Char.is_space c = false) as ->.
    { destruct (char_class_facts c) as (_ & Hw & _). apply Hw.
      unfold word_char in Hword. by apply andb_true_iff in Hword as [? _]. }
    right. simpl. rewrite Hc, Hword. simpl.
    destruct (IH false Hs) as [Hempty|Hrest]; [|done].
    apply is_empty_true in Hempty. by rewrite Hempty.
Qed.

(** X22. normalize_header brings every header to a normal form: the result
    is empty or consists of words separated by single spaces, with no space
    at either end, a word being made of lower-case letters, digits,
    underscores and non-ASCII characters.  For a header of ASCII characters
    the letter case plays no role, so map_header maps such a header and its
    upper-case form alike. *)
Theorem normalize_header_normal_form
    (synonyms : list (string * list string)) (header : string) :
  normal_header (normalize_header header) = true
  ∧ (is_ascii header = true →
     normalize_header (upper header) = normalize_header header
     ∧ map_header synonyms (upper header) = map_header synonyms header).
Proof.
  assert (normalize_header (upper header) = normalize_header header) as Hcase.
  { unfold normalize_header. by rewrite lower_upper. }
  split; [|intros _; split; [done|unfold map_header; by rewrite Hcase]].
  unfold normalize_header, normal_header.
  set (cleaned := punctuation_to_space 0 (strip (lower header))).
  assert (loose_spaced false (collapse_spaces false cleaned) = true) as Hloose.
  { apply collapse_spaces_spaced, punctuation_to_space_chars.
    unfold strip. apply str_all_rstrip, str_all_lstrip, lower_no_upper. }
  apply loose_spaced_lstrip in Hloose.
  unfold strip.
  destruct (loose_spaced_rstrip true _ Hloose) as [->| ->]; [done|].
  apply orb_true_r.
Qed.

Lemma normalize_header_normal_form_witness :
  normalize_header "  Net Rent (p.a.) " = "net rent p a"
  ∧ map_header [("rent", ["net rent"])] "NET RENT (P.A.)" = Some "rent".
Proof.
  destruct (normalize_header_normal_form [("rent", ["net rent"])] "Net Rent (p.a.)")
    as [_ Hcase].
  destruct Hcase as [_ Hmap]; [by vm_compute|].
  split; [by vm_compute|].
  etrans; [exact Hmap|by vm_compute].
Defined.
(** ** NumberUnitParser: area tokens *)

(** X23. The area tokens m², m2, sqm, qm, sqft, sf, ft² and ft2 are found
    anywhere in a text, written in lower case or in upper case and without
    regard to word boundaries.  In a plain text (ASCII characters and the
    parser's own symbols) what the area pattern finds is one of these tokens
    in some letter case or a phrase beginning with "square"; for a token the
    area parse returns the unit m² or sqft, never the token as written.
    Beyond plain texts the pattern's case folding reaches letters such as
    the long s, which this development does not model. *)
Theorem area_token_is_found_anywhere (before after : string) :
  Forall (λ t, found (area_search (before +:+ t +:+ after)) = true
               ∧ found (area_search (before +:+ upper t +:+ after)) = true)
    area_literals
  ∧ ∀ text g,
      plain_text text = true →
      area_search (_clean_prefixes text) = Some g →
      (lower g ∈ area_literals ∨ startswith "square" (lower g) = true)
      ∧ (lower g ∈ area_literals →
         ∃ v u, _parse_area text = Ok (mkNumberWithUnit v (Some u) text)
                ∧ (u = "m²" ∨ u = "sqft")).
Proof.
  split.
  - apply Forall_forall. intros t Ht.
    destruct (area_literal_units t Ht) as (Hlow & _ & _).
    assert (∀ w, lower w = t → found (area_match_at (w +:+ after)) = true) as Hat.
    { intros w Hw. unfold area_match_at.
      assert (found (first_match area_literals (lower (w +:+ after))) = true) as Hf.
      { apply (first_match_found _ t); [done|].
        rewrite lower_app, Hw. apply startswith_app. }
      by destruct (first_match area_literals (lower (w +:+ after))). }
    split; apply area_search_app, Hat; [done|by rewrite lower_upper].
  - intros text g _ Hg. split; [by apply area_search_kind in Hg|].
    intros Hin. destruct (area_literal_units _ Hin) as (_ & Hstrip & Hunit).
    unfold _parse_area. rewrite Hg. cbv zeta. rewrite Hstrip.
    destruct Hunit as [-> | ->]; cbn [default]; rewrite parse_numeric_string_refines;
      eexists _, _; (split; [reflexivity|]); [by left|by right].
Qed.

Lemma area_token_is_found_anywhere_witness :
  found (area_search "ca. 120 QM Lager") = true
  ∧ ∃ v, _parse_area "ca. 120 QM Lager"
         = Ok (mkNumberWithUnit v (Some "m²") "ca. 120 QM Lager").
Proof.
  destruct (area_token_is_found_anywhere "ca. 120 " " Lager") as [Hall Hunit].
  rewrite Forall_forall in Hall.
  split.
  - refine (proj2 (Hall "qm" _)). unfold area_literals.
    rewrite !elem_of_cons. tauto.
  - destruct (Hunit "ca. 120 QM Lager" "QM") as [_ Hparse]; [by vm_compute..|].
    destruct Hparse as (v & u & Hrun & Hu).
    { unfold area_literals. rewrite !elem_of_cons. vm_compute. tauto. }
    clear Hu. exists v.
    pose proof (f_equal (λ r, match r with Ok p => unit p | Raise _ => None end) Hrun)
      as Hu.
    vm_compute in Hu. injection Hu as <-. exact Hrun.
Defined.

(** ** NumberUnitParser._parse_numeric_string: what is read *)

Lemma numeric_char_facts (c : ascii) :
  is_numeric_char c = true →
  Char.is_space c = false ∧ Ascii.eqb c "(" = false ∧ Ascii.eqb c "-" = false
  ∧ Ascii.eqb "226" c = false.
Proof.
  intros Hc. destruct c as [[] [] [] [] [] [] [] []]; by vm_compute in Hc |- *.
Qed.

Lemma numeric_chars_rstrip (s : string) : numeric_chars (rstrip s) = numeric_chars s.
Proof.
  unfold numeric_chars. induction s as [|c s IH]; [done|]. simpl.
  destruct (Char.is_space c && is_empty (rstrip s)) eqn:Hcut.
  - apply andb_true_iff in Hcut as [Hc Hempty]. apply is_empty_true in Hempty.
    rewrite Hempty in IH. simpl in IH. rewrite <-IH.
    destruct (is_numeric_char c) eqn:Hnum; [|done].
    destruct (numeric_char_facts c Hnum) as (Hspace & _). by rewrite Hspace in Hc.
  - simpl. by rewrite IH.
Qed.

Lemma numeric_chars_idem (s : string) : numeric_chars (numeric_chars s) = numeric_chars s.
Proof.
  unfold numeric_chars. induction s as [|c s IH]; [done|]. simpl.
  destruct (is_numeric_char c) eqn:Hc; [|done]. simpl. by rewrite Hc, IH.
Qed.

Lemma numeric_chars_numeric (s : string) :
  str_all is_numeric_char (numeric_chars s) = true.
Proof. apply str_all_filter. Qed.

Lemma strip_numeric (c : ascii) (s : string) :
  is_numeric_char c = true →
  strip (String c s) = String c (rstrip s)
  ∧ split_sign (String c (rstrip s)) = (false, String c (rstrip s)).
Proof.
  intros Hc. destruct (numeric_char_facts c Hc) as (Hspace & Hparen & Hminus & Hbyte).
  unfold strip. simpl. rewrite Hspace. simpl. rewrite Hspace. simpl. split; [done|].
  clear -Hc. generalize (rstrip s) as t. intros t.
  destruct c as [[] [] [] [] [] [] [] []]; try (by vm_compute in Hc); reflexivity.
Qed.

(** X24. Of a text that begins with a digit, _parse_numeric_string reads
    the digits, dots, commas and apostrophes only, joined in their order:
    whatever stands between them, letters, spaces or further minus signs,
    is dropped before the locale rules apply ("5 years 3 months" reads as
    53). *)
Theorem numeric_characters_are_joined (d : ascii) (rest : string) :
  Char.is_digit d = true →
  _parse_numeric_string (String d rest)
  = _parse_numeric_string (numeric_chars (String d rest)).
Proof.
  intros Hd.
  assert (is_numeric_char d = true) as Hnum.
  { unfold is_numeric_char. by rewrite Hd. }
  assert (numeric_chars (String d rest) = String d (numeric_chars rest)) as Hjoin.
  { unfold numeric_chars. simpl. by rewrite Hnum. }
  rewrite Hjoin. unfold _parse_numeric_string. cbn [is_empty].
  destruct (strip_numeric d rest Hnum) as [-> ->].
  destruct (strip_numeric d (numeric_chars rest) Hnum) as [-> ->].
  assert (numeric_chars (String d (rstrip rest)) = String d (numeric_chars rest)) as ->.
  { unfold numeric_chars. simpl. rewrite Hnum.
    f_equal. apply numeric_chars_rstrip. }
  assert (numeric_chars (String d (rstrip (numeric_chars rest)))
          = String d (numeric_chars rest)) as ->.
  { unfold numeric_chars. simpl. rewrite Hnum. f_equal.
    fold (numeric_chars (rstrip (numeric_chars rest))).
    fold (numeric_chars rest).
    by rewrite numeric_chars_rstrip, numeric_chars_idem. }
  done.
Qed.

Lemma numeric_characters_are_joined_witness :
  _parse_numeric_string "5 years 3 months" = Ok (Some (inject_Z 53)).
Proof.
  rewrite (numeric_characters_are_joined "5" " years 3 months" eq_refl).
  vm_compute. reflexivity.
Defined.
(** * Examples: the test-suite of the program and the design document's cases *)

Example pns_eu : _parse_numeric_string "1.234,56" = Ok (Some (Qmake 30864 25)).
Proof. vm_compute. reflexivity. Qed.
Example pns_us : _parse_numeric_string "1,234.56" = Ok (Some (Qmake 30864 25)).
Proof. vm_compute. reflexivity. Qed.
Example pns_ch : _parse_numeric_string "1'234'567.89" = Ok (Some (Qmake 123456789 100)).
Proof. vm_compute. reflexivity. Qed.
Example pns_paren : _parse_numeric_string "(500)" = Ok (Some (Qmake (-500) 1)).
Proof. vm_compute. reflexivity. Qed.
Example pns_group : _parse_numeric_string "1,234" = Ok (Some (Qmake 1234 1)).
Proof. vm_compute. reflexivity. Qed.
Example pns_dots : _parse_numeric_string "1.234.567" = Ok None.
Proof. vm_compute. reflexivity. Qed.

Example parser_test_suite :
  forallb (λ '(text, v, u), parses_to text v u)
    [ ("1.234,56 €", Some (Qmake 123456 100), Some "EUR");
      ("€ 1.234,56", Some (Qmake 123456 100), Some "EUR");
      ("1.234.567,89 EUR", Some (Qmake 123456789 100), Some "EUR");
      ("1,234.56 USD", Some (Qmake 123456 100), Some "USD");
      ("$1,234.56", Some (Qmake 123456 100), Some "USD");
      ("$1,234,567.89", Some (Qmake 123456789 100), Some "USD");
      ("1'234.56 CHF", Some (Qmake 123456 100), Some "CHF");
      ("CHF 1'234'567.89", Some (Qmake 123456789 100), Some "CHF");
      ("(500)", Some (Qmake (-500) 1), None);
      ("(1,234.56)", Some (Qmake (-123456) 100), None);
      ("-500 €", Some (Qmake (-500) 1), Some "EUR");
      ("95%", Some (Qmake 95 1), Some "%");
      ("95 %", Some (Qmake 95 1), Some "%");
      ("99.5%", Some (Qmake 995 10), Some "%");
      ("99,5%", Some (Qmake 995 10), Some "%");
      ("7,200 sqft", Some (Qmake 7200 1), Some "sqft");
      ("500 m²", Some (Qmake 500 1), Some "m²");
      ("1.234 m²", Some (Qmake 1234 1), Some "m²");
      ("1,234 sqm", Some (Qmake 1234 1), Some "m²");
      ("1000€", Some (Qmake 1000 1), Some "EUR");
      ("€1000", Some (Qmake 1000 1), Some "EUR");
      ("approx. 1000", Some (Qmake 1000 1), None);
      ("ca. 500 €", Some (Qmake 500 1), Some "EUR");
      (">= 90%", Some (Qmake 90 1), Some "%");
      ("1234", Some (Qmake 1234 1), None);
      ("1,234", Some (Qmake 1234 1), None);
      ("1.234", Some (Qmake 1234 1), None);
      ("3 Jahre", Some (Qmake 3 1), Some "Jahre");
      ("12 months", Some (Qmake 12 1), Some "months");
      ("", None, None);
      ("-", None, None);
      ("n/a", None, None);
      ("00:00:00", None, None) ] = true.
Proof. vm_compute. reflexivity. Qed.

(** The tokens the detection order is stated over. *)
Example currency_code_needs_word_boundary :
  has_currency "100 eur" = true
  ∧ has_currency "eur100" = false
  ∧ has_currency "100 euros" = false
  ∧ has_currency "$100" = true.
Proof. vm_compute. done. Qed.

Example area_tokens_detected :
  forallb (λ token, found (area_search ("12 " +:+ token)))
    ["m²"; "m2"; "sqm"; "qm"; "sqft"; "sf"; "ft²"; "ft2";
     "square feet"; "square metres"; "square meters"; "Square Feet"] = true.
Proof. vm_compute. reflexivity. Qed.

Example percent_wins_over_currency :
  parses_to "5 % of 100 €" (Some (inject_Z 5)) (Some "%") = true
  ∧ parses_to "100 € per sqm" (Some (inject_Z 100)) (Some "EUR") = true
  ∧ parses_to "12 sqm in 3 years" (Some (inject_Z 123)) (Some "m²") = true.
Proof. vm_compute. done. Qed.

(** Header mapping: case, punctuation and language. *)
Example map_header_examples :
  map (map_header DEFAULT_SYNONYMS)
    ["  MIETER "; "Locataire"; "Tenant"; "Fläche (m²)"; "Unit-ID"; "Loyer mensuel"; "xyz"; ""]
  = [Some "tenant_name"; Some "tenant_name"; Some "tenant_name"; Some "area_sqm";
     Some "unit_id"; Some "monthly_rent"; None; None].
Proof. vm_compute. reflexivity. Qed.

(** Sheet selection: a summary sheet is skipped. *)
Example summary_sheet_is_skipped :
  let roll : grid :=
    [[CText "Mieter"; CText "Miete"]; [CText "Acme"; CText "1.000 €"]] in
  get_all_data_sheets DEFAULT_SYNONYMS [("Summary", Ok roll); ("Mieterliste", Ok roll)]
  = ["Mieterliste"].
Proof. vm_compute. reflexivity. Qed.

(** Validation findings. *)
Example validate_negative_rent :
  (validate [ {[ "tenant_name" := VStr "Acme";
                 "monthly_rent_value" := VFloat (inject_Z (-100)) ]} ]).1
  = Ok [mkValidationError "warning" 0 "monthly_rent_value"
          "Negative rent value detected" (VFloat (inject_Z (-100)))].
Proof. vm_compute. reflexivity. Qed.

Example validate_missing_identifiers :
  (validate [ {[ "status" := VStr "let" ]} ]).1
  = Ok [mkValidationError "warning" 0 "tenant/unit identifiers"
          "Missing tenant and unit identifiers (tenant_name, tenant_id, unit_id, contract_id, asset_id)"
          VNone].
Proof. vm_compute. reflexivity. Qed.

Example validate_text_rent_raises :
  (validate [ {[ "unit_id" := VStr "A1"; "monthly_rent_value" := VStr "n/a" ]} ]).1
  = Raise TypeError.
Proof. vm_compute. reflexivity. Qed.
